(** * Sidetree Bitcoin processor: chain tracking, anchor log and proof of fee

    A shallow embedding of [BitcoinProcessor] (lib/ipfs/Util/Timeout.ts) and
    of the collaborators it drives, followed by the properties of the
    chain-tracking state machine, the query surface and the retry policy.

    Conventions.
    - JavaScript numbers that hold block heights, transaction numbers,
      satoshi amounts and milliseconds are integers well inside the exact
      range of a double; they are modelled by [Z].  Bitcoin amounts in BTC and
      the quantile scale are fractional and are modelled by [Q]; the rounding
      error of double multiplication is not modelled.
    - An [await]ed call that may reject is a computation in the monad [M]:
      it takes the processor state and gives back a result or a thrown
      exception together with the state reached (JavaScript does not undo
      the mutations made before a throw).
    - The upstream Bitcoin peer is a table of answers that does not change
      while one operation runs. *)

From Stdlib Require Import ZArith List String Ascii Bool Lia QArith Qround Sorted.
Import ListNotations.
Local Open Scope string_scope.
Local Open Scope list_scope.
Local Open Scope Z_scope.

Set Implicit Arguments.

(** ** Exceptions and results *)

Inductive ResponseStatus := BadRequest | NotFound | ServerError.

Inductive ErrorCode := InvalidTransactionNumberOrTimeHash.

Inductive FetchErrorType := RequestTimeout | SystemError | BodyTimeout.

(** What a [throw] carries: the [RequestError] of the query surface, a plain
    [Error] with its message, node-fetch's [FetchError] with its [type], and
    the [TypeError] JavaScript raises on a property access of [undefined]. *)
Inductive Exn :=
| RequestError (status : ResponseStatus) (code : option ErrorCode)
| Error (message : string)
| FetchError (type : FetchErrorType)
| TypeError.

Inductive Res (A : Type) :=
| Ok (a : A)
| Throw (e : Exn).
Arguments Ok {A} a.
Arguments Throw {A} e.

(** ** Data model *)

(** [TransactionModel]: the five fields the processor writes and returns. *)
Record TransactionModel := mkTransaction {
  transactionNumber : Z;
  transactionTime : Z;
  transactionTimeHash : string;
  anchorString : string;
  feePaid : Z
}.

Record IBlockInfo := mkBlockInfo {
  height : Z;
  hash : string
}.

Record FeeModel := mkFee { normalizedTransactionFee : Q }.

(** The JSON the peer returns for [getblock] (verbosity 2) and
    [getrawtransaction] (verbose), cut down to the fields the processor reads.
    [vin] and [vout] are optional on a block transaction because the
    processor tests for the presence of [vout]. *)
Record VOut := mkVOut {
  vout_value : Q;         (* value: amount in BTC *)
  vout_n : Z;             (* n: output index *)
  scriptPubKey_asm : string
}.

Record VIn := mkVIn {
  vin_txid : string;
  vin_vout : Z
}.

Record BlockTransaction := mkBlockTx {
  txid : string;
  vin : option (list VIn);
  vout : option (list VOut)
}.

Record BlockData := mkBlock {
  block_hash : string;
  tx : list BlockTransaction
}.

Record RawTransaction := mkRawTx {
  raw_vin : list VIn;
  raw_vout : list VOut
}.

(** The peer, as the processor sees it through [rpcCall]: the answer to each
    of the four requests the modelled methods send. *)
Record Peer := mkPeer {
  getblockcount : Res Z;
  getblockhash : Z -> Res string;
  getblock : string -> Res BlockData;
  getrawtransaction : string -> Res RawTransaction
}.

(** The configuration fields read by the modelled methods. *)
Record Config := mkConfig {
  sidetreePrefix : string;
  genesisBlockNumber : Z;
  pageSize : Z;
  historicalOffsetInBlocks : Z;
  quantileScale : Q;
  batchSizeInBlocks : Z;
  maxTransactionInputCount : Z
}.

(** ** TransactionNumber *)

Module TransactionNumber.

(** Modelled from the spec: TransactionNumber.ts is not part of the sources.
    [transaction_number = (block_height * 2^24) + index_within_block]. *)
Definition construct (blockNumber transactionIndexInBlock : Z) : Z :=
  blockNumber * 2 ^ 24 + transactionIndexInBlock.

(** Modelled from the spec: [block_of(n) = n >> 24]. *)
Definition getBlockNumber (transactionNumber : Z) : Z :=
  Z.shiftr transactionNumber 24.

End TransactionNumber.

(** ** The transaction store *)

Module TransactionStore.

(** Modelled from the spec: MongoDbTransactionStore is not part of the
    sources.  The log is the list of its records in ascending
    [transaction_number] order. *)
Definition t := list TransactionModel.

(** Modelled from the spec: [append(rec)]: total order on
    [transaction_number]; a record whose number is already stored is
    rejected and the log is left as it was. *)
Fixpoint addTransaction (rec : TransactionModel) (log : t) : t :=
  match log with
  | [] => [rec]
  | r :: rest =>
      if transactionNumber rec <? transactionNumber r then rec :: log
      else if transactionNumber rec =? transactionNumber r then log
      else r :: addTransaction rec rest
  end.

(** Modelled from the spec: [count()]. *)
Definition getTransactionsCount (log : t) : Z := Z.of_nat (List.length log).

(** Modelled from the spec: [last()]: the record with maximum
    [transaction_number]. *)
Definition getLastTransaction (log : t) : option TransactionModel :=
  last (map Some log) None.

(** Modelled from the spec: [later_than(txnum, limit)]: up to [limit]
    records with [transaction_number > txnum] in ascending order; [None]
    means from the beginning. *)
Definition getTransactionsLaterThan (since : option Z) (max : Z) (log : t)
  : list TransactionModel :=
  firstn (Z.to_nat max)
    (match since with
     | None => log
     | Some s => filter (fun r => s <? transactionNumber r) log
     end).

(** Offsets 1, 2, 4, 8, ... below [count], at most [fuel] of them. *)
Fixpoint doublingOffsets (fuel : nat) (offset count : nat) : list nat :=
  match fuel with
  | O => []
  | S fuel' =>
      if Nat.ltb offset count
      then offset :: doublingOffsets fuel' (2 * offset) count
      else []
  end.

(** Modelled from the spec: [exponentially_spaced()]: the records at
    offsets 0, 1, 2, 4, 8, 16, ... from the tail, one per offset that
    exists, newest first. *)
Definition getExponentiallySpacedTransactions (log : t)
  : list TransactionModel :=
  let newestFirst := rev log in
  let count := List.length log in
  flat_map (fun offset =>
              match nth_error newestFirst offset with
              | Some r => [r]
              | None => []
              end)
           (0%nat :: doublingOffsets count 1 count).

(** Modelled from the spec: [remove_later_than(txnum)]: deletes all records
    strictly greater than [txnum]. *)
Definition removeTransactionsLaterThan (txnum : Z) (log : t) : t :=
  filter (fun r => transactionNumber r <=? txnum) log.

End TransactionStore.

(** ** The quantile calculator *)

Module QuantileCalculator.

(** Modelled from the spec: SlidingWindowQuantileCalculator is not part of
    the sources.  A persisted snapshot is the tuple
    [(batch_id, quantile_value_satoshis, frequency_vector)]. *)
Record Snapshot := mkSnapshot {
  batch_id : Z;
  quantile_value : Z;
  frequency_vector : list Z
}.

Definition t := list Snapshot.

(** Modelled from the spec: [quantile(batch_id)]: the persisted quantile
    value of [batch_id] if present, else none. *)
Definition getQuantile (batchId : Z) (snapshots : t) : option Z :=
  option_map quantile_value
    (find (fun s => batch_id s =? batchId) snapshots).

(** Modelled from the spec: [remove_batches_ge(batch_id)]: drops all
    snapshots with id >= [batch_id]; the rolling frequency vector is
    rebuilt from the snapshots that remain, so it is not a separate part of
    the state. *)
Definition removeBatchesGreaterThanOrEqual (batchId : Z) (snapshots : t) : t :=
  filter (fun s => batch_id s <? batchId) snapshots.

End QuantileCalculator.

(** ** The transaction sampler *)

(** Modelled from the spec: ReservoirSampler (PsuedoRandomSampler.ts) is not
    part of the sources.  The sampler is deterministic in its seed, so its
    contents are a function of the calls made on it; its state is kept as
    that sequence of calls, oldest first. *)
Inductive SamplerCall :=
| ResetPsuedoRandomSeed (seed : string)
| AddElement (element : string)
| Clear.

(** ** Processor state and the monad of its methods *)

(** The line [console.info(`Processing block ${block}`)] that opens
    [processBlock]; the other console output is not modelled. *)
Inductive ConsoleLine := ProcessingBlock (block : Z).

Record State := mkState {
  transactionStore : TransactionStore.t;
  transactionSampler : list SamplerCall;
  quantileCalculator : QuantileCalculator.t;
  lastSeenBlock : option IBlockInfo;
  console : list ConsoleLine
}.

(** The outcome of running a method: a value, a thrown exception, or
    [OutOfFuel] when a [while] loop was cut after the given number of
    iterations.  [OutOfFuel] is not an exception: [tryCatch] lets it through. *)
Inductive Outcome (A : Type) :=
| Done (r : Res A)
| OutOfFuel.
Arguments Done {A} r.
Arguments OutOfFuel {A}.

Definition M (A : Type) := State -> Outcome A * State.

Definition ret {A} (a : A) : M A := fun s => (Done (Ok a), s).

Definition throw {A} (e : Exn) : M A := fun s => (Done (Throw e), s).

Definition bind {A B} (c : M A) (k : A -> M B) : M B :=
  fun s =>
    match c s with
    | (Done (Ok a), s') => k a s'
    | (Done (Throw e), s') => (Done (Throw e), s')
    | (OutOfFuel, s') => (OutOfFuel, s')
    end.

Notation "x <- c ;; k" := (bind c (fun x => k))
  (at level 61, c at next level, right associativity).
Notation "c ;;; k" := (bind c (fun _ => k))
  (at level 61, right associativity).

(** [try { c } catch (e) { h e }]. *)
Definition tryCatch {A} (c : M A) (h : Exn -> M A) : M A :=
  fun s =>
    match c s with
    | (Done (Throw e), s') => h e s'
    | other => other
    end.

(** [await] of a call that does not touch the processor ([rpcCall] to the
    peer, the persistence of a snapshot): it resolves or rejects with the
    given answer and the state is as before. *)
Definition await {A} (answer : Res A) : M A := fun s => (Done answer, s).

Definition gets {A} (f : State -> A) : M A := fun s => (Done (Ok (f s)), s).

Definition modify (f : State -> State) : M unit := fun s => (Done (Ok tt), f s).

Definition outOfFuel {A} : M A := fun s => (OutOfFuel, s).

Fixpoint mapM {A B} (f : A -> M B) (l : list A) : M (list B) :=
  match l with
  | [] => ret []
  | a :: rest => b <- f a ;; bs <- mapM f rest ;; ret (b :: bs)
  end.

(** State updates, one per mutable member. *)
Definition withStore (f : TransactionStore.t -> TransactionStore.t) (s : State) :=
  mkState (f (transactionStore s)) (transactionSampler s)
          (quantileCalculator s) (lastSeenBlock s) (console s).

Definition withSampler (f : list SamplerCall -> list SamplerCall) (s : State) :=
  mkState (transactionStore s) (f (transactionSampler s))
          (quantileCalculator s) (lastSeenBlock s) (console s).

Definition withQuantile (f : QuantileCalculator.t -> QuantileCalculator.t)
  (s : State) :=
  mkState (transactionStore s) (transactionSampler s)
          (f (quantileCalculator s)) (lastSeenBlock s) (console s).

Definition withLastSeenBlock (b : option IBlockInfo) (s : State) :=
  mkState (transactionStore s) (transactionSampler s)
          (quantileCalculator s) b (console s).

Definition withConsole (line : ConsoleLine) (s : State) :=
  mkState (transactionStore s) (transactionSampler s)
          (quantileCalculator s) (lastSeenBlock s) (console s ++ [line]).

(** ** JavaScript helpers *)

Module JS.

(** Truthiness of a [number | undefined]: [undefined] and [0] are falsy. *)
Definition truthyNumber (x : option Z) : bool :=
  match x with
  | Some v => negb (v =? 0)
  | None => false
  end.

(** Truthiness of a [string | undefined]: [undefined] and the empty string
    are falsy. *)
Definition truthyString (x : option string) : bool :=
  match x with
  | Some v => negb (String.eqb v "")
  | None => false
  end.

(** [Math.round]: the nearest integer, halves going up. *)
Definition Math_round (x : Q) : Z := Qfloor (x + (1 # 2)).

Definition isHexDigit (c : ascii) : bool :=
  let k := nat_of_ascii c in
  ((48 <=? k) && (k <=? 57) || (65 <=? k) && (k <=? 70)
   || (97 <=? k) && (k <=? 102))%nat.

Definition hexDigitValue (c : ascii) : nat :=
  let k := nat_of_ascii c in
  (if k <=? 57 then k - 48 else if k <=? 70 then k - 55 else k - 87)%nat.

(** The longest prefix of [l] whose elements satisfy [p], and the rest. *)
Fixpoint span {A} (p : A -> bool) (l : list A) : list A * list A :=
  match l with
  | [] => ([], [])
  | a :: rest =>
      if p a then let (yes, no) := span p rest in (a :: yes, no)
      else ([], l)
  end.

(** Group 1 of [asm.match(/\s*OP_RETURN ([0-9a-fA-F]+)$/)].  The pattern is
    not anchored on the left and [$] is the end of the input, so it matches
    when the string ends with [OP_RETURN ], then one or more hex digits; the
    digits are preceded by a space, which is not a hex digit, so the group
    is the longest hex suffix of the string. *)
Definition matchOpReturn (asm : string) : option string :=
  let (hexReversed, beforeReversed) :=
    span isHexDigit (rev (list_ascii_of_string asm)) in
  match hexReversed with
  | [] => None
  | _ =>
      if String.prefix " NRUTER_PO" (string_of_list_ascii beforeReversed)
      then Some (string_of_list_ascii (rev hexReversed))
      else None
  end.

(** [Buffer.from(hex, 'hex').toString()] on a string of hex digits: every
    pair of digits is one byte and an odd last digit is dropped.  The bytes
    are kept as the characters of the result; UTF-8 decoding is the identity
    on ASCII bytes, which is all a comparison with an ASCII prefix reads. *)
Fixpoint hexToString (digits : list ascii) : string :=
  match digits with
  | hi :: lo :: rest =>
      String (ascii_of_nat (16 * hexDigitValue hi + hexDigitValue lo))
             (hexToString rest)
  | _ => EmptyString
  end.

Definition startsWith (s prefix : string) : bool := String.prefix prefix s.

(** [s.slice(k)] for [0 <= k]. *)
Definition slice (s : string) (k : nat) : string :=
  substring k (String.length s - k) s.

End JS.

(** ** BitcoinProcessor *)

Record TransactionsResponse := mkResponse {
  moreTransactions : bool;
  transactions_of : list TransactionModel
}.

Section BitcoinProcessor.

Variable config : Config.
Variable peer : Peer.

(** Modelled from the spec: [sample()], the reservoir contents, as a
    function of the calls the sampler has received. *)
Variable getSample : list SamplerCall -> list string.

(** Modelled from the spec: [add(batch_id, fees)] of the quantile
    calculator: it may fail, and otherwise persists the snapshots it
    returns. *)
Variable quantileAdd :
  Z -> list Z -> QuantileCalculator.t -> Res QuantileCalculator.t.

Definition satoshiPerBTC : Q := 100000000 # 1.

Definition getBlockHash (height : Z) : M string :=
  await (getblockhash peer height).

Definition getCurrentBlockHeight : M Z :=
  await (getblockcount peer).

Definition verifyBlock (height : Z) (hash : string) : M bool :=
  responseData <- getBlockHash height ;;
  ret (String.eqb hash responseData).

(** *** Queries *)

Definition transactions (since : option Z) (hash : option string)
  : M TransactionsResponse :=
  (if (JS.truthyNumber since && negb (JS.truthyString hash))
      || (negb (JS.truthyNumber since) && JS.truthyString hash)
   then throw (RequestError BadRequest None)
   else if JS.truthyNumber since && JS.truthyString hash
   then
     match since, hash with
     | Some since', Some hash' =>
         valid <- verifyBlock (TransactionNumber.getBlockNumber since') hash' ;;
         if negb valid
         then throw (RequestError BadRequest
                       (Some InvalidTransactionNumberOrTimeHash))
         else ret tt
     | _, _ => ret tt
     end
   else ret tt) ;;;
  transactions <- gets (fun s =>
    TransactionStore.getTransactionsLaterThan since (pageSize config)
      (transactionStore s)) ;;
  let transactions :=
    map (fun transaction =>
           mkTransaction (transactionNumber transaction)
                         (transactionTime transaction)
                         (transactionTimeHash transaction)
                         (anchorString transaction)
                         (feePaid transaction))
        transactions in
  ret (mkResponse (Z.of_nat (List.length transactions) =? pageSize config)
                  transactions).

Fixpoint firstValidTransaction (transactions : list TransactionModel)
  : M (option TransactionModel) :=
  match transactions with
  | [] => ret None
  | transaction :: rest =>
      valid <- verifyBlock (transactionTime transaction)
                           (transactionTimeHash transaction) ;;
      if valid then ret (Some transaction) else firstValidTransaction rest
  end.

Definition fee (block : Z) : M (option FeeModel) :=
  let blockAfterHistoryOffset :=
    Z.max (block - historicalOffsetInBlocks config) 0 in
  let batchId := blockAfterHistoryOffset / batchSizeInBlocks config in
  quantileValue <- gets (fun s =>
    QuantileCalculator.getQuantile batchId (quantileCalculator s)) ;;
  if JS.truthyNumber quantileValue
  then
    match quantileValue with
    | Some v => ret (Some (mkFee (inject_Z v * quantileScale config)))
    | None => ret None
    end
  else ret None.

(** *** Batches *)

Definition roundToBatchBoundary (block : Z) : Z :=
  let batchId := block / batchSizeInBlocks config in
  batchId * batchSizeInBlocks config.

Definition isBatchBoundary (block : Z) : bool :=
  Z.rem (block + 1) (batchSizeInBlocks config) =? 0.

Definition getBatchId (block : Z) : Z :=
  block / batchSizeInBlocks config.

(** *** Fees of a transaction *)

Definition getTransactionOutValueInSatoshi (txid : string) (outIdx : Z)
  : M Z :=
  xact <- await (getrawtransaction peer txid) ;;
  match find (fun v => vout_n v =? outIdx) (raw_vout xact) with
  | Some vout => ret (JS.Math_round (vout_value vout * satoshiPerBTC))
  | None => throw TypeError
  end.

Fixpoint sumInputs (inputs : list VIn) (inputSatoshiSum : Z) : M Z :=
  match inputs with
  | [] => ret inputSatoshiSum
  | input :: rest =>
      xactOutValue <-
        getTransactionOutValueInSatoshi (vin_txid input) (vin_vout input) ;;
      sumInputs rest (inputSatoshiSum + xactOutValue)
  end.

Definition getTransactionFeeInSatoshi (txid : string) : M Z :=
  xact <- await (getrawtransaction peer txid) ;;
  inputSatoshiSum <- sumInputs (raw_vin xact) 0 ;;
  let xactOuts :=
    map (fun v => JS.Math_round (vout_value v * satoshiPerBTC))
        (raw_vout xact) in
  let outputSatoshiSum := fold_left Z.add xactOuts 0 in
  ret (inputSatoshiSum - outputSatoshiSum).

(** *** Anchor extraction *)

(** The [for] loop over the outputs of one transaction:
    [sidetreeTxToAdd] is the anchor found so far. *)
Fixpoint scanVOuts (allVOuts : list VOut)
  (transactionIndex transactionBlock : Z) (transactionHash : string)
  (sidetreeTxToAdd : option TransactionModel)
  : M (option TransactionModel) :=
  match allVOuts with
  | [] => ret sidetreeTxToAdd
  | output :: rest =>
      match JS.matchOpReturn (scriptPubKey_asm output) with
      | None =>
          scanVOuts rest transactionIndex transactionBlock transactionHash
                    sidetreeTxToAdd
      | Some hexData =>
          let data := JS.hexToString (list_ascii_of_string hexData) in
          let isSidetreeTx := JS.startsWith data (sidetreePrefix config) in
          let oneSidetreeTxAlreadyFound :=
            match sidetreeTxToAdd with Some _ => true | None => false end in
          if isSidetreeTx && oneSidetreeTxAlreadyFound
          then throw (Error
                 "The transaction has more then one sidetree anchor strings.")
          else if isSidetreeTx
          then scanVOuts rest transactionIndex transactionBlock
                 transactionHash
                 (Some (mkTransaction
                          (TransactionNumber.construct transactionBlock
                                                       transactionIndex)
                          transactionBlock
                          transactionHash
                          (JS.slice data
                             (String.length (sidetreePrefix config)))
                          0))
          else scanVOuts rest transactionIndex transactionBlock
                 transactionHash sidetreeTxToAdd
      end
  end.

Definition addValidSidetreeTransactionsFromVOutsToTransactionStore
  (allVOuts : list VOut) (transactionIndex transactionBlock : Z)
  (transactionHash : string) (transactionId : string) : M bool :=
  sidetreeTxToAdd <-
    scanVOuts allVOuts transactionIndex transactionBlock transactionHash
              None ;;
  match sidetreeTxToAdd with
  | Some found =>
      fee <- getTransactionFeeInSatoshi transactionId ;;
      let found := mkTransaction (transactionNumber found)
                     (transactionTime found) (transactionTimeHash found)
                     (anchorString found) fee in
      modify (withStore (TransactionStore.addTransaction found)) ;;;
      ret true
  | None => ret false
  end.

(** *** Processing a block *)

(** The body of the [for] loop over the transactions of a block. *)
Definition processBlockTransaction (transaction : BlockTransaction)
  (transactionIndex block : Z) (blockHash : string) : M unit :=
  match vout transaction with
  | None => ret tt
  | Some outputs =>
      tryCatch
        (isSidetreeTransaction <-
           addValidSidetreeTransactionsFromVOutsToTransactionStore
             outputs transactionIndex block blockHash (txid transaction) ;;
         inputsCount <-
           match vin transaction with
           | Some inputs => ret (Z.of_nat (List.length inputs))
           | None => throw TypeError
           end ;;
         if negb isSidetreeTransaction
            && (inputsCount <=? maxTransactionInputCount config)
         then modify (withSampler
                        (fun calls => calls ++ [AddElement (txid transaction)]))
         else ret tt)
        (fun _ => ret tt)
  end.

Fixpoint processBlockTransactions (transactions : list BlockTransaction)
  (transactionIndex block : Z) (blockHash : string) : M unit :=
  match transactions with
  | [] => ret tt
  | transaction :: rest =>
      processBlockTransaction transaction transactionIndex block blockHash ;;;
      processBlockTransactions rest (transactionIndex + 1) block blockHash
  end.

Definition processBlock (block : Z) : M string :=
  modify (withConsole (ProcessingBlock block)) ;;;
  hash <- getBlockHash block ;;
  responseData <- await (getblock peer hash) ;;
  let transactions := tx responseData in
  let blockHash := block_hash responseData in
  modify (withSampler
            (fun calls => calls ++ [ResetPsuedoRandomSeed blockHash])) ;;;
  processBlockTransactions transactions 0 block blockHash ;;;
  (if isBatchBoundary block
   then
     sampledTransactionIds <- gets (fun s => getSample (transactionSampler s)) ;;
     sampledTransactionFees <-
       mapM getTransactionFeeInSatoshi sampledTransactionIds ;;
     let batchId := getBatchId block in
     snapshots <- gets quantileCalculator ;;
     snapshots' <- await (quantileAdd batchId sampledTransactionFees
                                        snapshots) ;;
     modify (withQuantile (fun _ => snapshots')) ;;;
     modify (withSampler (fun calls => calls ++ [Clear]))
   else ret tt) ;;;
  ret blockHash.

(** *** Rollback *)

(** One pass of the body of the [while] loop of [revertBlockchainCache],
    entered with a log that is not empty: [inl] is the value returned from
    inside the loop, [inr tt] asks for the loop condition to be tested
    again. *)
Definition revertIteration : M (Z + unit) :=
  exponentiallySpacedTransactions <- gets (fun s =>
    TransactionStore.getExponentiallySpacedTransactions
      (transactionStore s)) ;;
  firstValid <- firstValidTransaction exponentiallySpacedTransactions ;;
  match firstValid with
  | Some firstValid' =>
      let revertToBlockNumber :=
        roundToBatchBoundary (transactionTime firstValid' + 1) in
      let revertToTransactionNumber :=
        TransactionNumber.construct revertToBlockNumber 0 - 1 in
      modify (withStore (TransactionStore.removeTransactionsLaterThan
                           revertToTransactionNumber)) ;;;
      modify (withSampler (fun calls => calls ++ [Clear])) ;;;
      modify (withQuantile
                (QuantileCalculator.removeBatchesGreaterThanOrEqual
                   revertToBlockNumber)) ;;;
      ret (inl revertToBlockNumber)
  | None =>
      match last (map Some exponentiallySpacedTransactions) None with
      | Some lowest =>
          let lowestHeight := transactionTime lowest in
          let revertToTransactionNumber :=
            TransactionNumber.construct lowestHeight 0 in
          modify (withStore (TransactionStore.removeTransactionsLaterThan
                               revertToTransactionNumber)) ;;;
          ret (inr tt)
      | None => throw TypeError
      end
  end.

(** [revertBlockchainCache]; [fuel] bounds the number of times the loop
    condition is tested. *)
Fixpoint revertBlockchainCache (fuel : nat) : M Z :=
  match fuel with
  | O => outOfFuel
  | S fuel' =>
      count <- gets (fun s =>
        TransactionStore.getTransactionsCount (transactionStore s)) ;;
      if 0 <? count
      then
        step <- revertIteration ;;
        match step with
        | inl revertToBlockNumber => ret revertToBlockNumber
        | inr _ => revertBlockchainCache fuel'
        end
      else ret (genesisBlockNumber config)
  end.

(** *** The sync loop *)

(** [for (blockHeight = ...; blockHeight < endBlockHeight; blockHeight++)]
    with [remaining] iterations to go. *)
Fixpoint processBlockRange (remaining : nat) (blockHeight : Z) : M unit :=
  match remaining with
  | O => ret tt
  | S remaining' =>
      processBlock blockHeight ;;;
      processBlockRange remaining' (blockHeight + 1)
  end.

Definition processTransactions (fuel : nat) (startBlock : option IBlockInfo)
  (endBlockHeight : option Z) : M IBlockInfo :=
  startBlockHeight <-
    match startBlock with
    | Some startBlock' =>
        startValid <- verifyBlock (height startBlock') (hash startBlock') ;;
        if negb startValid
        then revertBlockchainCache fuel
        else ret (height startBlock')
    | None => ret (genesisBlockNumber config)
    end ;;
  endBlockHeight <-
    match endBlockHeight with
    | None => getCurrentBlockHeight
    | Some given => ret given
    end ;;
  if (startBlockHeight <? genesisBlockNumber config)
     || (endBlockHeight <? genesisBlockNumber config)
  then throw (Error "Cannot process Transactions before genesis")
  else
    processBlockRange (Z.to_nat (endBlockHeight - startBlockHeight))
                      startBlockHeight ;;;
    hash <- processBlock endBlockHeight ;;
    ret (mkBlockInfo endBlockHeight hash).

(** One tick of [periodicPoll], without the timer that schedules the next
    one. *)
Definition periodicPoll (fuel : nat) : M unit :=
  tryCatch
    (from <- gets lastSeenBlock ;;
     syncedTo <- processTransactions fuel from None ;;
     modify (withLastSeenBlock (Some syncedTo)))
    (fun _ => ret tt).

End BitcoinProcessor.

(** ** fetchWithRetry *)

Module Fetch.

(** What the loop does that the outside can see: a call of [nodeFetch] with
    the [timeout] member of its parameters ([None] when the member is not
    set), and a [waitFor] of some milliseconds. *)
Inductive Event :=
| Attempt (timeout : option Z)
| WaitFor (milliseconds : Z).

Section FetchWithRetry.

Variable Response : Type.
Variable requestTimeout : Z.
Variable maxRetries : Z.

(** [nodeFetch]: what the call made at retry count [k] with the given
    [timeout] member resolves or rejects with. *)
Variable nodeFetch : Z -> option Z -> Res Response.

(** The [do ... while (true)] loop, entered with [retryCount]; [fuel]
    bounds the number of passes. *)
Fixpoint fetchLoop (fuel : nat) (setTimeout : bool) (retryCount : Z)
  : Outcome Response * list Event :=
  match fuel with
  | O => (OutOfFuel, [])
  | S fuel' =>
      let timeout := requestTimeout * 2 ^ retryCount in
      let params := if setTimeout then Some timeout else None in
      match nodeFetch retryCount params with
      | Ok response => (Done (Ok response), [Attempt params])
      | Throw error =>
          match error with
          | FetchError type =>
              if retryCount >=? maxRetries
              then (Done (Throw error), [Attempt params])
              else
                match type with
                | RequestTimeout =>
                    let (result, events) :=
                      fetchLoop fuel' setTimeout (retryCount + 1) in
                    (result, Attempt params :: WaitFor timeout :: events)
                | _ => (Done (Throw error), [Attempt params])
                end
          | _ => (Done (Throw error), [Attempt params])
          end
      end
  end.

Definition fetchWithRetry (fuel : nat) (setTimeout : bool)
  : Outcome Response * list Event :=
  fetchLoop fuel setTimeout 0.

(** The [timeout] member of the parameters of the attempt made at retry
    count [k]. *)
Definition timeoutOfAttempt (setTimeout : bool) (k : Z) : option Z :=
  if setTimeout then Some (requestTimeout * 2 ^ k) else None.

(** The events of [count] timed-out attempts starting at retry count [k],
    each followed by its back-off wait. *)
Fixpoint timedOutAttempts (setTimeout : bool) (count : nat) (k : Z)
  : list Event :=
  match count with
  | O => []
  | S count' =>
      Attempt (timeoutOfAttempt setTimeout k)
        :: WaitFor (requestTimeout * 2 ^ k)
        :: timedOutAttempts setTimeout count' (k + 1)
  end.

End FetchWithRetry.

End Fetch.

(** * Further methods and collaborators *)

(** ** BitcoinProcessor: constructor defaults, [time], [writeTransaction] *)





Record IBlockchainTime := mkBlockchainTime {
  blockchain_time : Z;          (* time *)
  blockchain_hash : string      (* hash *)
}.

Section Time.

Variable peer : Peer.

(** The [hash] and [height] members of the answer to [getblock] with
    verbosity 1. *)
Variable getblockHeader : string -> Res IBlockInfo.

Definition time (hash : option string) : M IBlockchainTime :=
  if negb (JS.truthyString hash)
  then
    blockHeight <- getCurrentBlockHeight peer ;;
    hash <- getBlockHash peer blockHeight ;;
    ret (mkBlockchainTime blockHeight hash)
  else
    match hash with
    | Some hash' =>
        response <- await (getblockHeader hash') ;;
        let 'mkBlockInfo responseHeight responseHash := response in
        ret (mkBlockchainTime responseHeight responseHash)
    | None => throw TypeError
    end.

End Time.

Section Initialize.

Variable config : Config.
Variable peer : Peer.
Variable getSample : list SamplerCall -> list string.
Variable quantileAdd :
  Z -> list Z -> QuantileCalculator.t -> Res QuantileCalculator.t.

(** [initialize] from [getLastTransaction] on: the set-up of the store and
    of the wallet comes before, and the first tick of [periodicPoll], which
    is not awaited, after. *)
Definition initializeSync (fuel : nat) : M unit :=
  lastKnownTransaction <- gets (fun s =>
    TransactionStore.getLastTransaction (transactionStore s)) ;;
  match lastKnownTransaction with
  | Some lastKnownTransaction' =>
      modify (withLastSeenBlock
                (Some (mkBlockInfo (transactionTime lastKnownTransaction')
                                   (transactionTimeHash lastKnownTransaction')))) ;;;
      from <- gets lastSeenBlock ;;
      syncedTo <-
        processTransactions config peer getSample quantileAdd fuel from None ;;
      modify (withLastSeenBlock (Some syncedTo))
  | None =>
      syncedTo <-
        processTransactions config peer getSample quantileAdd fuel None None ;;
      modify (withLastSeenBlock (Some syncedTo))
  end.

End Initialize.

Module Wallet.

(** An unspent coin; only [satoshis] is read. *)
Record UnspentOutput := mkCoin { satoshis : Z }.

(** The transaction built by [writeTransaction], as the arguments given to
    bitcore: the coins it spends ([from]), the data of its one output
    ([Script.buildDataOut], with 0 satoshis) and its fee.  The change output
    and the signature depend on the private key and are left out. *)
Record AnchorTransaction := mkAnchorTransaction {
  from : list UnspentOutput;
  dataOut : string;
  dataSatoshis : Z;
  transactionFee : Z
}.

(** What [writeTransaction] does that can be seen from outside: its two
    [console.error] lines with [Error] objects or the low-balance text, and the
    call of [broadcastTransaction]. *)
Inductive Event :=
| LowBalance (daysLeft amount : Z)
| ErrorLogged (e : Exn)
| Broadcast (transaction : AnchorTransaction).

Section WriteTransaction.

Variable sidetreePrefix : string.
Variable bitcoinFee : Z.
Variable lowBalanceNoticeDays : Z.

(** The answers of [getUnspentCoins] and of [broadcastTransaction] (true when
    the peer returned a transaction id). *)
Variable getUnspentCoins : Res (list UnspentOutput).
Variable broadcastTransaction : AnchorTransaction -> Res bool.

(** The message of the second error carries the serialized transaction,
    which is not modelled. *)
Definition writeTransaction (anchorString : string)
  : Res unit * list Event :=
  let sidetreeTransactionString := (sidetreePrefix ++ anchorString)%string in
  match getUnspentCoins with
  | Throw e => (Throw e, [])
  | Ok unspentOutputs =>
      let totalSatoshis :=
        fold_left (fun total coin => total + satoshis coin) unspentOutputs 0 in
      let estimatedBitcoinWritesPerDay := 6 * 24 in
      let lowBalanceAmount :=
        lowBalanceNoticeDays * estimatedBitcoinWritesPerDay * bitcoinFee in
      let warned :=
        if totalSatoshis <? lowBalanceAmount
        then
          let daysLeft :=
            totalSatoshis / (estimatedBitcoinWritesPerDay * bitcoinFee) in
          [LowBalance daysLeft (lowBalanceAmount - totalSatoshis)]
        else [] in
      if totalSatoshis <? bitcoinFee
      then
        let error :=
          Error ("Not enough satoshis to broadcast. Failed to broadcast anchor string "
                 ++ anchorString)%string in
        (Throw error, warned ++ [ErrorLogged error])
      else
        let transaction :=
          mkAnchorTransaction unspentOutputs sidetreeTransactionString 0
                              bitcoinFee in
        match broadcastTransaction transaction with
        | Throw e => (Throw e, warned ++ [Broadcast transaction])
        | Ok true => (Ok tt, warned ++ [Broadcast transaction])
        | Ok false =>
            let error := Error "Could not broadcast transaction" in
            (Throw error,
             warned ++ [Broadcast transaction; ErrorLogged error])
        end
  end.

End WriteTransaction.

End Wallet.

(** ** BatchFile *)

Module BatchFile.

(** A value produced by [JSON.parse]. *)
#[warnings="-register-all"]
Inductive JSON :=
| JNull
| JBool (b : bool)
| JNumber (v : Z)
| JString (s : string)
| JArray (items : list JSON)
| JObject (members : list (string * JSON)).

(** A property name met by [for (let property in value)]: a key of an
    object, or an index of an array or of a string. *)
Inductive PropertyName :=
| Key (name : string)
| Index (i : nat).

Inductive Code :=
| BatchFileUnexpectedProperty
| BatchFileOperationDataPropertyNotArray
| BatchFileOperationDataNotArrayOfStrings
| BatchFileOperationDataSizeExceedsLimit.

(** How [parse] ends: with the model it returns, with a [SidetreeError], with
    a [TypeError] raised by the runtime, or with the failure of the
    decompression or of the JSON parser. *)
Inductive Outcome (Model : Type) :=
| Parsed (model : Model)
| SidetreeError (code : Code)
| RuntimeTypeError
| Failed (e : Exn).
Arguments Parsed {Model} model.
Arguments SidetreeError {Model} code.
Arguments RuntimeTypeError {Model}.
Arguments Failed {Model} e.

(** The enumerable properties of a parsed value, in the order of [for in]
    (the members of an object are taken in the order of the list). *)
Definition propertiesOf (value : JSON) : list PropertyName :=
  match value with
  | JObject members => map (fun member => Key (fst member)) members
  | JArray items => map Index (seq 0 (List.length items))
  | JString s => map Index (seq 0 (String.length s))
  | JNull | JBool _ | JNumber _ => []
  end.

(** [value.name]: [None] is [undefined]; on [null] the access throws. *)
Definition getProperty (value : JSON) (name : string) : Res (option JSON) :=
  match value with
  | JNull => Throw TypeError
  | JObject members =>
      Ok (option_map snd
            (find (fun member => String.eqb (fst member) name) members))
  | _ => Ok None
  end.

(** [allowedProperties.has(property)] for the set [{'operationsData'}]. *)
Definition allowed (property : PropertyName) : bool :=
  match property with
  | Key name => String.eqb name "operationsData"
  | Index _ => false
  end.

Definition isString (value : JSON) : bool :=
  match value with JString _ => true | _ => false end.

(** [Buffer.from(value).length]: the bytes of a string, the elements of an
    array; other values are refused with a [TypeError]. *)
Definition bufferLength (value : JSON) : option nat :=
  match value with
  | JString s => Some (String.length s)
  | JArray items => Some (List.length items)
  | _ => None
  end.

Section Parse.

Variable Buffer : Type.
Variable decompress : Buffer -> Res Buffer.
Variable jsonParse : Buffer -> Res JSON.
Variable maxOperationDataByteSize : nat.

(** The loop over [batchFileModel.operationData]. *)
Fixpoint checkSizes (operationData : list JSON) : option (Outcome JSON) :=
  match operationData with
  | [] => None
  | encodedOperationData :: rest =>
      match bufferLength encodedOperationData with
      | None => Some RuntimeTypeError
      | Some size =>
          if Nat.ltb maxOperationDataByteSize size
          then Some (SidetreeError BatchFileOperationDataSizeExceedsLimit)
          else checkSizes rest
      end
  end.

(** [parse] on the parsed object. *)
Definition validate (batchFileObject : JSON) : Outcome JSON :=
  if negb (forallb allowed (propertiesOf batchFileObject))
  then SidetreeError BatchFileUnexpectedProperty
  else
    match getProperty batchFileObject "operationData" with
    | Throw _ => RuntimeTypeError
    | Ok (Some (JArray operationData)) =>
        match getProperty batchFileObject "operations" with
        | Ok (Some (JArray operations)) =>
            if negb (forallb isString operations)
            then SidetreeError BatchFileOperationDataNotArrayOfStrings
            else
              match checkSizes operationData with
              | Some thrown => thrown
              | None => Parsed batchFileObject
              end
        | _ => RuntimeTypeError
        end
    | Ok _ => SidetreeError BatchFileOperationDataPropertyNotArray
    end.

Definition parse (batchFileBuffer : Buffer) : Outcome JSON :=
  match decompress batchFileBuffer with
  | Throw e => Failed e
  | Ok decompressedBatchFileBuffer =>
      match jsonParse decompressedBatchFileBuffer with
      | Throw e => Failed e
      | Ok batchFileObject => validate batchFileObject
      end
  end.

Variable encode : Buffer -> string.
Variable stringify : JSON -> Buffer.
Variable compress : Buffer -> Res Buffer.

Definition fromOperationBuffers (operationBuffers : list Buffer) : Res Buffer :=
  let operations := map (fun operation => JString (encode operation))
                        operationBuffers in
  let rawData := stringify (JObject [("operations", JArray operations)]) in
  compress rawData.

End Parse.

End BatchFile.

(** ** MockCas *)

Module MockCas.

Section Cas.

Variable Buffer : Type.
Variable emptyBuffer : Buffer.               (* Buffer.from('') *)
Variable multihash : Buffer -> Z -> Buffer.  (* Multihash.hash *)
Variable encode : Buffer -> string.          (* Encoder.encode *)

(** The [Map] from encoded hash to content. *)
Definition Storage := string -> option Buffer.

Definition empty : Storage := fun _ => None.

Definition set (address : string) (content : Buffer) (storage : Storage)
  : Storage :=
  fun key => if String.eqb key address then Some content else storage key.

Definition write (content : Buffer) (storage : Storage) : string * Storage :=
  let hash := multihash content 18 in
  let encodedHash := encode hash in
  (encodedHash, set encodedHash content storage).

Definition read (address : string) (storage : Storage) : Buffer :=
  match storage address with
  | Some content => content
  | None => emptyBuffer
  end.

End Cas.

End MockCas.

(** ** MongoDbStore *)

Module MongoDbStore.

(** The server: for every database name, the names of its collections.  The
    store: its names, and the collection it holds once initialized. *)
Definition Server := list (string * list string).

Record Store := mkStore {
  collectionName : string;
  databaseName : string;
  collection : option string
}.

Inductive Event :=
| CreateCollection (database name : string)
| CreateIndex (name : string).

Definition defaultDatabaseName : string := "sidetree".

Definition construct (collectionName : string) (databaseName : option string)
  : Store :=
  mkStore collectionName
          (if JS.truthyString databaseName
           then match databaseName with
                | Some name => name
                | None => defaultDatabaseName
                end
           else defaultDatabaseName)
          None.

(** [db.collections()] of a database. *)
Definition collectionsOf (server : Server) (database : string) : list string :=
  match find (fun entry => String.eqb (fst entry) database) server with
  | Some entry => snd entry
  | None => []
  end.

(** [db.createCollection(name)]. *)
Fixpoint createCollection (database name : string) (server : Server) : Server :=
  match server with
  | [] => [(database, [name])]
  | entry :: rest =>
      if String.eqb (fst entry) database
      then (fst entry, snd entry ++ [name]) :: rest
      else entry :: createCollection database name rest
  end.

Definition includes (names : list string) (name : string) : bool :=
  existsb (String.eqb name) names.

(** [initialize], once the client is connected: the collection is created,
    with its index, when the database does not list it. *)
Definition initialize (store : Store) (server : Server)
  : Store * Server * list Event :=
  let collectionNames := collectionsOf server (databaseName store) in
  if includes collectionNames (collectionName store)
  then (mkStore (collectionName store) (databaseName store)
                (Some (collectionName store)),
        server, [])
  else (mkStore (collectionName store) (databaseName store)
                (Some (collectionName store)),
        createCollection (databaseName store) (collectionName store) server,
        [CreateCollection (databaseName store) (collectionName store);
         CreateIndex (collectionName store)]).

End MongoDbStore.

(** * Vocabulary of the properties *)

(** The decoded data of an output that qualifies as an anchor: its script
    matches the [OP_RETURN] pattern and the decoded data starts with the
    configured prefix ([isSidetreeTx] in the source). *)
Definition anchorData (config : Config) (output : VOut) : option string :=
  match JS.matchOpReturn (scriptPubKey_asm output) with
  | Some hexData =>
      let data := JS.hexToString (list_ascii_of_string hexData) in
      if JS.startsWith data (sidetreePrefix config) then Some data else None
  | None => None
  end.

Definition isAnchorOutput (config : Config) (output : VOut) : bool :=
  match anchorData config output with
  | Some _ => true
  | None => false
  end.

(** The data-model invariants of the log the rollback relies on: numbers
    strictly increase along the log, and the number of a record is
    [construct(block_height, index)] for some index that is not negative. *)
Definition ascending (log : TransactionStore.t) : Prop :=
  StronglySorted (fun a b => transactionNumber a < transactionNumber b) log.

Definition numbered (r : TransactionModel) : Prop :=
  TransactionNumber.construct (transactionTime r) 0 <= transactionNumber r.

(** The page a successful [transactions] query returns. *)
Definition pageAfter (config : Config) (since : option Z) (s : State)
  : TransactionsResponse :=
  let records :=
    TransactionStore.getTransactionsLaterThan since (pageSize config)
      (transactionStore s) in
  mkResponse (Z.of_nat (List.length records) =? pageSize config) records.

(** The message of the exception raised on a second anchor output. *)
Definition moreThanOneAnchor : Exn :=
  Error "The transaction has more then one sidetree anchor strings.".

(** Following the spec's words: [batch_boundary_ceiling(block)], the block
    rounded up to the start of the next batch,
    [ceil(block / batch_size) * batch_size]. *)
Definition batch_boundary_ceiling (config : Config) (block : Z) : Z :=
  (block + batchSizeInBlocks config - 1) / batchSizeInBlocks config
  * batchSizeInBlocks config.

(** The heights [start], [start + 1], ... ([count] of them). *)
Fixpoint heightsFrom (count : nat) (start : Z) : list Z :=
  match count with
  | O => []
  | S count' => start :: heightsFrom count' (start + 1)
  end.

(** Computations that write nothing to the console and hold no loop that can
    be cut short: they return, with a value or with an exception. *)
Definition quiet {A} (c : M A) : Prop :=
  forall s, console (snd (c s)) = console s /\ fst (c s) <> OutOfFuel.

(** * Scenarios

    Concrete configurations, peers and states on which the properties below
    are exercised. *)

Module Scenario.

(** [batch_size = 4], page size 2, no historical offset, scale 1. *)
Definition config4 : Config :=
  mkConfig "sidetree:" 0 2 0 1 4 10.

Definition noBlock : Res BlockData := Throw (Error "Block not found").
Definition noTransaction : Res RawTransaction :=
  Throw (Error "No such transaction").

(** A sampler that keeps everything offered since the last [Clear]. *)
Fixpoint keepAll (calls : list SamplerCall) (kept : list string)
  : list string :=
  match calls with
  | [] => kept
  | AddElement element :: rest => keepAll rest (kept ++ [element])
  | Clear :: rest => keepAll rest []
  | ResetPsuedoRandomSeed _ :: rest => keepAll rest kept
  end.

Definition sampleAll (calls : list SamplerCall) : list string :=
  keepAll calls [].

(** A quantile calculator that stores the largest fee of the batch. *)
Definition addMaximum (batchId : Z) (fees : list Z)
  (snapshots : QuantileCalculator.t) : Res QuantileCalculator.t :=
  Ok (snapshots
        ++ [QuantileCalculator.mkSnapshot batchId (fold_left Z.max fees 0) []]).

Definition emptyState : State := mkState [] [] [] None [].

(** ** Fork spanning a batch (scenario E)

    Blocks 0 to 7 were processed; the peer has since rewritten blocks 6 and
    7.  The log holds anchors in blocks 5, 6 and 7, and the snapshots of
    batches 0 and 1 are stored. *)
Definition forkedHash (height : Z) : Res string :=
  Ok (match height with
      | 5 => "hash5"
      | 6 => "hash6b"
      | 7 => "hash7b"
      | _ => "hash"
      end).

Definition forkedPeer : Peer :=
  mkPeer (Ok 7) forkedHash (fun _ => noBlock) (fun _ => noTransaction).

Definition anchor5 : TransactionModel :=
  mkTransaction (TransactionNumber.construct 5 2) 5 "hash5" "abc" 100.
Definition anchor6 : TransactionModel :=
  mkTransaction (TransactionNumber.construct 6 1) 6 "hash6a" "def" 100.
Definition anchor7 : TransactionModel :=
  mkTransaction (TransactionNumber.construct 7 0) 7 "hash7a" "ghi" 100.

Definition snapshot0 := QuantileCalculator.mkSnapshot 0 20 [].
Definition snapshot1 := QuantileCalculator.mkSnapshot 1 100 [].

Definition forkedState : State :=
  mkState [anchor5; anchor6; anchor7] [] [snapshot0; snapshot1]
          (Some (mkBlockInfo 7 "hash7a")) [].

(** ** A log of one anchor, first in its block, on a rewritten block *)
Definition loneState : State :=
  mkState [anchor7] [] [] (Some (mkBlockInfo 7 "hash7a")) [].

(** ** A block with a double anchor (scenario C)

    Block 101 holds, in this order: an ordinary payment, a transaction with
    two anchor outputs, a transaction without outputs, and a transaction
    with one anchor output. *)
Definition payToKey : string :=
  "OP_DUP OP_HASH160 ab12 OP_EQUALVERIFY OP_CHECKSIG".
Definition anchorAbc : string := "OP_RETURN 73696465747265653a616263".
Definition anchorDef : string := "OP_RETURN 73696465747265653a646566".
Definition anchorGhi : string := "OP_RETURN 73696465747265653a676869".

Definition payment : BlockTransaction :=
  mkBlockTx "t0" (Some [mkVIn "p0" 0]) (Some [mkVOut (4 # 10) 0 payToKey]).
Definition doubleAnchor : BlockTransaction :=
  mkBlockTx "t1" (Some [mkVIn "p0" 1])
    (Some [mkVOut 0 0 anchorAbc; mkVOut (1 # 1000) 1 payToKey;
           mkVOut 0 2 anchorDef]).
Definition noOutputs : BlockTransaction :=
  mkBlockTx "t2" None None.
Definition singleAnchor : BlockTransaction :=
  mkBlockTx "t3" (Some [mkVIn "p0" 2])
    (Some [mkVOut (9 # 10000) 0 payToKey; mkVOut 0 1 anchorGhi]).

Definition block101 : BlockData :=
  mkBlock "hash101" [payment; doubleAnchor; noOutputs; singleAnchor].

Definition anchorPeer : Peer :=
  mkPeer (Ok 101)
    (fun height => if height =? 101 then Ok "hash101" else Ok "hash")
    (fun hash => if String.eqb hash "hash101" then Ok block101 else noBlock)
    (fun txid =>
       if String.eqb txid "p0"
       then Ok (mkRawTx []
                  [mkVOut (5 # 10) 0 payToKey; mkVOut (2 # 1000) 1 payToKey;
                   mkVOut (1 # 1000) 2 payToKey])
       else if String.eqb txid "t3"
       then Ok (mkRawTx [mkVIn "p0" 2]
                  [mkVOut (9 # 10000) 0 payToKey; mkVOut 0 1 anchorGhi])
       else noTransaction).

(** ** A stored quantile of zero

    Batch 0 was sampled and its quantile came out as 0 satoshi. *)
Definition zeroQuantileState : State :=
  mkState [] [] [QuantileCalculator.mkSnapshot 0 0 []] None [].

(** ** A tick on an unchanged chain

    The last seen block is block 10 and still has its hash; the tip is
    block 12; the blocks hold no transaction. *)
Definition quietHash (height : Z) : string :=
  match height with
  | 10 => "hash10"
  | 11 => "hash11"
  | 12 => "hash12"
  | _ => "hash"
  end.

Definition quietPeer : Peer :=
  mkPeer (Ok 12)
    (fun height => Ok (quietHash height))
    (fun hash => Ok (mkBlock hash []))
    (fun _ => noTransaction).

Definition quietState : State :=
  mkState [] [] [] (Some (mkBlockInfo 10 "hash10")) [].

(** ** A peer that answers the third attempt

    The attempts at retry counts 0 and 1 time out. *)
Definition slowFetch (retryCount : Z) (timeout : option Z) : Res string :=
  match retryCount with
  | 0 | 1 => Throw (FetchError RequestTimeout)
  | _ => Ok "response"
  end.

(** A fetch that resolves when it is given no timeout and times out
    otherwise. *)
Definition patientFetch (retryCount : Z) (timeout : option Z) : Res string :=
  match timeout with
  | None => Ok "response"
  | Some _ => Throw (FetchError RequestTimeout)
  end.

(** ** Happy-path sync (scenario A)

    Genesis is block 100 and the peer has blocks 100 to 103, with an anchor
    in block 101 at index 2 and one in block 103 at index 0. *)
Definition configA : Config :=
  mkConfig "sidetree:" 100 2 0 1 4 10.

Definition blockA (height : Z) : list BlockTransaction :=
  match height with
  | 101 =>
      [mkBlockTx "pay1" (Some [mkVIn "funds" 0])
         (Some [mkVOut (4 # 10) 0 payToKey]);
       mkBlockTx "pay2" (Some [mkVIn "funds" 1])
         (Some [mkVOut (1 # 1000) 0 payToKey]);
       mkBlockTx "anchor1" (Some [mkVIn "funds" 2])
         (Some [mkVOut (9 # 10000) 0 payToKey; mkVOut 0 1 anchorAbc])]
  | 103 =>
      [mkBlockTx "anchor2" (Some [mkVIn "funds" 2])
         (Some [mkVOut 0 0 anchorDef])]
  | _ => []
  end.

Definition hashA (height : Z) : string :=
  match height with
  | 100 => "hash100"
  | 101 => "hash101"
  | 102 => "hash102"
  | 103 => "hash103"
  | _ => "hash"
  end.

Definition heightA (hash : string) : Z :=
  if String.eqb hash "hash100" then 100
  else if String.eqb hash "hash101" then 101
  else if String.eqb hash "hash102" then 102
  else if String.eqb hash "hash103" then 103
  else 0.

Definition rawA (txid : string) : Res RawTransaction :=
  if String.eqb txid "funds"
  then Ok (mkRawTx []
             [mkVOut (5 # 10) 0 payToKey; mkVOut (2 # 1000) 1 payToKey;
              mkVOut (1 # 1000) 2 payToKey])
  else if String.eqb txid "pay1"
  then Ok (mkRawTx [mkVIn "funds" 0] [mkVOut (4 # 10) 0 payToKey])
  else if String.eqb txid "pay2"
  then Ok (mkRawTx [mkVIn "funds" 1] [mkVOut (1 # 1000) 0 payToKey])
  else if String.eqb txid "anchor1"
  then Ok (mkRawTx [mkVIn "funds" 2]
             [mkVOut (9 # 10000) 0 payToKey; mkVOut 0 1 anchorAbc])
  else if String.eqb txid "anchor2"
  then Ok (mkRawTx [mkVIn "funds" 2] [mkVOut 0 0 anchorDef])
  else noTransaction.

Definition peerA : Peer :=
  mkPeer (Ok 103)
    (fun height => Ok (hashA height))
    (fun hash => Ok (mkBlock hash (blockA (heightA hash))))
    rawA.

(** ** Pagination (scenario F)

    Page size 2 and a log of five records, on a chain that agrees with it. *)
Definition record (block index : Z) : TransactionModel :=
  mkTransaction (TransactionNumber.construct block index) block "hash" "abc"
                100.

Definition fiveRecords : State :=
  mkState [record 1 0; record 2 3; record 2 4; record 3 1; record 4 0]
          [] [] None [].

Definition steadyPeer : Peer :=
  mkPeer (Ok 4) (fun _ => Ok "hash") (fun _ => noBlock)
         (fun _ => noTransaction).

End Scenario.

(** * Vocabulary of the further properties *)

(** The peer has the hash of the record at the height of the record; the
    peer has another hash there. *)
Definition agrees (peer : Peer) (r : TransactionModel) : Prop :=
  getblockhash peer (transactionTime r) = Ok (transactionTimeHash r).

Definition disagrees (peer : Peer) (r : TransactionModel) : Prop :=
  exists responseData,
    getblockhash peer (transactionTime r) = Ok responseData
    /\ responseData <> transactionTimeHash r.

(** A computation all of whose runs take the state [s] to a state related to
    [s] by [R], whatever the outcome. *)
Definition within {A} (R : State -> State -> Prop) (c : M A) : Prop :=
  forall s, R s (snd (c s)).

(** The relation of two states that agree on a member. *)
Definition unchanged {X} (member : State -> X) : State -> State -> Prop :=
  fun s s' => member s' = member s.

(** The relation of a state to one whose log and snapshots hold nothing new,
    the rest being the same. *)
Definition onlyDeleted (s s' : State) : Prop :=
  incl (transactionStore s') (transactionStore s)
  /\ incl (quantileCalculator s') (quantileCalculator s)
  /\ lastSeenBlock s' = lastSeenBlock s
  /\ console s' = console s.

(** [processTransactions] once its start height and its end height are
    known. *)
Definition syncBetween (config : Config) (peer : Peer)
  (getSample : list SamplerCall -> list string)
  (quantileAdd : Z -> list Z -> QuantileCalculator.t -> Res QuantileCalculator.t)
  (start tip : Z) : M IBlockInfo :=
  if (start <? genesisBlockNumber config) || (tip <? genesisBlockNumber config)
  then throw (Error "Cannot process Transactions before genesis")
  else
    processBlockRange config peer getSample quantileAdd
      (Z.to_nat (tip - start)) start ;;;
    hash <- processBlock config peer getSample quantileAdd tip ;;
    ret (mkBlockInfo tip hash).



(** The number of calls of [nodeFetch] among the events of a fetch, and the
    milliseconds spent in [waitFor]. *)
Definition attemptsOf (events : list Fetch.Event) : nat :=
  List.length
    (filter (fun event =>
               match event with
               | Fetch.Attempt _ => true
               | Fetch.WaitFor _ => false
               end) events).

Fixpoint totalWait (events : list Fetch.Event) : Z :=
  match events with
  | [] => 0
  | Fetch.Attempt _ :: rest => totalWait rest
  | Fetch.WaitFor milliseconds :: rest => milliseconds + totalWait rest
  end.

(** The balance of a wallet: the sum of the [satoshis] of its coins. *)
Definition totalSatoshis (coins : list Wallet.UnspentOutput) : Z :=
  fold_left (fun total coin => total + Wallet.satoshis coin) coins 0.

(** A computation that reads the peer only: its result does not depend on
    the state, which it leaves as it was. *)
Definition stateless {A} (c : M A) : Prop :=
  exists result, forall s, c s = (Done result, s).

Module MoreScenarios.

(** The header of a block of the quiet chain, by hash. *)
Definition quietHeader (hash : string) : Res IBlockInfo :=
  if String.eqb hash "hash11" then Ok (mkBlockInfo 11 "hash11")
  else Throw (Error "Block not found").

End MoreScenarios.

(** * Properties *)

(** ** The monad *)

Lemma bind_ret_left {A B} (a : A) (k : A -> M B) (s : State) :
  (x <- ret a ;; k x) s = k a s.
Proof. reflexivity. Qed.

Lemma bind_assoc {A B C} (c : M A) (k : A -> M B) (k' : B -> M C) (s : State) :
  (y <- (x <- c ;; k x) ;; k' y) s = (x <- c ;; y <- k x ;; k' y) s.
Proof.
  unfold bind. destruct (c s) as [[[a | e] | ] s1]; reflexivity.
Qed.

Lemma bind_throw {A B} (c : M A) (k : A -> M B) (s s1 : State) (e : Exn) :
  c s = (Done (Throw e), s1) -> (x <- c ;; k x) s = (Done (Throw e), s1).
Proof. intros H. unfold bind. now rewrite H. Qed.

Lemma bind_ext {A B} (c : M A) (k k' : A -> M B) (s : State) :
  (forall a s1, k a s1 = k' a s1) ->
  (x <- c ;; k x) s = (x <- c ;; k' x) s.
Proof.
  intros H. unfold bind. destruct (c s) as [[[a | e] | ] s1]; auto.
Qed.

Lemma tryCatch_throw {A} (c : M A) (h : Exn -> M A) (s s1 : State) (e : Exn) :
  c s = (Done (Throw e), s1) -> tryCatch c h s = h e s1.
Proof. intros H. unfold tryCatch. now rewrite H. Qed.

(** ** Anchor extraction *)

Section AnchorExtraction.

Variable config : Config.
Variable peer : Peer.

Let anchors (outputs : list VOut) : nat :=
  List.length (filter (isAnchorOutput config) outputs).

(** The loop over the outputs, one output at a time, in terms of
    [anchorData]. *)
Lemma scanVOuts_cons output rest transactionIndex block blockHash found :
  scanVOuts config (output :: rest) transactionIndex block blockHash found
  = match anchorData config output with
    | None => scanVOuts config rest transactionIndex block blockHash found
    | Some data =>
        match found with
        | Some _ => throw moreThanOneAnchor
        | None =>
            scanVOuts config rest transactionIndex block blockHash
              (Some (mkTransaction
                       (TransactionNumber.construct block transactionIndex)
                       block blockHash
                       (JS.slice data (String.length (sidetreePrefix config)))
                       0))
        end
    end.
Proof.
  cbn [scanVOuts]. unfold anchorData.
  destruct (JS.matchOpReturn (scriptPubKey_asm output)) as [hexData | ];
    [ | reflexivity].
  cbv zeta.
  destruct (JS.startsWith _ (sidetreePrefix config)), found; reflexivity.
Qed.

Lemma anchors_cons output rest :
  anchors (output :: rest)
  = ((if isAnchorOutput config output then 1 else 0) + anchors rest)%nat.
Proof.
  unfold anchors. cbn [filter].
  destruct (isAnchorOutput config output); reflexivity.
Qed.

(** Once an anchor has been found, one more anchor output makes the scan
    throw, with the state as it was. *)
Lemma scanVOuts_second_anchor outputs :
  forall transactionIndex block blockHash found s,
    (1 <= anchors outputs)%nat ->
    scanVOuts config outputs transactionIndex block blockHash (Some found) s
    = (Done (Throw moreThanOneAnchor), s).
Proof.
  induction outputs as [ | output rest IH]; intros i b h found s Hcount.
  - cbn in Hcount. lia.
  - rewrite scanVOuts_cons. rewrite anchors_cons in Hcount.
    unfold isAnchorOutput in Hcount.
    destruct (anchorData config output) as [data | ].
    + reflexivity.
    + apply IH. cbn in Hcount. exact Hcount.
Qed.

Lemma scanVOuts_two_anchors outputs :
  forall transactionIndex block blockHash s,
    (2 <= anchors outputs)%nat ->
    scanVOuts config outputs transactionIndex block blockHash None s
    = (Done (Throw moreThanOneAnchor), s).
Proof.
  induction outputs as [ | output rest IH]; intros i b h s Hcount.
  - cbn in Hcount. lia.
  - rewrite scanVOuts_cons. rewrite anchors_cons in Hcount.
    unfold isAnchorOutput in Hcount.
    destruct (anchorData config output) as [data | ].
    + apply scanVOuts_second_anchor. lia.
    + apply IH. cbn in Hcount. exact Hcount.
Qed.

(** The loop over the transactions of a block splits at any point. *)
Lemma processBlockTransactions_app before :
  forall after transactionIndex block blockHash s,
    processBlockTransactions config peer (before ++ after)
      transactionIndex block blockHash s
    = (processBlockTransactions config peer before
         transactionIndex block blockHash ;;;
       processBlockTransactions config peer after
         (transactionIndex + Z.of_nat (List.length before)) block blockHash) s.
Proof.
  induction before as [ | transaction rest IH]; intros after i b h s.
  - cbn [app processBlockTransactions List.length Z.of_nat].
    rewrite bind_ret_left. now rewrite Z.add_0_r.
  - cbn [app processBlockTransactions]. rewrite bind_assoc.
    apply bind_ext. intros _ s1. rewrite IH. cbn [List.length].
    now replace (i + 1 + Z.of_nat (List.length rest))
      with (i + Z.of_nat (S (List.length rest))) by lia.
Qed.

(** A transaction whose step leaves the state alone drops out of the
    loop; the transactions after it keep their indices. *)
Lemma processBlockTransactions_skip before transaction after :
  forall transactionIndex block blockHash,
    (forall i s,
        processBlockTransaction config peer transaction i block blockHash s
        = (Done (Ok tt), s)) ->
    forall s,
      processBlockTransactions config peer (before ++ transaction :: after)
        transactionIndex block blockHash s
      = (processBlockTransactions config peer before
           transactionIndex block blockHash ;;;
         processBlockTransactions config peer after
           (transactionIndex + Z.of_nat (List.length before) + 1)
           block blockHash) s.
Proof.
  intros i b h Hskip s. rewrite processBlockTransactions_app.
  apply bind_ext. intros _ s1.
  cbn [processBlockTransactions]. unfold bind. now rewrite Hskip.
Qed.

Lemma double_anchor_step transaction outputs :
  vout transaction = Some outputs ->
  (2 <= anchors outputs)%nat ->
  forall transactionIndex block blockHash s,
    processBlockTransaction config peer transaction
      transactionIndex block blockHash s
    = (Done (Ok tt), s).
Proof.
  intros Hvout Hcount i b h s. unfold processBlockTransaction.
  rewrite Hvout. erewrite tryCatch_throw; [reflexivity | ].
  apply bind_throw.
  unfold addValidSidetreeTransactionsFromVOutsToTransactionStore.
  apply bind_throw. now apply scanVOuts_two_anchors.
Qed.

End AnchorExtraction.

(** C7. A transaction with two or more anchor outputs (outputs whose script
    is an [OP_RETURN] whose decoded data starts with the prefix) contributes
    nothing: its step in the loop of [processBlock] ends without an error and
    leaves the whole state, so the transaction log and the calls received by
    the sampler, as it was, whatever its place in the block; the loop over a
    block that contains it is the loop
    over the transactions before it followed by the loop over the
    transactions after it, these keeping their indices in the block. *)
Theorem double_anchor_transaction_is_skipped :
  forall config peer transaction outputs before after
         transactionIndex block blockHash s,
    vout transaction = Some outputs ->
    (2 <= List.length (filter (isAnchorOutput config) outputs))%nat ->
    processBlockTransaction config peer transaction
      (transactionIndex + Z.of_nat (List.length before)) block blockHash s
    = (Done (Ok tt), s)
    /\ processBlockTransactions config peer (before ++ transaction :: after)
         transactionIndex block blockHash s
       = (processBlockTransactions config peer before
            transactionIndex block blockHash ;;;
          processBlockTransactions config peer after
            (transactionIndex + Z.of_nat (List.length before) + 1)
            block blockHash) s.
Proof.
  intros config peer transaction outputs before after i b h s Hvout Hcount.
  split.
  - now apply double_anchor_step with (outputs := outputs).
  - apply processBlockTransactions_skip. intros i' s'.
    now apply double_anchor_step with (outputs := outputs).
Qed.

Lemma double_anchor_transaction_is_skipped_witness :
  processBlockTransaction Scenario.config4 Scenario.anchorPeer
    Scenario.doubleAnchor (0 + Z.of_nat (List.length [Scenario.payment]))
    101 "hash101" Scenario.emptyState
  = (Done (Ok tt), Scenario.emptyState)
  /\ processBlockTransactions Scenario.config4 Scenario.anchorPeer
       ([Scenario.payment] ++ Scenario.doubleAnchor
          :: [Scenario.noOutputs; Scenario.singleAnchor])
       0 101 "hash101" Scenario.emptyState
     = (processBlockTransactions Scenario.config4 Scenario.anchorPeer
          [Scenario.payment] 0 101 "hash101" ;;;
        processBlockTransactions Scenario.config4 Scenario.anchorPeer
          [Scenario.noOutputs; Scenario.singleAnchor]
          (0 + Z.of_nat (List.length [Scenario.payment]) + 1) 101 "hash101")
       Scenario.emptyState.
Proof.
  apply (@double_anchor_transaction_is_skipped Scenario.config4
           Scenario.anchorPeer Scenario.doubleAnchor
           [mkVOut 0 0 Scenario.anchorAbc;
            mkVOut (1 # 1000) 1 Scenario.payToKey;
            mkVOut 0 2 Scenario.anchorDef]).
  - reflexivity.
  - vm_compute. lia.
Defined.

(** Scenario C run through [processBlock]: of the four transactions of block
    101 only the single anchor reaches the log and only the payment is
    offered to the sampler. *)
Example processBlock_scenario_C :
  processBlock Scenario.config4 Scenario.anchorPeer Scenario.sampleAll
    Scenario.addMaximum 101 Scenario.emptyState
  = (Done (Ok "hash101"),
     mkState
       [mkTransaction (TransactionNumber.construct 101 3) 101 "hash101" "ghi"
                      10000]
       [ResetPsuedoRandomSeed "hash101"; AddElement "t0"]
       [] None [ProcessingBlock 101]).
Proof. vm_compute. reflexivity. Qed.

(** C10. A transaction object without a [vout] member is skipped without an
    error: its step in the loop of [processBlock] returns normally and leaves
    the whole state, so the transaction log and the calls received by the
    sampler, as it was; the loop over a block that contains it goes on with
    the transactions after it, which keep their indices. *)
Theorem transaction_without_vout_is_skipped :
  forall config peer transactionId inputs before after
         transactionIndex block blockHash s,
    processBlockTransaction config peer (mkBlockTx transactionId inputs None)
      (transactionIndex + Z.of_nat (List.length before)) block blockHash s
    = (Done (Ok tt), s)
    /\ processBlockTransactions config peer
         (before ++ mkBlockTx transactionId inputs None :: after)
         transactionIndex block blockHash s
       = (processBlockTransactions config peer before
            transactionIndex block blockHash ;;;
          processBlockTransactions config peer after
            (transactionIndex + Z.of_nat (List.length before) + 1)
            block blockHash) s.
Proof.
  intros config peer id inputs before after i b h s. split.
  - reflexivity.
  - apply processBlockTransactions_skip. reflexivity.
Qed.

(** ** Queries *)

Lemma verifyBlock_state peer height hash s :
  snd (verifyBlock peer height hash s) = s.
Proof.
  unfold verifyBlock, getBlockHash, await, bind, ret.
  destruct (getblockhash peer height) as [answer | e]; reflexivity.
Qed.

Lemma map_copy_transactions (l : list TransactionModel) :
  map (fun transaction =>
         mkTransaction (transactionNumber transaction)
                       (transactionTime transaction)
                       (transactionTimeHash transaction)
                       (anchorString transaction)
                       (feePaid transaction)) l = l.
Proof.
  induction l as [ | [number time timeHash anchor paid] rest IH];
    cbn; [ | rewrite IH]; reflexivity.
Qed.

Lemma In_firstn {A} (k : nat) (l : list A) (x : A) :
  In x (firstn k l) -> In x l.
Proof.
  intros H. rewrite <- (firstn_skipn k l). apply in_or_app. now left.
Qed.

(** The whole behaviour of [transactions]: which exception it throws, if
    any, and the page it returns otherwise.  The parameters are tested by
    truthiness, so [since = 0] and [hash = ""] count as absent in the
    checks; the page is read with [since] as given. *)
Lemma transactions_outcome config peer since hash s :
  transactions config peer since hash s
  = (Done
       (if xorb (JS.truthyNumber since) (JS.truthyString hash)
        then Throw (RequestError BadRequest None)
        else
          match since, hash with
          | Some since', Some hash' =>
              if JS.truthyNumber since && JS.truthyString hash
              then
                match getblockhash peer
                        (TransactionNumber.getBlockNumber since') with
                | Ok responseData =>
                    if String.eqb hash' responseData
                    then Ok (pageAfter config since s)
                    else Throw (RequestError BadRequest
                                  (Some InvalidTransactionNumberOrTimeHash))
                | Throw e => Throw e
                end
              else Ok (pageAfter config since s)
          | _, _ => Ok (pageAfter config since s)
          end),
     s).
Proof.
  unfold transactions.
  assert (Hpage :
    forall s0 : State,
      (ret tt ;;;
       (transactions <- gets (fun s1 =>
          TransactionStore.getTransactionsLaterThan since (pageSize config)
            (transactionStore s1)) ;;
        let transactions :=
          map (fun transaction =>
                 mkTransaction (transactionNumber transaction)
                               (transactionTime transaction)
                               (transactionTimeHash transaction)
                               (anchorString transaction)
                               (feePaid transaction))
              transactions in
        ret (mkResponse
               (Z.of_nat (List.length transactions) =? pageSize config)
               transactions))) s0
      = (Done (Ok (pageAfter config since s0)), s0)).
  { intros s0. unfold bind, ret, gets, pageAfter. cbv zeta.
    now rewrite map_copy_transactions. }
  destruct since as [since' | ], hash as [hash' | ];
    cbn [JS.truthyNumber JS.truthyString];
    try destruct (since' =? 0); try destruct (String.eqb hash' "");
    cbn [negb andb orb xorb]; try apply Hpage; try reflexivity.
  rewrite bind_assoc. unfold verifyBlock, getBlockHash, await.
  unfold bind at 1 2.
  destruct (getblockhash peer (TransactionNumber.getBlockNumber since'))
    as [responseData | e]; [ | reflexivity].
  cbn [ret]. destruct (String.eqb hash' responseData); cbn [negb].
  - apply Hpage.
  - reflexivity.
Qed.

(** What [transactions] answers once its checks have passed. *)
Lemma transactions_page config peer since hash s :
  forall response s',
    transactions config peer since hash s = (Done (Ok response), s') ->
    s' = s /\ response = pageAfter config since s.
Proof.
  intros response s'. rewrite transactions_outcome. intros H.
  injection H as Hresult <-. split; [reflexivity | ].
  destruct (xorb _ _); [discriminate | ].
  destruct since as [since' | ], hash as [hash' | ];
    try (now injection Hresult).
  destruct (_ && _); [ | now injection Hresult].
  destruct (getblockhash peer _) as [responseData | e]; [ | discriminate].
  destruct (String.eqb hash' responseData); [ | discriminate].
  now injection Hresult.
Qed.

(** C8. A [transactions] query that succeeds returns the records of the log
    whose number is strictly greater than [since] (all of them when [since]
    is absent), in log order and cut after [pageSize] records, and
    [moreTransactions] is true exactly when the number of records returned
    equals [pageSize]; the query leaves the state as it was. *)
Theorem transactions_returns_one_page :
  forall config peer since hash s response s',
    transactions config peer since hash s = (Done (Ok response), s') ->
    transactions_of response
    = firstn (Z.to_nat (pageSize config))
        (match since with
         | None => transactionStore s
         | Some number =>
             filter (fun r => number <? transactionNumber r)
                    (transactionStore s)
         end)
    /\ (forall r, In r (transactions_of response) ->
          In r (transactionStore s)
          /\ match since with
             | Some number => number < transactionNumber r
             | None => True
             end)
    /\ (List.length (transactions_of response)
        <= Z.to_nat (pageSize config))%nat
    /\ (moreTransactions response = true
        <-> Z.of_nat (List.length (transactions_of response))
            = pageSize config)
    /\ s' = s.
Proof.
  intros config peer since hash s response s' H.
  apply transactions_page in H. destruct H as [-> ->].
  unfold pageAfter. cbn [transactions_of moreTransactions].
  unfold TransactionStore.getTransactionsLaterThan.
  repeat split.
  - apply In_firstn in H. destruct since as [number | ]; [ | exact H].
    apply filter_In in H. tauto.
  - apply In_firstn in H. destruct since as [number | ]; [ | exact I].
    apply filter_In in H. destruct H as [_ H]. lia.
  - apply firstn_le_length.
  - apply Z.eqb_eq.
  - apply Z.eqb_eq.
Qed.

Lemma transactions_returns_one_page_witness :
  transactions_of
    (mkResponse true [Scenario.anchor6; Scenario.anchor7])
  = firstn (Z.to_nat (pageSize Scenario.config4))
      (filter (fun r => transactionNumber Scenario.anchor5
                        <? transactionNumber r)
              (transactionStore Scenario.forkedState))
  /\ (forall r,
         In r (transactions_of
                 (mkResponse true [Scenario.anchor6; Scenario.anchor7])) ->
         In r (transactionStore Scenario.forkedState)
         /\ transactionNumber Scenario.anchor5 < transactionNumber r)
  /\ (List.length
        (transactions_of
           (mkResponse true [Scenario.anchor6; Scenario.anchor7]))
      <= Z.to_nat (pageSize Scenario.config4))%nat
  /\ (moreTransactions
        (mkResponse true [Scenario.anchor6; Scenario.anchor7]) = true
      <-> Z.of_nat
            (List.length
               (transactions_of
                  (mkResponse true [Scenario.anchor6; Scenario.anchor7])))
          = pageSize Scenario.config4)
  /\ Scenario.forkedState = Scenario.forkedState.
Proof.
  apply (@transactions_returns_one_page Scenario.config4 Scenario.forkedPeer
           (Some (transactionNumber Scenario.anchor5)) (Some "hash5")
           Scenario.forkedState).
  vm_compute. reflexivity.
Defined.

(** C5, at [since = 0].  Transaction number 0 is falsy, so the checks of
    [transactions] take it for an absent [since]: with 0 and the hash the
    peer has for block 0 the query is rejected with [BadRequest] although
    both parameters are given and agree with the chain, and with 0 alone the
    query is answered although only one parameter is given. *)
Theorem transactions_since_zero_is_taken_for_absent :
  verifyBlock Scenario.forkedPeer (TransactionNumber.getBlockNumber 0) "hash"
    Scenario.forkedState
  = (Done (Ok true), Scenario.forkedState)
  /\ transactions Scenario.config4 Scenario.forkedPeer (Some 0) (Some "hash")
       Scenario.forkedState
     = (Done (Throw (RequestError BadRequest None)), Scenario.forkedState)
  /\ transactions Scenario.config4 Scenario.forkedPeer (Some 0) None
       Scenario.forkedState
     = (Done (Ok (mkResponse true [Scenario.anchor5; Scenario.anchor6])),
        Scenario.forkedState).
Proof. repeat split. Qed.


(** Scenario F: page size 2 and five records. *)
Example transactions_scenario_F :
  fst (transactions Scenario.config4 Scenario.steadyPeer None None
         Scenario.fiveRecords)
  = Done (Ok (mkResponse true [Scenario.record 1 0; Scenario.record 2 3]))
  /\ fst (transactions Scenario.config4 Scenario.steadyPeer
            (Some (transactionNumber (Scenario.record 2 3))) (Some "hash")
            Scenario.fiveRecords)
     = Done (Ok (mkResponse true [Scenario.record 2 4; Scenario.record 3 1]))
  /\ fst (transactions Scenario.config4 Scenario.steadyPeer
            (Some (transactionNumber (Scenario.record 3 1))) (Some "hash")
            Scenario.fiveRecords)
     = Done (Ok (mkResponse false [Scenario.record 4 0])).
Proof. repeat split. Qed.

(** C6, at a stored quantile of 0.  The quantile value 0 is falsy, so [fee]
    answers [undefined] for a batch whose snapshot exists and holds 0. *)
Theorem fee_of_zero_quantile_is_undefined :
  QuantileCalculator.getQuantile 0
    (quantileCalculator Scenario.zeroQuantileState) = Some 0
  /\ fee Scenario.config4 2 Scenario.zeroQuantileState
     = (Done (Ok None), Scenario.zeroQuantileState).
Proof. split; reflexivity. Qed.

(** ** Rollback *)

Lemma firstValidTransaction_state peer transactions :
  forall s, snd (firstValidTransaction peer transactions s) = s.
Proof.
  induction transactions as [ | transaction rest IH]; intros s.
  - reflexivity.
  - cbn [firstValidTransaction]. unfold bind.
    pose proof (verifyBlock_state peer (transactionTime transaction)
                  (transactionTimeHash transaction) s) as Hs.
    destruct (verifyBlock peer _ _ s) as [[[valid | e] | ] s1];
      cbn in Hs; subst s1; try reflexivity.
    destruct valid; [reflexivity | apply IH].
Qed.

Lemma firstValidTransaction_result peer transactions s result :
  fst (firstValidTransaction peer transactions s) = result ->
  firstValidTransaction peer transactions s = (result, s).
Proof.
  intros <-. rewrite <- (firstValidTransaction_state peer transactions s) at 3.
  now destruct (firstValidTransaction peer transactions s).
Qed.

(** The largest multiple of the batch size that is not above [block]. *)
Lemma roundToBatchBoundary_floor config block :
  0 < batchSizeInBlocks config ->
  roundToBatchBoundary config block <= block
  /\ block < roundToBatchBoundary config block + batchSizeInBlocks config
  /\ roundToBatchBoundary config block mod batchSizeInBlocks config = 0.
Proof.
  intros Hsize. unfold roundToBatchBoundary. cbv zeta.
  pose proof (Z.div_mod block (batchSizeInBlocks config)) as Hdiv.
  pose proof (Z.mod_pos_bound block (batchSizeInBlocks config) Hsize) as Hmod.
  repeat split.
  - lia.
  - lia.
  - apply Z.mod_mul. lia.
Qed.

(** What a pass of the rollback loop does once a probe has survived. *)
Lemma revertIteration_survivor config peer s survivor :
  fst (firstValidTransaction peer
         (TransactionStore.getExponentiallySpacedTransactions
            (transactionStore s)) s)
  = Done (Ok (Some survivor)) ->
  let revertToBlockNumber :=
    roundToBatchBoundary config (transactionTime survivor + 1) in
  revertIteration config peer s
  = (Done (Ok (inl revertToBlockNumber)),
     withQuantile
       (QuantileCalculator.removeBatchesGreaterThanOrEqual revertToBlockNumber)
       (withSampler (fun calls => calls ++ [Clear])
          (withStore
             (TransactionStore.removeTransactionsLaterThan
                (TransactionNumber.construct revertToBlockNumber 0 - 1))
             s))).
Proof.
  intros H. apply firstValidTransaction_result in H.
  unfold revertIteration, bind at 1, gets. unfold bind at 1. rewrite H.
  reflexivity.
Qed.

Lemma survivor_log_not_empty peer s survivor :
  fst (firstValidTransaction peer
         (TransactionStore.getExponentiallySpacedTransactions
            (transactionStore s)) s)
  = Done (Ok (Some survivor)) ->
  0 < TransactionStore.getTransactionsCount (transactionStore s).
Proof.
  unfold TransactionStore.getTransactionsCount.
  destruct (transactionStore s) as [ | r log].
  - cbn. discriminate.
  - intros _. cbn [List.length]. lia.
Qed.

(** C1, as the code has it.  When a probe survives, the block to revert to
    is [survivor.height + 1] rounded DOWN to the first block of its batch:
    [floor((survivor.height + 1) / batch_size) * batch_size], the largest
    multiple of the batch size that does not exceed [survivor.height + 1].
    The rollback returns that block and removes from the log every record
    of that block or of a later one. *)
Theorem revert_to_block_is_the_start_of_the_batch :
  forall config peer fuel s survivor,
    0 < batchSizeInBlocks config ->
    fst (firstValidTransaction peer
           (TransactionStore.getExponentiallySpacedTransactions
              (transactionStore s)) s)
    = Done (Ok (Some survivor)) ->
    let revertToBlock :=
      (transactionTime survivor + 1) / batchSizeInBlocks config
      * batchSizeInBlocks config in
    fst (revertBlockchainCache config peer (S fuel) s)
    = Done (Ok revertToBlock)
    /\ transactionStore (snd (revertBlockchainCache config peer (S fuel) s))
       = TransactionStore.removeTransactionsLaterThan
           (TransactionNumber.construct revertToBlock 0 - 1)
           (transactionStore s)
    /\ revertToBlock <= transactionTime survivor + 1
       < revertToBlock + batchSizeInBlocks config
    /\ revertToBlock mod batchSizeInBlocks config = 0.
Proof.
  intros config peer fuel s survivor Hsize Hsurvivor revertToBlock.
  pose proof (survivor_log_not_empty peer s Hsurvivor) as Hcount.
  pose proof (revertIteration_survivor config peer s Hsurvivor) as Hstep.
  cbv zeta in Hstep.
  assert (Hrun :
    revertBlockchainCache config peer (S fuel) s
    = (Done (Ok revertToBlock),
       withQuantile
         (QuantileCalculator.removeBatchesGreaterThanOrEqual revertToBlock)
         (withSampler (fun calls => calls ++ [Clear])
            (withStore
               (TransactionStore.removeTransactionsLaterThan
                  (TransactionNumber.construct revertToBlock 0 - 1))
               s)))).
  { cbn [revertBlockchainCache]. unfold bind at 1, gets.
    apply Z.ltb_lt in Hcount. rewrite Hcount.
    unfold bind. rewrite Hstep. reflexivity. }
  rewrite Hrun. cbn [fst snd].
  destruct (roundToBatchBoundary_floor config (transactionTime survivor + 1)
              Hsize) as (Hle & Hlt & Hmod).
  repeat split; assumption.
Qed.

Lemma revert_to_block_is_the_start_of_the_batch_witness :
  fst (revertBlockchainCache Scenario.config4 Scenario.forkedPeer 1
         Scenario.forkedState)
  = Done (Ok ((transactionTime Scenario.anchor5 + 1) / 4 * 4))
  /\ transactionStore
       (snd (revertBlockchainCache Scenario.config4 Scenario.forkedPeer 1
               Scenario.forkedState))
     = TransactionStore.removeTransactionsLaterThan
         (TransactionNumber.construct
            ((transactionTime Scenario.anchor5 + 1) / 4 * 4) 0 - 1)
         (transactionStore Scenario.forkedState)
  /\ (transactionTime Scenario.anchor5 + 1) / 4 * 4
     <= transactionTime Scenario.anchor5 + 1
     < (transactionTime Scenario.anchor5 + 1) / 4 * 4 + 4
  /\ ((transactionTime Scenario.anchor5 + 1) / 4 * 4) mod 4 = 0.
Proof.
  apply (@revert_to_block_is_the_start_of_the_batch Scenario.config4
           Scenario.forkedPeer 0 Scenario.forkedState Scenario.anchor5).
  - reflexivity.
  - vm_compute. reflexivity.
Defined.

(** C1, as stated, fails on scenario E: with batch size 4 and the survivor at
    block 5 the next batch boundary is block 8, and the rollback reverts to
    block 4. *)
Lemma revert_to_block_is_not_rounded_up :
  fst (firstValidTransaction Scenario.forkedPeer
         (TransactionStore.getExponentiallySpacedTransactions
            (transactionStore Scenario.forkedState)) Scenario.forkedState)
  = Done (Ok (Some Scenario.anchor5))
  /\ transactionTime Scenario.anchor5 = 5
  /\ batch_boundary_ceiling Scenario.config4
       (transactionTime Scenario.anchor5 + 1) = 8
  /\ fst (revertBlockchainCache Scenario.config4 Scenario.forkedPeer 1
            Scenario.forkedState)
     = Done (Ok 4)
  /\ fst (revertBlockchainCache Scenario.config4 Scenario.forkedPeer 1
            Scenario.forkedState)
     <> Done (Ok (batch_boundary_ceiling Scenario.config4
                    (transactionTime Scenario.anchor5 + 1))).
Proof.
  repeat split. vm_compute. discriminate.
Qed.

(** C2, on scenario E.  The rollback hands the block number it reverts to
    (4) to [removeBatchesGreaterThanOrEqual], not the batch of that block
    (1): the snapshot of batch 1 stays, where truncating at the batch id
    leaves the snapshot of batch 0 alone. *)
Theorem revert_truncates_quantiles_at_the_block_number :
  fst (revertBlockchainCache Scenario.config4 Scenario.forkedPeer 1
         Scenario.forkedState)
  = Done (Ok 4)
  /\ getBatchId Scenario.config4 4 = 1
  /\ quantileCalculator
       (snd (revertBlockchainCache Scenario.config4 Scenario.forkedPeer 1
               Scenario.forkedState))
     = [Scenario.snapshot0; Scenario.snapshot1]
  /\ QuantileCalculator.removeBatchesGreaterThanOrEqual
       (getBatchId Scenario.config4 4)
       (quantileCalculator Scenario.forkedState)
     = [Scenario.snapshot0].
Proof. repeat split. Qed.

(** *** Progress of the rollback loop *)

Lemma StronglySorted_snoc {A} (R : A -> A -> Prop) (l : list A) (x : A) :
  StronglySorted R (l ++ [x]) -> Forall (fun y => R y x) l.
Proof.
  induction l as [ | a l IH]; intros Hsorted; [constructor | ].
  cbn [app] in Hsorted. apply StronglySorted_inv in Hsorted.
  destruct Hsorted as [Hrest Hfirst]. constructor.
  - rewrite Forall_forall in Hfirst. apply Hfirst, in_or_app. right. now left.
  - now apply IH.
Qed.

Lemma last_Some_In {A} (l : list A) (x : A) :
  last (map Some l) None = Some x -> In x l.
Proof.
  induction l as [ | a [ | b l] IH]; cbn [map last].
  - discriminate.
  - intros H. injection H as ->. now left.
  - intros H. right. exact (IH H).
Qed.

Lemma last_Some_cons {A} (a : A) (l : list A) :
  last (map Some (a :: l)) None <> None.
Proof.
  revert a. induction l as [ | b l IH]; intros a; cbn [map last].
  - discriminate.
  - apply (IH b).
Qed.

Lemma filter_drops {A} (p : A -> bool) (l : list A) (x : A) :
  In x l -> p x = false -> (List.length (filter p l) < List.length l)%nat.
Proof.
  intros Hin Hp. pose proof (filter_length p l) as Hlength.
  assert (Hother : In x (filter (fun y => negb (p y)) l)).
  { apply filter_In. split; [exact Hin | now rewrite Hp]. }
  destruct (filter (fun y => negb (p y)) l); [destruct Hother | ].
  cbn [List.length] in Hlength. lia.
Qed.

Lemma doublingOffsets_positive fuel :
  forall offset count,
    (1 <= offset)%nat ->
    Forall (fun o => (1 <= o)%nat)
           (TransactionStore.doublingOffsets fuel offset count).
Proof.
  induction fuel as [ | fuel IH]; intros offset count Hoffset;
    cbn [TransactionStore.doublingOffsets]; [constructor | ].
  destruct (Nat.ltb offset count); constructor; [exact Hoffset | ].
  apply IH. lia.
Qed.

(** The records picked at positive offsets are older than the newest one. *)
Lemma probes_at_positive_offsets {A} (newest : A) (others : list A) offsets :
  Forall (fun o => (1 <= o)%nat) offsets ->
  forall x,
    In x (flat_map (fun offset =>
                      match nth_error (newest :: others) offset with
                      | Some r => [r]
                      | None => []
                      end) offsets) ->
    In x others.
Proof.
  intros Hoffsets x Hin. apply in_flat_map in Hin.
  destruct Hin as (offset & Hoffset & Hx).
  rewrite Forall_forall in Hoffsets. specialize (Hoffsets offset Hoffset).
  destruct offset as [ | offset]; [lia | ].
  cbn [nth_error] in Hx.
  destruct (nth_error others offset) as [r | ] eqn:Hnth; [ | destruct Hx].
  destruct Hx as [<- | []]. now apply nth_error_In in Hnth.
Qed.

(** In a log of two records or more, the oldest probe is not the newest
    record. *)
Lemma oldest_probe_is_older log lowest :
  ascending log ->
  (2 <= List.length log)%nat ->
  last (map Some (TransactionStore.getExponentiallySpacedTransactions log))
       None = Some lowest ->
  exists newest,
    In newest log /\ transactionNumber lowest < transactionNumber newest.
Proof.
  intros Hsorted Hlength Hlast.
  unfold TransactionStore.getExponentiallySpacedTransactions in Hlast.
  cbv zeta in Hlast.
  destruct (rev log) as [ | newest [ | second others]] eqn:Hrev;
    try (apply (f_equal (@List.length _)) in Hrev;
         rewrite length_rev in Hrev; cbn in Hrev; lia).
  assert (Hlog : log = rev (second :: others) ++ [newest]).
  { rewrite <- (rev_involutive log), Hrev. reflexivity. }
  exists newest. split.
  { rewrite Hlog. apply in_or_app. right. now left. }
  destruct (List.length log) as [ | count] eqn:Hcount; [lia | ].
  cbn [flat_map nth_error TransactionStore.doublingOffsets app] in Hlast.
  destruct (Nat.ltb_spec 1 (S count)) as [_ | Hsmall]; [ | lia].
  cbn [flat_map nth_error app map] in Hlast.
  change (last (Some newest :: Some second :: ?l) None)
    with (last (Some second :: l) None) in Hlast.
  match type of Hlast with
  | last (Some second :: map Some ?probes) None = _ =>
      change (Some second :: map Some probes)
        with (map Some (second :: probes)) in Hlast;
      assert (Hprobes : forall x, In x probes -> In x (second :: others))
  end.
  { apply probes_at_positive_offsets, doublingOffsets_positive. lia. }
  apply last_Some_In in Hlast.
  assert (Hin : In lowest (second :: others)).
  { destruct Hlast as [<- | Hlast]; [now left | now apply Hprobes]. }
  unfold ascending in Hsorted. rewrite Hlog in Hsorted.
  apply StronglySorted_snoc in Hsorted. rewrite Forall_forall in Hsorted.
  apply Hsorted. now apply -> in_rev.
Qed.

(** A pass of the rollback loop in which no probe survives removes at
    least the newest record, as soon as the log holds two records or more. *)
Lemma revert_pass_shrinks_longer_logs config peer s :
  ascending (transactionStore s) ->
  Forall numbered (transactionStore s) ->
  (2 <= List.length (transactionStore s))%nat ->
  fst (firstValidTransaction peer
         (TransactionStore.getExponentiallySpacedTransactions
            (transactionStore s)) s)
  = Done (Ok None) ->
  exists s',
    revertIteration config peer s = (Done (Ok (inr tt)), s')
    /\ (List.length (transactionStore s')
        < List.length (transactionStore s))%nat.
Proof.
  intros Hsorted Hnumbered Hlength Hnone.
  apply firstValidTransaction_result in Hnone.
  unfold revertIteration, bind at 1, gets. unfold bind at 1. rewrite Hnone.
  destruct (last (map Some _) None) as [lowest | ] eqn:Hlast.
  - eexists. split; [reflexivity | ]. cbn [withStore transactionStore].
    destruct (oldest_probe_is_older Hsorted Hlength Hlast)
      as (newest & Hin & Hnewer).
    apply filter_drops with (x := newest); [exact Hin | ].
    apply Z.leb_gt.
    assert (Hlowest : numbered lowest).
    { rewrite Forall_forall in Hnumbered. apply Hnumbered.
      apply last_Some_In in Hlast.
      unfold TransactionStore.getExponentiallySpacedTransactions in Hlast.
      apply in_flat_map in Hlast. destruct Hlast as (offset & _ & Hx).
      destruct (nth_error _ offset) as [r | ] eqn:Hnth; [ | destruct Hx].
      destruct Hx as [<- | []]. apply nth_error_In in Hnth.
      now apply in_rev. }
    unfold numbered in Hlowest. lia.
  - exfalso.
    unfold TransactionStore.getExponentiallySpacedTransactions in Hlast.
    destruct (rev (transactionStore s)) as [ | newest others] eqn:Hrev.
    + apply (f_equal (@List.length _)) in Hrev. rewrite length_rev in Hrev.
      cbn in Hrev. lia.
    + cbn [flat_map nth_error app] in Hlast.
      now apply last_Some_cons in Hlast.
Qed.

(** A pass in which the only record of the log does not survive removes it
    when its index in the block is positive, and leaves it when its index
    is 0. *)
Lemma revert_pass_on_a_lone_record config peer s r :
  transactionStore s = [r] ->
  fst (firstValidTransaction peer [r] s) = Done (Ok None) ->
  revertIteration config peer s
  = (Done (Ok (inr tt)),
     withStore
       (fun _ =>
          if transactionNumber r
             <=? TransactionNumber.construct (transactionTime r) 0
          then [r] else [])
       s).
Proof.
  intros Hlog Hnone. apply firstValidTransaction_result in Hnone.
  unfold revertIteration, bind at 1, gets. rewrite Hlog.
  change (TransactionStore.getExponentiallySpacedTransactions [r]) with [r].
  unfold bind at 1. rewrite Hnone. cbn [map last].
  unfold bind, modify, ret, withStore. rewrite Hlog. reflexivity.
Qed.

(** The rollback does not end on a log whose only record is the first
    transaction of a block that has been rewritten. *)
Lemma revert_loops_on_any_lone_first_anchor config peer s r :
  transactionStore s = [r] ->
  transactionNumber r = TransactionNumber.construct (transactionTime r) 0 ->
  fst (firstValidTransaction peer [r] s) = Done (Ok None) ->
  forall fuel, revertBlockchainCache config peer fuel s = (OutOfFuel, s).
Proof.
  intros Hlog Hnumber Hnone.
  pose proof (revert_pass_on_a_lone_record config peer s Hlog Hnone) as Hstep.
  rewrite Hnumber, Z.leb_refl in Hstep.
  assert (Hsame : withStore (fun _ => [r]) s = s).
  { destruct s as [store sampler quantiles seen lines]. cbn in Hlog.
    subst store. reflexivity. }
  rewrite Hsame in Hstep.
  induction fuel as [ | fuel IH]; [reflexivity | ].
  cbn [revertBlockchainCache]. unfold bind at 1, gets. rewrite Hlog.
  cbn [TransactionStore.getTransactionsCount List.length Z.of_nat Z.ltb
       Z.compare Pos.of_succ_nat].
  unfold bind. rewrite Hstep. exact IH.
Qed.

(** C3, on a log of one record that is the first transaction of its block
    and whose block has been rewritten.  No probe survives, the pass removes
    the records above [construct(7, 0)], which is the number of the record
    itself, so the log is left as it was and the loop does not end: whatever
    the number of passes allowed, they are used up. *)
Theorem revert_loops_on_a_lone_first_anchor :
  TransactionStore.removeTransactionsLaterThan
    (TransactionNumber.construct 7 0) (transactionStore Scenario.loneState)
  = transactionStore Scenario.loneState
  /\ revertIteration Scenario.config4 Scenario.forkedPeer Scenario.loneState
     = (Done (Ok (inr tt)), Scenario.loneState)
  /\ forall fuel,
       revertBlockchainCache Scenario.config4 Scenario.forkedPeer fuel
         Scenario.loneState
       = (OutOfFuel, Scenario.loneState).
Proof.
  assert (Hstep :
    revertIteration Scenario.config4 Scenario.forkedPeer Scenario.loneState
    = (Done (Ok (inr tt)), Scenario.loneState)) by reflexivity.
  repeat split; try assumption.
  induction fuel as [ | fuel IH].
  - reflexivity.
  - cbn [revertBlockchainCache]. unfold bind at 1, gets.
    change (0 <? TransactionStore.getTransactionsCount
                   (transactionStore Scenario.loneState)) with true.
    cbv iota. unfold bind. rewrite Hstep. exact IH.
Qed.

(** ** The sync loop *)

Create HintDb quiet.

Ltac quiet_base := intros s; split; [reflexivity | discriminate].

Lemma quiet_ret {A} (a : A) : quiet (ret a).
Proof. quiet_base. Qed.

Lemma quiet_throw {A} (e : Exn) : quiet (@throw A e).
Proof. quiet_base. Qed.

Lemma quiet_await {A} (answer : Res A) : quiet (await answer).
Proof. quiet_base. Qed.

Lemma quiet_gets {A} (f : State -> A) : quiet (gets f).
Proof. quiet_base. Qed.

Lemma quiet_withStore f : quiet (modify (withStore f)).
Proof. quiet_base. Qed.

Lemma quiet_withSampler f : quiet (modify (withSampler f)).
Proof. quiet_base. Qed.

Lemma quiet_withQuantile f : quiet (modify (withQuantile f)).
Proof. quiet_base. Qed.

Lemma quiet_bind {A B} (c : M A) (k : A -> M B) :
  quiet c -> (forall a, quiet (k a)) -> quiet (x <- c ;; k x).
Proof.
  intros Hc Hk s. unfold bind. destruct (Hc s) as [Hconsole Hreturns].
  destruct (c s) as [[[a | e] | ] s1]; cbn [fst snd] in *.
  - destruct (Hk a s1) as [Hconsole' Hreturns'].
    split; [congruence | exact Hreturns'].
  - split; [exact Hconsole | discriminate].
  - congruence.
Qed.

Lemma quiet_tryCatch {A} (c : M A) (h : Exn -> M A) :
  quiet c -> (forall e, quiet (h e)) -> quiet (tryCatch c h).
Proof.
  intros Hc Hh s. unfold tryCatch. destruct (Hc s) as [Hconsole Hreturns].
  destruct (c s) as [[[a | e] | ] s1]; cbn [fst snd] in *.
  - split; [exact Hconsole | discriminate].
  - destruct (Hh e s1) as [Hconsole' Hreturns'].
    split; [congruence | exact Hreturns'].
  - congruence.
Qed.

Lemma quiet_mapM {A B} (f : A -> M B) (l : list A) :
  (forall a, quiet (f a)) -> quiet (mapM f l).
Proof.
  intros Hf. induction l as [ | a rest IH]; cbn [mapM].
  - apply quiet_ret.
  - apply quiet_bind; [apply Hf | intros b].
    apply quiet_bind; [apply IH | intros bs; apply quiet_ret].
Qed.

#[local] Hint Resolve quiet_ret quiet_throw quiet_await quiet_gets
  quiet_withStore quiet_withSampler quiet_withQuantile : quiet.

Ltac quiet_step :=
  first [ apply quiet_bind; [ | intro ]
        | apply quiet_tryCatch; [ | intro ]
        | solve [auto with quiet] ].

Section SyncLoop.

Variable config : Config.
Variable peer : Peer.
Variable getSample : list SamplerCall -> list string.
Variable quantileAdd :
  Z -> list Z -> QuantileCalculator.t -> Res QuantileCalculator.t.

Lemma quiet_getTransactionOutValueInSatoshi txid outIdx :
  quiet (getTransactionOutValueInSatoshi peer txid outIdx).
Proof.
  unfold getTransactionOutValueInSatoshi. quiet_step; [quiet_step | ].
  destruct (find _ _); quiet_step.
Qed.

Lemma quiet_sumInputs inputs :
  forall sum, quiet (sumInputs peer inputs sum).
Proof.
  induction inputs as [ | input rest IH]; intros sum; cbn [sumInputs].
  - quiet_step.
  - quiet_step; [apply quiet_getTransactionOutValueInSatoshi | apply IH].
Qed.

Lemma quiet_getTransactionFeeInSatoshi txid :
  quiet (getTransactionFeeInSatoshi peer txid).
Proof.
  unfold getTransactionFeeInSatoshi. quiet_step; [quiet_step | ].
  quiet_step; [apply quiet_sumInputs | quiet_step].
Qed.

Lemma quiet_scanVOuts outputs :
  forall transactionIndex block blockHash found,
    quiet (scanVOuts config outputs transactionIndex block blockHash found).
Proof.
  induction outputs as [ | output rest IH]; intros i b h found.
  - cbn [scanVOuts]. quiet_step.
  - rewrite scanVOuts_cons.
    destruct (anchorData config output); [destruct found | ];
      solve [quiet_step | apply IH].
Qed.

Lemma quiet_addValidSidetreeTransactions outputs transactionIndex block
      blockHash transactionId :
  quiet (addValidSidetreeTransactionsFromVOutsToTransactionStore config peer
           outputs transactionIndex block blockHash transactionId).
Proof.
  unfold addValidSidetreeTransactionsFromVOutsToTransactionStore.
  quiet_step; [apply quiet_scanVOuts | ].
  match goal with found : option TransactionModel |- _ => destruct found end;
    [ | quiet_step].
  quiet_step; [apply quiet_getTransactionFeeInSatoshi | ].
  repeat quiet_step.
Qed.

Lemma quiet_processBlockTransaction transaction transactionIndex block
      blockHash :
  quiet (processBlockTransaction config peer transaction transactionIndex
           block blockHash).
Proof.
  unfold processBlockTransaction.
  destruct (vout transaction) as [outputs | ]; [ | quiet_step].
  quiet_step; [ | quiet_step].
  quiet_step; [apply quiet_addValidSidetreeTransactions | ].
  quiet_step; [destruct (vin transaction); quiet_step | ].
  match goal with |- quiet (if ?test then _ else _) => destruct test end;
    quiet_step.
Qed.

Lemma quiet_processBlockTransactions transactions :
  forall transactionIndex block blockHash,
    quiet (processBlockTransactions config peer transactions
             transactionIndex block blockHash).
Proof.
  induction transactions as [ | transaction rest IH]; intros i b h;
    cbn [processBlockTransactions].
  - quiet_step.
  - quiet_step; [apply quiet_processBlockTransaction | apply IH].
Qed.

(** Whatever its outcome, [processBlock] returns, and it writes its opening
    line and nothing else. *)
Lemma processBlock_console block s :
  console (snd (processBlock config peer getSample quantileAdd block s))
  = console s ++ [ProcessingBlock block]
  /\ fst (processBlock config peer getSample quantileAdd block s)
     <> OutOfFuel.
Proof.
  unfold processBlock. unfold bind at 1. cbn [modify].
  match goal with
  | |- console (snd (?rest (withConsole ?line s))) = _ /\ _ =>
      assert (Hquiet : quiet rest)
  end.
  { quiet_step; [unfold getBlockHash; quiet_step | ].
    quiet_step; [quiet_step | ].
    quiet_step; [quiet_step | ].
    quiet_step; [apply quiet_processBlockTransactions | ].
    quiet_step; [ | quiet_step].
    destruct (isBatchBoundary config block); [ | quiet_step].
    quiet_step; [quiet_step | ].
    quiet_step;
      [apply quiet_mapM; intro; apply quiet_getTransactionFeeInSatoshi | ].
    repeat quiet_step. }
  destruct (Hquiet (withConsole (ProcessingBlock block) s))
    as [Hconsole Hreturns].
  split; [rewrite Hconsole; reflexivity | exact Hreturns].
Qed.

(** The [for] loop returns; it has started the blocks of a prefix of its
    range, and those of the whole range when it ends normally. *)
Lemma processBlockRange_console remaining :
  forall blockHeight s,
    let run :=
      processBlockRange config peer getSample quantileAdd remaining
        blockHeight s in
    fst run <> OutOfFuel
    /\ exists started,
         (started <= remaining)%nat
         /\ console (snd run)
            = console s ++ map ProcessingBlock (heightsFrom started blockHeight)
         /\ (fst run = Done (Ok tt) -> started = remaining).
Proof.
  induction remaining as [ | remaining IH]; intros b s; cbv zeta.
  - cbn. split; [discriminate | ]. exists 0%nat.
    repeat split; [lia | now rewrite app_nil_r].
  - cbn [processBlockRange]. unfold bind.
    destruct (processBlock_console b s) as [Hline Hreturns].
    destruct (processBlock config peer getSample quantileAdd b s)
      as [[[blockHash | e] | ] s1]; cbn [fst snd] in *.
    + destruct (IH (b + 1) s1) as (Hreturns' & started & Hle & Hconsole & Hall).
      split; [exact Hreturns' | ]. exists (S started).
      repeat split; [lia | | intros Hok; f_equal; now apply Hall].
      rewrite Hconsole, Hline. cbn [heightsFrom map].
      now rewrite <- app_assoc.
    + split; [discriminate | ]. exists 1%nat.
      repeat split; [lia | exact Hline | discriminate].
    + congruence.
Qed.

Lemma heightsFrom_snoc count :
  forall start,
    heightsFrom count start ++ [start + Z.of_nat count]
    = heightsFrom (S count) start.
Proof.
  induction count as [ | count IH]; intros start.
  - cbn. now rewrite Z.add_0_r.
  - cbn [heightsFrom app]. f_equal.
    replace (start + Z.of_nat (S count))
      with (start + 1 + Z.of_nat count) by lia.
    rewrite IH. reflexivity.
Qed.

Lemma heightsFrom_In count :
  forall start h,
    In h (heightsFrom count start)
    <-> start <= h < start + Z.of_nat count.
Proof.
  induction count as [ | count IH]; intros start h.
  - cbn. lia.
  - cbn [heightsFrom In]. rewrite IH. lia.
Qed.

Lemma heightsFrom_NoDup count :
  forall start, NoDup (heightsFrom count start).
Proof.
  induction count as [ | count IH]; intros start; cbn [heightsFrom].
  - constructor.
  - constructor; [ | apply IH]. rewrite heightsFrom_In. lia.
Qed.

(** The [for] loop over [count] blocks followed by the last block. *)
Lemma sync_console count start s :
  let run :=
    (processBlockRange config peer getSample quantileAdd count start ;;;
     hash <- processBlock config peer getSample quantileAdd
               (start + Z.of_nat count) ;;
     ret (mkBlockInfo (start + Z.of_nat count) hash)) s in
  fst run <> OutOfFuel
  /\ (exists started,
         (started <= S count)%nat
         /\ console (snd run)
            = console s ++ map ProcessingBlock (heightsFrom started start))
  /\ (forall synced,
         fst run = Done (Ok synced) ->
         console (snd run)
         = console s ++ map ProcessingBlock (heightsFrom (S count) start)
         /\ height synced = start + Z.of_nat count).
Proof.
  cbv zeta. unfold bind.
  destruct (processBlockRange_console count start s)
    as (Hreturns & started & Hle & Hconsole & Hall).
  cbv zeta in *.
  destruct (processBlockRange config peer getSample quantileAdd count start s)
    as [[[[] | e] | ] s1]; cbn [fst snd] in *.
  - specialize (Hall eq_refl). subst started.
    destruct (processBlock_console (start + Z.of_nat count) s1)
      as [Hline Hreturns'].
    assert (Hfull :
      console s1 ++ [ProcessingBlock (start + Z.of_nat count)]
      = console s ++ map ProcessingBlock (heightsFrom (S count) start)).
    { rewrite Hconsole, <- heightsFrom_snoc, map_app, <- app_assoc.
      reflexivity. }
    destruct (processBlock config peer getSample quantileAdd
                (start + Z.of_nat count) s1)
      as [[[blockHash | e] | ] s2]; cbn [fst snd ret] in *.
    + split; [discriminate | ]. split.
      * exists (S count). split; [lia | congruence].
      * intros synced H. injection H as <-. split; [congruence | reflexivity].
    + split; [discriminate | ]. split.
      * exists (S count). split; [lia | congruence].
      * discriminate.
    + congruence.
  - split; [discriminate | ]. split.
    + exists started. split; [lia | exact Hconsole].
    + discriminate.
  - congruence.
Qed.

End SyncLoop.

(** Scenario A: one tick from an empty state. *)
Example periodicPoll_scenario_A :
  periodicPoll Scenario.configA Scenario.peerA Scenario.sampleAll
    Scenario.addMaximum 0 Scenario.emptyState
  = (Done (Ok tt),
     mkState
       [mkTransaction (101 * 2 ^ 24 + 2) 101 "hash101" "abc" 10000;
        mkTransaction (103 * 2 ^ 24 + 0) 103 "hash103" "def" 100000]
       [ResetPsuedoRandomSeed "hash100"; ResetPsuedoRandomSeed "hash101";
        AddElement "pay1"; AddElement "pay2";
        ResetPsuedoRandomSeed "hash102"; ResetPsuedoRandomSeed "hash103";
        Clear]
       [QuantileCalculator.mkSnapshot 25 10000000 []]
       (Some (mkBlockInfo 103 "hash103"))
       [ProcessingBlock 100; ProcessingBlock 101; ProcessingBlock 102;
        ProcessingBlock 103]).
Proof. vm_compute. reflexivity. Qed.

(** C4, as the code has it.  Take a tick whose starting block still has its
    hash on the peer and is not above the tip.  [processTransactions]
    returns, whatever [fuel] is.  It calls [processBlock] on the heights
    [from.height], [from.height + 1], ... in this order, once each, and on
    no other height; a run that completes has gone through all of them up
    to the tip, and returns the tip.  So the block already seen,
    [from.height], is processed again. *)
Theorem tick_processes_from_the_last_seen_block :
  forall config peer getSample quantileAdd fuel from tip s,
    getblockhash peer (height from) = Ok (hash from) ->
    getblockcount peer = Ok tip ->
    height from <= tip ->
    let heights :=
      heightsFrom (Z.to_nat (tip - height from + 1)) (height from) in
    let run :=
      processTransactions config peer getSample quantileAdd fuel (Some from)
        None s in
    fst run <> OutOfFuel
    /\ (exists started,
           (started <= List.length heights)%nat
           /\ console (snd run)
              = console s ++ map ProcessingBlock (firstn started heights))
    /\ (forall synced,
           fst run = Done (Ok synced) ->
           console (snd run) = console s ++ map ProcessingBlock heights
           /\ height synced = tip)
    /\ (forall h, In h heights <-> height from <= h <= tip)
    /\ NoDup heights.
Proof.
  intros config peer getSample quantileAdd fuel from tip s
         Hhash Htip Hle heights run.
  assert (Hcount : Z.to_nat (tip - height from + 1)
                   = S (Z.to_nat (tip - height from))) by lia.
  assert (Htop : height from + Z.of_nat (Z.to_nat (tip - height from)) = tip)
    by lia.
  assert (Hprefix : forall started count start,
             (started <= count)%nat ->
             firstn started (heightsFrom count start)
             = heightsFrom started start).
  { induction started as [ | started IH]; intros count start Hstarted.
    - reflexivity.
    - destruct count as [ | count]; [lia | ].
      cbn [heightsFrom firstn]. f_equal. apply IH. lia. }
  assert (Hlength : forall count start,
             List.length (heightsFrom count start) = count).
  { induction count as [ | count IH]; intros start; cbn [heightsFrom];
      [reflexivity | cbn [List.length]; now rewrite IH]. }
  assert (Hrun :
    fst run <> OutOfFuel
    /\ (exists started,
           (started <= List.length heights)%nat
           /\ console (snd run)
              = console s ++ map ProcessingBlock (firstn started heights))
    /\ (forall synced,
           fst run = Done (Ok synced) ->
           console (snd run) = console s ++ map ProcessingBlock heights
           /\ height synced = tip)).
  { assert (Hbody :
      run
      = (if (height from <? genesisBlockNumber config)
            || (tip <? genesisBlockNumber config)
         then throw (Error "Cannot process Transactions before genesis")
         else
           processBlockRange config peer getSample quantileAdd
             (Z.to_nat (tip - height from)) (height from) ;;;
           hash <- processBlock config peer getSample quantileAdd tip ;;
           ret (mkBlockInfo tip hash)) s).
    { unfold run, processTransactions.
      unfold verifyBlock, getBlockHash, getCurrentBlockHeight.
      rewrite Hhash, Htip.
      unfold bind at 1 2 3. cbn [await ret].
      rewrite String.eqb_refl. cbn [negb ret].
      unfold bind at 1. cbn [await]. reflexivity. }
    rewrite Hbody.
    destruct ((height from <? genesisBlockNumber config)
              || (tip <? genesisBlockNumber config)).
    - cbn [throw fst snd]. split; [discriminate | ]. split.
      + exists 0%nat. split; [lia | cbn; now rewrite app_nil_r].
      + discriminate.
    - pose proof (sync_console config peer getSample quantileAdd
                    (Z.to_nat (tip - height from)) (height from) s) as Hsync.
      cbv zeta in Hsync. rewrite Htop in Hsync.
      destruct Hsync as (Hreturns & (started & Hstarted & Hconsole) & Hdone).
      unfold heights. rewrite Hcount, Hlength.
      split; [exact Hreturns | ]. split.
      + exists started. split; [exact Hstarted | ].
        now rewrite Hprefix.
      + exact Hdone. }
  destruct Hrun as (Hreturns & Hstarted & Hdone).
  split; [exact Hreturns | ]. split; [exact Hstarted | ].
  split; [exact Hdone | ]. split.
  - intros h. unfold heights. rewrite heightsFrom_In. lia.
  - apply heightsFrom_NoDup.
Qed.

Lemma tick_processes_from_the_last_seen_block_witness :
  let heights := heightsFrom (Z.to_nat (12 - 10 + 1)) 10 in
  let run :=
    processTransactions Scenario.config4 Scenario.quietPeer
      Scenario.sampleAll Scenario.addMaximum 0
      (Some (mkBlockInfo 10 "hash10")) None Scenario.quietState in
  fst run <> OutOfFuel
  /\ (exists started,
         (started <= List.length heights)%nat
         /\ console (snd run)
            = console Scenario.quietState
              ++ map ProcessingBlock (firstn started heights))
  /\ (forall synced,
         fst run = Done (Ok synced) ->
         console (snd run)
         = console Scenario.quietState ++ map ProcessingBlock heights
         /\ height synced = 12)
  /\ (forall h, In h heights <-> 10 <= h <= 12)
  /\ NoDup heights.
Proof.
  apply (@tick_processes_from_the_last_seen_block Scenario.config4
           Scenario.quietPeer Scenario.sampleAll Scenario.addMaximum 0%nat
           (mkBlockInfo 10 "hash10") 12 Scenario.quietState).
  - reflexivity.
  - reflexivity.
  - cbn. lia.
Defined.

(** The run of the witness completes, on blocks 10, 11 and 12. *)
Example tick_on_a_quiet_chain :
  processTransactions Scenario.config4 Scenario.quietPeer Scenario.sampleAll
    Scenario.addMaximum 0 (Some (mkBlockInfo 10 "hash10")) None
    Scenario.quietState
  = (Done (Ok (mkBlockInfo 12 "hash12")),
     mkState [] [ResetPsuedoRandomSeed "hash10";
                 ResetPsuedoRandomSeed "hash11"; Clear;
                 ResetPsuedoRandomSeed "hash12"]
       [QuantileCalculator.mkSnapshot 2 0 []]
       (Some (mkBlockInfo 10 "hash10"))
       [ProcessingBlock 10; ProcessingBlock 11; ProcessingBlock 12]).
Proof. vm_compute. reflexivity. Qed.

(** C4, as stated, fails on a quiet chain: from the last seen block 10 with
    the tip at 12 the tick processes blocks 10, 11 and 12, not 11 and 12
    alone. *)
Lemma tick_processes_the_last_seen_block_again :
  verifyBlock Scenario.quietPeer 10 "hash10" Scenario.quietState
  = (Done (Ok true), Scenario.quietState)
  /\ lastSeenBlock Scenario.quietState = Some (mkBlockInfo 10 "hash10")
  /\ console
       (snd (periodicPoll Scenario.config4 Scenario.quietPeer
               Scenario.sampleAll Scenario.addMaximum 0 Scenario.quietState))
     = [ProcessingBlock 10; ProcessingBlock 11; ProcessingBlock 12]
  /\ lastSeenBlock
       (snd (periodicPoll Scenario.config4 Scenario.quietPeer
               Scenario.sampleAll Scenario.addMaximum 0 Scenario.quietState))
     = Some (mkBlockInfo 12 "hash12")
  /\ console
       (snd (periodicPoll Scenario.config4 Scenario.quietPeer
               Scenario.sampleAll Scenario.addMaximum 0 Scenario.quietState))
     <> map ProcessingBlock (heightsFrom (Z.to_nat (12 - (10 + 1) + 1)) (10 + 1)).
Proof.
  repeat split. vm_compute. discriminate.
Qed.

(** ** Retries *)

Section Retries.

Variable Response : Type.
Variable requestTimeout : Z.
Variable maxRetries : Z.
Variable nodeFetch : Z -> option Z -> Res Response.
Variable setTimeout : bool.

Let timedOut : Res Response := Throw (FetchError RequestTimeout).
Let attempt (k : Z) : Res Response :=
  nodeFetch k (Fetch.timeoutOfAttempt requestTimeout setTimeout k).
Let loop := Fetch.fetchLoop requestTimeout maxRetries nodeFetch.

(** A pass ends the loop when the retries are used up or the attempt did
    anything but time out. *)
Lemma fetchLoop_stops fuel k :
  maxRetries <= k \/ attempt k <> timedOut ->
  loop (S fuel) setTimeout k
  = (Done (attempt k),
     [Fetch.Attempt (Fetch.timeoutOfAttempt requestTimeout setTimeout k)]).
Proof.
  intros Hstop. unfold loop, attempt, timedOut in *.
  cbn [Fetch.fetchLoop]. unfold Fetch.timeoutOfAttempt in *.
  destruct (nodeFetch k _) as [response | [status code | message | type | ]];
    try reflexivity.
  destruct (Z.geb_spec k maxRetries) as [Hge | Hlt]; [reflexivity | ].
  destruct type; try reflexivity.
  destruct Hstop as [Hle | Hne]; [lia | congruence].
Qed.

(** A timed-out attempt with retries left is followed by a wait and by the
    next attempt. *)
Lemma fetchLoop_retries fuel k :
  k < maxRetries ->
  attempt k = timedOut ->
  loop (S fuel) setTimeout k
  = (fst (loop fuel setTimeout (k + 1)),
     Fetch.Attempt (Fetch.timeoutOfAttempt requestTimeout setTimeout k)
       :: Fetch.WaitFor (requestTimeout * 2 ^ k)
       :: snd (loop fuel setTimeout (k + 1))).
Proof.
  intros Hlt Htimeout. unfold loop, attempt, timedOut in *.
  cbn [Fetch.fetchLoop]. unfold Fetch.timeoutOfAttempt in *.
  rewrite Htimeout.
  destruct (Z.geb_spec k maxRetries) as [Hge | _]; [lia | ].
  now destruct (Fetch.fetchLoop _ _ _ fuel setTimeout (k + 1)).
Qed.

Lemma fetchLoop_after_timeouts count :
  forall fuel k,
    (forall j, k <= j < k + Z.of_nat count -> attempt j = timedOut) ->
    k + Z.of_nat count <= maxRetries ->
    k + Z.of_nat count = maxRetries
    \/ attempt (k + Z.of_nat count) <> timedOut ->
    (count < fuel)%nat ->
    loop fuel setTimeout k
    = (Done (attempt (k + Z.of_nat count)),
       Fetch.timedOutAttempts requestTimeout setTimeout count k
       ++ [Fetch.Attempt
             (Fetch.timeoutOfAttempt requestTimeout setTimeout
                (k + Z.of_nat count))]).
Proof.
  induction count as [ | count IH]; intros fuel k Hbefore Hle Hlast Hfuel;
    (destruct fuel as [ | fuel]; [lia | ]).
  - cbn [Z.of_nat] in *. rewrite Z.add_0_r in *.
    cbn [Fetch.timedOutAttempts app].
    apply fetchLoop_stops. destruct Hlast; [left; lia | now right].
  - rewrite fetchLoop_retries; [ | lia | apply Hbefore; lia].
    replace (k + Z.of_nat (S count)) with (k + 1 + Z.of_nat count) in * by lia.
    rewrite (IH fuel (k + 1)); try assumption; try lia.
    + reflexivity.
    + intros j Hj. apply Hbefore. lia.
Qed.

(** The loop returns: it needs no more than [maxRetries + 1] passes. *)
Lemma fetchLoop_returns fuel :
  forall k,
    (0 < fuel)%nat ->
    maxRetries - k < Z.of_nat fuel ->
    exists result events,
      loop fuel setTimeout k = (Done result, events).
Proof.
  unfold loop.
  induction fuel as [ | fuel IH]; intros k Hpositive Hfuel; [lia | ].
  cbn [Fetch.fetchLoop].
  destruct (nodeFetch k _) as [response | [status code | message | type | ]];
    try (eexists; eexists; reflexivity).
  destruct (Z.geb_spec k maxRetries) as [Hge | Hlt];
    [eexists; eexists; reflexivity | ].
  destruct type; try (eexists; eexists; reflexivity).
  destruct (IH (k + 1)) as (result & events & Hloop); [lia | lia | ].
  rewrite Hloop. eexists; eexists; reflexivity.
Qed.

End Retries.

(** C9, as the code has it.  Let the attempts at retry counts [0 .. n - 1]
    time out, with [n <= maxRetries], and let the attempt at retry count [n]
    be the last one allowed ([n = maxRetries]) or end in anything but a
    timeout.  Then [fetchWithRetry] makes exactly the attempts [0 .. n], each
    timed-out one followed by a wait of [requestTimeout * 2^k] milliseconds,
    and ends with what attempt [n] gave: its response, or its error raised
    with no further attempt (the timeout error itself when the retries are
    used up).  The attempt at retry count [k] carries the timeout
    [requestTimeout * 2^k] when the [setTimeout] flag is on, and no timeout
    when it is off. *)
Theorem fetchWithRetry_retries_timeouts_only :
  forall (Response : Type) requestTimeout maxRetries
         (nodeFetch : Z -> option Z -> Res Response) (setTimeout : bool)
         (n fuel : nat),
    let timeoutOf (k : Z) : option Z :=
      if setTimeout then Some (requestTimeout * 2 ^ k) else None in
    (forall k, 0 <= k < Z.of_nat n ->
               nodeFetch k (timeoutOf k) = Throw (FetchError RequestTimeout)) ->
    Z.of_nat n <= maxRetries ->
    Z.of_nat n = maxRetries
    \/ nodeFetch (Z.of_nat n) (timeoutOf (Z.of_nat n))
       <> Throw (FetchError RequestTimeout) ->
    (n < fuel)%nat ->
    Fetch.fetchWithRetry requestTimeout maxRetries nodeFetch fuel setTimeout
    = (Done (nodeFetch (Z.of_nat n) (timeoutOf (Z.of_nat n))),
       Fetch.timedOutAttempts requestTimeout setTimeout n 0
       ++ [Fetch.Attempt (timeoutOf (Z.of_nat n))])
    /\ (forall count k,
          Fetch.timedOutAttempts requestTimeout setTimeout (S count) k
          = Fetch.Attempt (timeoutOf k)
              :: Fetch.WaitFor (requestTimeout * 2 ^ k)
              :: Fetch.timedOutAttempts requestTimeout setTimeout count (k + 1)).
Proof.
  intros Response requestTimeout maxRetries nodeFetch setTimeout n fuel
         timeoutOf Hbefore Hle Hlast Hfuel.
  split; [ | reflexivity].
  unfold Fetch.fetchWithRetry.
  apply (@fetchLoop_after_timeouts Response requestTimeout maxRetries
            nodeFetch setTimeout n fuel 0); assumption.
Qed.

Lemma fetchWithRetry_retries_timeouts_only_witness :
  Fetch.fetchWithRetry 300 3 Scenario.slowFetch 4 true
  = (Done (Scenario.slowFetch 2 (Some (300 * 2 ^ 2))),
     Fetch.timedOutAttempts 300 true 2 0
     ++ [Fetch.Attempt (Some (300 * 2 ^ 2))])
  /\ (forall count k,
        Fetch.timedOutAttempts 300 true (S count) k
        = Fetch.Attempt (Some (300 * 2 ^ k))
            :: Fetch.WaitFor (300 * 2 ^ k)
            :: Fetch.timedOutAttempts 300 true count (k + 1)).
Proof.
  apply (@fetchWithRetry_retries_timeouts_only string 300 3
           Scenario.slowFetch true 2 4).
  - intros k Hk. assert (Hcases : k = 0 \/ k = 1) by lia.
    destruct Hcases as [-> | ->]; reflexivity.
  - cbn. lia.
  - right. cbn. discriminate.
  - lia.
Defined.

(** The events of the witness, spelled out. *)
Example fetchWithRetry_backoff :
  Fetch.fetchWithRetry 300 3 Scenario.slowFetch 4 true
  = (Done (Ok "response"),
     [Fetch.Attempt (Some 300); Fetch.WaitFor 300;
      Fetch.Attempt (Some 600); Fetch.WaitFor 600;
      Fetch.Attempt (Some 1200)]).
Proof. reflexivity. Qed.

(** With [maxRetries] at least 0, [fetchWithRetry] returns within
    [maxRetries + 1] passes of its loop. *)
Lemma fetchWithRetry_returns :
  forall (Response : Type) requestTimeout maxRetries
         (nodeFetch : Z -> option Z -> Res Response) setTimeout fuel,
    0 <= maxRetries ->
    maxRetries < Z.of_nat fuel ->
    exists result events,
      Fetch.fetchWithRetry requestTimeout maxRetries nodeFetch fuel setTimeout
      = (Done result, events).
Proof.
  intros Response requestTimeout maxRetries nodeFetch setTimeout fuel
         Hmax Hfuel.
  apply fetchLoop_returns; lia.
Qed.

(** C9, as stated, fails for a fetch made with the [setTimeout] flag off (as
    [initialize] does for [importpubkey]): its attempt at retry count 0
    carries no timeout instead of [requestTimeout * 2^0]. *)
Lemma fetch_without_the_flag_has_no_timeout :
  Fetch.fetchWithRetry 300 3 Scenario.patientFetch 4 false
  = (Done (Ok "response"), [Fetch.Attempt None])
  /\ Fetch.fetchWithRetry 300 3 Scenario.patientFetch 4 false
     <> (Done (Ok "response"), [Fetch.Attempt (Some (300 * 2 ^ 0))]).
Proof. split; [reflexivity | discriminate]. Qed.

(** * Further properties *)

(** ** Batches *)

Section Batches.

Variable config : Config.
Hypothesis positive_size : 0 < batchSizeInBlocks config.

Lemma getBatchId_bounds block :
  batchSizeInBlocks config * getBatchId config block <= block
  < batchSizeInBlocks config * getBatchId config block + batchSizeInBlocks config.
Proof.
  unfold getBatchId.
  pose proof (Z.div_mod block (batchSizeInBlocks config)) as Hdiv.
  pose proof (Z.mod_pos_bound block (batchSizeInBlocks config) positive_size).
  lia.
Qed.

Lemma getBatchId_unique block batchId :
  batchSizeInBlocks config * batchId <= block < batchSizeInBlocks config * batchId + batchSizeInBlocks config ->
  getBatchId config block = batchId.
Proof.
  intros Hbounds. pose proof (getBatchId_bounds block) as Hblock.
  nia.
Qed.

Lemma isBatchBoundary_last block :
  0 <= block ->
  isBatchBoundary config block = true
  <-> block = batchSizeInBlocks config * getBatchId config block + batchSizeInBlocks config - 1.
Proof.
  intros Hblock. unfold isBatchBoundary.
  rewrite Z.rem_mod_nonneg by lia.
  rewrite Z.eqb_eq.
  pose proof (getBatchId_bounds block) as Hbounds.
  split.
  - intros Hmod.
    apply Z.mod_divide in Hmod; [ | lia]. destruct Hmod as [k Hk].
    assert (Hlow : getBatchId config block < k).
    { apply (Z.mul_lt_mono_pos_l (batchSizeInBlocks config)); lia. }
    assert (Hhigh : k < getBatchId config block + 2).
    { apply (Z.mul_lt_mono_pos_l (batchSizeInBlocks config)); lia. }
    assert (k = getBatchId config block + 1) by lia. subst k. lia.
  - intros Hlast.
    replace (block + 1) with ((getBatchId config block + 1) * batchSizeInBlocks config) by lia.
    apply Z.mod_mul. lia.
Qed.

End Batches.

(** X1. With a positive batch size, a block that is not negative is a batch
    boundary exactly when it is the last block of its batch: the block
    [roundToBatchBoundary(block) + batchSize - 1], after which the batch id
    goes up by one; after any other block the batch id stays. *)
Theorem batch_boundary_is_the_last_block_of_its_batch :
  forall config block,
    0 < batchSizeInBlocks config ->
    0 <= block ->
    (isBatchBoundary config block = true
     <-> block
         = roundToBatchBoundary config block + batchSizeInBlocks config - 1)
    /\ (isBatchBoundary config block = true ->
        getBatchId config (block + 1) = getBatchId config block + 1)
    /\ (isBatchBoundary config block = false ->
        getBatchId config (block + 1) = getBatchId config block).
Proof.
  intros config block Hsize Hblock.
  pose proof (@isBatchBoundary_last config Hsize block Hblock) as Hlast.
  pose proof (@getBatchId_bounds config Hsize block) as Hbounds.
  assert (Hround : roundToBatchBoundary config block
                   = batchSizeInBlocks config * getBatchId config block).
  { unfold roundToBatchBoundary, getBatchId. cbv zeta. lia. }
  rewrite Hround. split; [exact Hlast | ]. split.
  - intros Hboundary. apply Hlast in Hboundary.
    apply (@getBatchId_unique config Hsize); lia.
  - intros Hinside.
    assert (Hnot : block <> batchSizeInBlocks config * getBatchId config block
                            + batchSizeInBlocks config - 1).
    { intros Heq. apply Hlast in Heq. congruence. }
    apply (@getBatchId_unique config Hsize); lia.
Qed.

Lemma batch_boundary_is_the_last_block_of_its_batch_witness :
  (isBatchBoundary Scenario.config4 7 = true
   <-> 7 = roundToBatchBoundary Scenario.config4 7 + 4 - 1)
  /\ (isBatchBoundary Scenario.config4 7 = true ->
      getBatchId Scenario.config4 (7 + 1) = getBatchId Scenario.config4 7 + 1)
  /\ (isBatchBoundary Scenario.config4 7 = false ->
      getBatchId Scenario.config4 (7 + 1) = getBatchId Scenario.config4 7).
Proof.
  apply (@batch_boundary_is_the_last_block_of_its_batch Scenario.config4 7).
  - reflexivity.
  - cbn. lia.
Defined.

(** X2. With a positive batch size, [roundToBatchBoundary] gives the first
    block of the batch of its argument: a block of the same batch, not above
    the argument and less than a batch below it, on which rounding changes
    nothing; two blocks round to the same block exactly when they are in the
    same batch. *)
Theorem roundToBatchBoundary_is_the_first_block_of_the_batch :
  forall config block other,
    0 < batchSizeInBlocks config ->
    getBatchId config (roundToBatchBoundary config block)
    = getBatchId config block
    /\ roundToBatchBoundary config (roundToBatchBoundary config block)
       = roundToBatchBoundary config block
    /\ roundToBatchBoundary config block <= block
       < roundToBatchBoundary config block + batchSizeInBlocks config
    /\ (roundToBatchBoundary config block = roundToBatchBoundary config other
        <-> getBatchId config block = getBatchId config other).
Proof.
  intros config block other Hsize.
  pose proof (@getBatchId_bounds config Hsize block) as Hbounds.
  assert (Hround : forall b, roundToBatchBoundary config b
                             = batchSizeInBlocks config * getBatchId config b).
  { intros b. unfold roundToBatchBoundary, getBatchId. cbv zeta. lia. }
  assert (Hsame : getBatchId config (roundToBatchBoundary config block)
                  = getBatchId config block).
  { apply (@getBatchId_unique config Hsize). rewrite Hround. lia. }
  split; [exact Hsame | ]. split.
  - rewrite (Hround (roundToBatchBoundary config block)), Hsame.
    now rewrite Hround.
  - split; [rewrite Hround; lia | ]. rewrite !Hround. split.
    + intros Heq. nia.
    + intros ->. reflexivity.
Qed.

Lemma roundToBatchBoundary_is_the_first_block_of_the_batch_witness :
  getBatchId Scenario.config4 (roundToBatchBoundary Scenario.config4 6)
  = getBatchId Scenario.config4 6
  /\ roundToBatchBoundary Scenario.config4
       (roundToBatchBoundary Scenario.config4 6)
     = roundToBatchBoundary Scenario.config4 6
  /\ roundToBatchBoundary Scenario.config4 6 <= 6
     < roundToBatchBoundary Scenario.config4 6 + 4
  /\ (roundToBatchBoundary Scenario.config4 6
      = roundToBatchBoundary Scenario.config4 5
      <-> getBatchId Scenario.config4 6 = getBatchId Scenario.config4 5).
Proof.
  apply (@roundToBatchBoundary_is_the_first_block_of_the_batch
           Scenario.config4 6 5).
  reflexivity.
Defined.

(** ** Queries *)



(** X4. [firstValidTransaction] asks the peer for the hash at the height of
    each record in turn and stops at the first answer that settles the
    matter: it returns the first record whose hash the peer confirms, every
    record before it having another hash on the peer; it returns nothing when
    the peer has another hash for every record; and it throws what the peer
    threw for the first record it could not answer for.  The processor is
    left as it was. *)
Theorem firstValidTransaction_returns_the_first_match :
  forall peer transactions s,
    snd (firstValidTransaction peer transactions s) = s
    /\ match fst (firstValidTransaction peer transactions s) with
       | Done (Ok (Some found)) =>
           exists before after,
             transactions = before ++ found :: after
             /\ Forall (disagrees peer) before
             /\ agrees peer found
       | Done (Ok None) => Forall (disagrees peer) transactions
       | Done (Throw e) =>
           exists before failed after,
             transactions = before ++ failed :: after
             /\ Forall (disagrees peer) before
             /\ getblockhash peer (transactionTime failed) = Throw e
       | OutOfFuel => False
       end.
Proof.
  intros peer transactions s.
  split; [apply firstValidTransaction_state | ].
  induction transactions as [ | transaction rest IH].
  - cbn. constructor.
  - cbn [firstValidTransaction].
    unfold bind, verifyBlock, getBlockHash, await, bind, ret.
    destruct (getblockhash peer (transactionTime transaction))
      as [responseData | e] eqn:Hpeer.
    + destruct (String.eqb_spec (transactionTimeHash transaction) responseData)
        as [Heq | Hne].
      * cbn [fst]. exists [], rest. repeat split; [constructor | ].
        unfold agrees. now rewrite Hpeer, Heq.
      * assert (Hthis : disagrees peer transaction).
        { exists responseData. split; [exact Hpeer | congruence]. }
        destruct (fst (firstValidTransaction peer rest s))
          as [[[found | ] | e] | ].
        -- destruct IH as (before & after & -> & Hbefore & Hfound).
           exists (transaction :: before), after.
           repeat split; [constructor | ]; assumption.
        -- constructor; assumption.
        -- destruct IH as (before & failed & after & -> & Hbefore & Hfailed).
           exists (transaction :: before), failed, after.
           repeat split; [constructor | ]; assumption.
        -- exact IH.
    + cbn [fst]. exists [], transaction, rest.
      repeat split; [constructor | exact Hpeer].
Qed.

(** X5. Without a hash (or with the empty string, which is falsy) [time]
    answers with the height of the tip and the hash the peer has at that
    height, a pair that [verifyBlock] accepts; the processor is left as it
    was. *)
Theorem time_without_hash_is_the_tip :
  forall peer getblockHeader s answer,
    fst (time peer getblockHeader None s) = Done (Ok answer) ->
    getblockcount peer = Ok (blockchain_time answer)
    /\ getblockhash peer (blockchain_time answer)
       = Ok (blockchain_hash answer)
    /\ verifyBlock peer (blockchain_time answer) (blockchain_hash answer) s
       = (Done (Ok true), s)
    /\ snd (time peer getblockHeader None s) = s
    /\ time peer getblockHeader (Some "") s = time peer getblockHeader None s.
Proof.
  intros peer getblockHeader s answer.
  unfold time, verifyBlock, getCurrentBlockHeight, getBlockHash, await, bind,
    ret.
  cbn [JS.truthyString String.eqb negb].
  destruct (getblockcount peer) as [blockHeight | e]; [ | discriminate].
  destruct (getblockhash peer blockHeight) as [blockHash | e] eqn:Hhash;
    [ | discriminate].
  cbn [fst snd]. intros H. injection H as <-.
  cbn [blockchain_time blockchain_hash]. rewrite Hhash, String.eqb_refl.
  repeat split.
Qed.

Lemma time_without_hash_is_the_tip_witness :
  getblockcount Scenario.quietPeer
  = Ok (blockchain_time (mkBlockchainTime 12 "hash12"))
  /\ getblockhash Scenario.quietPeer
       (blockchain_time (mkBlockchainTime 12 "hash12"))
     = Ok (blockchain_hash (mkBlockchainTime 12 "hash12"))
  /\ verifyBlock Scenario.quietPeer
       (blockchain_time (mkBlockchainTime 12 "hash12"))
       (blockchain_hash (mkBlockchainTime 12 "hash12")) Scenario.quietState
     = (Done (Ok true), Scenario.quietState)
  /\ snd (time Scenario.quietPeer MoreScenarios.quietHeader None
            Scenario.quietState)
     = Scenario.quietState
  /\ time Scenario.quietPeer MoreScenarios.quietHeader (Some "")
       Scenario.quietState
     = time Scenario.quietPeer MoreScenarios.quietHeader None
         Scenario.quietState.
Proof.
  apply (@time_without_hash_is_the_tip Scenario.quietPeer
           MoreScenarios.quietHeader Scenario.quietState
           (mkBlockchainTime 12 "hash12")).
  reflexivity.
Defined.

(** ** Frames *)

Section Within.

Variable R : State -> State -> Prop.
Hypothesis R_refl : forall s, R s s.
Hypothesis R_trans : forall s1 s2 s3, R s1 s2 -> R s2 s3 -> R s1 s3.

Lemma within_ret {A} (a : A) : within R (ret a).
Proof. intros s. apply R_refl. Qed.

Lemma within_throw {A} (e : Exn) : within R (@throw A e).
Proof. intros s. apply R_refl. Qed.

Lemma within_await {A} (answer : Res A) : within R (await answer).
Proof. intros s. apply R_refl. Qed.

Lemma within_gets {A} (f : State -> A) : within R (gets f).
Proof. intros s. apply R_refl. Qed.

Lemma within_outOfFuel {A} : within R (@outOfFuel A).
Proof. intros s. apply R_refl. Qed.

Lemma within_modify (f : State -> State) :
  (forall s, R s (f s)) -> within R (modify f).
Proof. intros Hf s. apply Hf. Qed.

Lemma within_bind {A B} (c : M A) (k : A -> M B) :
  within R c -> (forall a, within R (k a)) -> within R (x <- c ;; k x).
Proof.
  intros Hc Hk s. unfold bind. specialize (Hc s).
  destruct (c s) as [[[a | e] | ] s1]; cbn [snd] in *; try exact Hc.
  apply R_trans with s1; [exact Hc | apply Hk].
Qed.

Lemma within_tryCatch {A} (c : M A) (h : Exn -> M A) :
  within R c -> (forall e, within R (h e)) -> within R (tryCatch c h).
Proof.
  intros Hc Hh s. unfold tryCatch. specialize (Hc s).
  destruct (c s) as [[[a | e] | ] s1]; cbn [snd] in *; try exact Hc.
  apply R_trans with s1; [exact Hc | apply Hh].
Qed.

Lemma within_mapM {A B} (f : A -> M B) (l : list A) :
  (forall a, within R (f a)) -> within R (mapM f l).
Proof.
  intros Hf. induction l as [ | a rest IH]; cbn [mapM].
  - apply within_ret.
  - apply within_bind; [apply Hf | intros b].
    apply within_bind; [apply IH | intros bs; apply within_ret].
Qed.

Ltac within_step :=
  first [ apply within_ret | apply within_throw | apply within_await
        | apply within_gets | apply within_outOfFuel
        | apply within_bind; [ | intro ]
        | apply within_tryCatch; [ | intro ] ].

(** *** Reading the peer *)

Variable config : Config.
Variable peer : Peer.

Lemma within_verifyBlock height hash :
  within R (verifyBlock peer height hash).
Proof. unfold verifyBlock, getBlockHash. repeat within_step. Qed.

Lemma within_firstValidTransaction transactions :
  within R (firstValidTransaction peer transactions).
Proof.
  induction transactions as [ | transaction rest IH];
    cbn [firstValidTransaction]; [within_step | ].
  within_step; [apply within_verifyBlock | ].
  match goal with |- within R (if ?valid then _ else _) => destruct valid end;
    [within_step | apply IH].
Qed.

Lemma within_getTransactionOutValueInSatoshi txid outIdx :
  within R (getTransactionOutValueInSatoshi peer txid outIdx).
Proof.
  unfold getTransactionOutValueInSatoshi. within_step; [within_step | ].
  destruct (find _ _); within_step.
Qed.

Lemma within_sumInputs inputs :
  forall sum, within R (sumInputs peer inputs sum).
Proof.
  induction inputs as [ | input rest IH]; intros sum; cbn [sumInputs].
  - within_step.
  - within_step; [apply within_getTransactionOutValueInSatoshi | apply IH].
Qed.

Lemma within_getTransactionFeeInSatoshi txid :
  within R (getTransactionFeeInSatoshi peer txid).
Proof.
  unfold getTransactionFeeInSatoshi. within_step; [within_step | ].
  within_step; [apply within_sumInputs | within_step].
Qed.

Lemma within_scanVOuts outputs :
  forall transactionIndex block blockHash found,
    within R (scanVOuts config outputs transactionIndex block blockHash found).
Proof.
  induction outputs as [ | output rest IH]; intros i b h found.
  - cbn [scanVOuts]. within_step.
  - rewrite scanVOuts_cons.
    destruct (anchorData config output); [destruct found | ];
      solve [within_step | apply IH].
Qed.

(** *** Processing blocks *)

Section Forward.

Hypothesis R_addTransaction :
  forall record s, R s (withStore (TransactionStore.addTransaction record) s).
Hypothesis R_sampler :
  forall call s, R s (withSampler (fun calls => calls ++ [call]) s).

Lemma within_processBlockTransaction transaction transactionIndex block
      blockHash :
  within R (processBlockTransaction config peer transaction transactionIndex
              block blockHash).
Proof.
  unfold processBlockTransaction.
  destruct (vout transaction) as [outputs | ]; [ | within_step].
  within_step; [ | within_step].
  within_step.
  - unfold addValidSidetreeTransactionsFromVOutsToTransactionStore.
    within_step; [apply within_scanVOuts | ].
    match goal with found : option TransactionModel |- _ => destruct found end;
      [ | within_step].
    within_step; [apply within_getTransactionFeeInSatoshi | ].
    within_step; [apply within_modify; intro; apply R_addTransaction | ].
    within_step.
  - within_step; [destruct (vin transaction); within_step | ].
    match goal with |- within R (if ?test then _ else _) => destruct test end;
      [apply within_modify; intro; apply R_sampler | within_step].
Qed.

Lemma within_processBlockTransactions transactions :
  forall transactionIndex block blockHash,
    within R (processBlockTransactions config peer transactions
                transactionIndex block blockHash).
Proof.
  induction transactions as [ | transaction rest IH]; intros i b h;
    cbn [processBlockTransactions].
  - within_step.
  - within_step; [apply within_processBlockTransaction | apply IH].
Qed.

Variable getSample : list SamplerCall -> list string.
Variable quantileAdd :
  Z -> list Z -> QuantileCalculator.t -> Res QuantileCalculator.t.

Hypothesis R_console : forall line s, R s (withConsole line s).

(** A block that is not a batch boundary. *)
Lemma within_processBlock_inside block :
  isBatchBoundary config block = false ->
  within R (processBlock config peer getSample quantileAdd block).
Proof.
  intros Hinside. unfold processBlock. rewrite Hinside.
  within_step; [apply within_modify; intro; apply R_console | ].
  within_step; [unfold getBlockHash; within_step | ].
  within_step; [within_step | ].
  within_step; [apply within_modify; intro; apply R_sampler | ].
  within_step; [apply within_processBlockTransactions | ].
  repeat within_step.
Qed.

Hypothesis R_quantile :
  forall snapshots s, R s (withQuantile (fun _ => snapshots) s).

Lemma within_processBlock block :
  within R (processBlock config peer getSample quantileAdd block).
Proof.
  unfold processBlock.
  within_step; [apply within_modify; intro; apply R_console | ].
  within_step; [unfold getBlockHash; within_step | ].
  within_step; [within_step | ].
  within_step; [apply within_modify; intro; apply R_sampler | ].
  within_step; [apply within_processBlockTransactions | ].
  within_step; [ | within_step].
  destruct (isBatchBoundary config block); [ | within_step].
  within_step; [within_step | ].
  within_step;
    [apply within_mapM; intro; apply within_getTransactionFeeInSatoshi | ].
  within_step; [within_step | ].
  within_step; [within_step | ].
  within_step; [apply within_modify; intro; apply R_quantile | ].
  apply within_modify; intro; apply R_sampler.
Qed.

Lemma within_processBlockRange remaining :
  forall blockHeight,
    within R (processBlockRange config peer getSample quantileAdd remaining
                blockHeight).
Proof.
  induction remaining as [ | remaining IH]; intros b;
    cbn [processBlockRange].
  - within_step.
  - within_step; [apply within_processBlock | apply IH].
Qed.

End Forward.

(** *** Rolling back *)

Section Backward.

Hypothesis R_remove :
  forall number s,
    R s (withStore (TransactionStore.removeTransactionsLaterThan number) s).
Hypothesis R_clear :
  forall s, R s (withSampler (fun calls => calls ++ [Clear]) s).
Hypothesis R_removeBatches :
  forall batchId s,
    R s (withQuantile
           (QuantileCalculator.removeBatchesGreaterThanOrEqual batchId) s).

Lemma within_revertIteration : within R (revertIteration config peer).
Proof.
  unfold revertIteration. within_step; [within_step | ].
  within_step; [apply within_firstValidTransaction | ].
  match goal with found : option TransactionModel |- _ => destruct found end.
  - within_step; [apply within_modify; intro; apply R_remove | ].
    within_step; [apply within_modify; intro; apply R_clear | ].
    within_step; [apply within_modify; intro; apply R_removeBatches | ].
    within_step.
  - destruct (last _ None); [ | within_step].
    within_step; [apply within_modify; intro; apply R_remove | within_step].
Qed.

Lemma within_revertBlockchainCache fuel :
  within R (revertBlockchainCache config peer fuel).
Proof.
  induction fuel as [ | fuel IH]; cbn [revertBlockchainCache];
    [within_step | ].
  within_step; [within_step | ].
  match goal with |- within R (if ?test then _ else _) => destruct test end;
    [ | within_step].
  within_step; [apply within_revertIteration | ].
  match goal with step : (Z + unit)%type |- _ => destruct step end;
    [within_step | apply IH].
Qed.

End Backward.

End Within.

(** ** The sync loop, on its other paths *)

Lemma heightsFrom_length count :
  forall start, List.length (heightsFrom count start) = count.
Proof.
  induction count as [ | count IH]; intros start; cbn [heightsFrom List.length];
    [reflexivity | now rewrite IH].
Qed.

Lemma heightsFrom_firstn started :
  forall count start,
    (started <= count)%nat ->
    firstn started (heightsFrom count start) = heightsFrom started start.
Proof.
  induction started as [ | started IH]; intros count start Hstarted.
  - reflexivity.
  - destruct count as [ | count]; [lia | ].
    cbn [heightsFrom firstn]. f_equal. apply IH. lia.
Qed.

Section SyncPaths.

Variable config : Config.
Variable peer : Peer.
Variable getSample : list SamplerCall -> list string.
Variable quantileAdd :
  Z -> list Z -> QuantileCalculator.t -> Res QuantileCalculator.t.

Lemma processTransactions_after_start fuel startBlock endBlockHeight s
      start s1 tip :
  match startBlock with
  | Some startBlock' =>
      (startValid <-
         verifyBlock peer (height startBlock') (hash startBlock') ;;
       if negb startValid
       then revertBlockchainCache config peer fuel
       else ret (height startBlock')) s
  | None => ret (genesisBlockNumber config) s
  end = (Done (Ok start), s1) ->
  match endBlockHeight with
  | Some given => given = tip
  | None => getblockcount peer = Ok tip
  end ->
  processTransactions config peer getSample quantileAdd fuel startBlock
    endBlockHeight s
  = syncBetween config peer getSample quantileAdd start tip s1.
Proof.
  intros Hstart Hend. unfold processTransactions, syncBetween.
  unfold bind at 1.
  destruct startBlock as [startBlock' | ]; rewrite Hstart;
    (destruct endBlockHeight as [given | ];
     [subst given | unfold getCurrentBlockHeight; rewrite Hend]);
    reflexivity.
Qed.

(** A sync from [start] to a tip that is not below it, both at or after
    genesis. *)
Lemma syncBetween_console start tip s :
  genesisBlockNumber config <= start ->
  start <= tip ->
  let heights := heightsFrom (Z.to_nat (tip - start + 1)) start in
  let run := syncBetween config peer getSample quantileAdd start tip s in
  fst run <> OutOfFuel
  /\ (exists started,
         (started <= List.length heights)%nat
         /\ console (snd run)
            = console s ++ map ProcessingBlock (firstn started heights))
  /\ (forall synced,
         fst run = Done (Ok synced) ->
         console (snd run) = console s ++ map ProcessingBlock heights
         /\ height synced = tip).
Proof.
  intros Hgenesis Hle heights run. unfold run, syncBetween.
  destruct (Z.ltb_spec start (genesisBlockNumber config)); [lia | ].
  destruct (Z.ltb_spec tip (genesisBlockNumber config)); [lia | ].
  cbn [orb].
  pose proof (sync_console config peer getSample quantileAdd
                (Z.to_nat (tip - start)) start s) as Hsync.
  cbv zeta in Hsync.
  replace (start + Z.of_nat (Z.to_nat (tip - start))) with tip in Hsync by lia.
  destruct Hsync as (Hreturns & (started & Hstarted & Hconsole) & Hdone).
  unfold heights.
  replace (Z.to_nat (tip - start + 1)) with (S (Z.to_nat (tip - start)))
    by lia.
  rewrite heightsFrom_length.
  split; [exact Hreturns | ]. split; [ | exact Hdone].
  exists started. split; [exact Hstarted | ].
  now rewrite heightsFrom_firstn.
Qed.

(** The rollback on a log in which a probe survives. *)
Lemma revertBlockchainCache_survivor fuel s survivor :
  fst (firstValidTransaction peer
         (TransactionStore.getExponentiallySpacedTransactions
            (transactionStore s)) s)
  = Done (Ok (Some survivor)) ->
  let revertToBlockNumber :=
    roundToBatchBoundary config (transactionTime survivor + 1) in
  revertBlockchainCache config peer (S fuel) s
  = (Done (Ok revertToBlockNumber),
     withQuantile
       (QuantileCalculator.removeBatchesGreaterThanOrEqual revertToBlockNumber)
       (withSampler (fun calls => calls ++ [Clear])
          (withStore
             (TransactionStore.removeTransactionsLaterThan
                (TransactionNumber.construct revertToBlockNumber 0 - 1))
             s))).
Proof.
  intros Hsurvivor revertToBlockNumber.
  pose proof (survivor_log_not_empty peer s Hsurvivor) as Hcount.
  pose proof (revertIteration_survivor config peer s Hsurvivor) as Hstep.
  cbv zeta in Hstep.
  cbn [revertBlockchainCache]. unfold bind at 1, gets.
  apply Z.ltb_lt in Hcount. rewrite Hcount.
  unfold bind. rewrite Hstep. reflexivity.
Qed.

End SyncPaths.

(** X6. [processTransactions] refuses to work before genesis: when the start
    height (genesis itself when no start block is given, the height of a start
    block that still has its hash otherwise) or the tip is below the genesis
    block it throws, and it has processed no block and changed nothing. *)
Theorem processTransactions_refuses_blocks_before_genesis :
  forall config peer getSample quantileAdd fuel startBlock tip s,
    match startBlock with
    | Some from => getblockhash peer (height from) = Ok (hash from)
    | None => True
    end ->
    getblockcount peer = Ok tip ->
    match startBlock with
    | Some from => height from < genesisBlockNumber config
    | None => False
    end
    \/ tip < genesisBlockNumber config ->
    processTransactions config peer getSample quantileAdd fuel startBlock
      None s
    = (Done (Throw (Error "Cannot process Transactions before genesis")), s).
Proof.
  intros config peer getSample quantileAdd fuel startBlock tip s
         Hvalid Htip Hbefore.
  rewrite (@processTransactions_after_start config peer getSample quantileAdd
             fuel startBlock None s
             match startBlock with
             | Some from => height from
             | None => genesisBlockNumber config
             end s tip).
  - unfold syncBetween.
    destruct startBlock as [from | ].
    + destruct (Z.ltb_spec (height from) (genesisBlockNumber config));
        destruct (Z.ltb_spec tip (genesisBlockNumber config));
        try reflexivity; lia.
    + destruct (Z.ltb_spec tip (genesisBlockNumber config));
        [now rewrite orb_true_r | destruct Hbefore as [[] | ]; lia].
  - destruct startBlock as [from | ]; [ | reflexivity].
    unfold verifyBlock, getBlockHash, await, bind, ret.
    rewrite Hvalid, String.eqb_refl. reflexivity.
  - exact Htip.
Qed.

Lemma processTransactions_refuses_blocks_before_genesis_witness :
  processTransactions Scenario.configA Scenario.quietPeer Scenario.sampleAll
    Scenario.addMaximum 0 None None Scenario.emptyState
  = (Done (Throw (Error "Cannot process Transactions before genesis")),
     Scenario.emptyState).
Proof.
  apply (@processTransactions_refuses_blocks_before_genesis Scenario.configA
           Scenario.quietPeer Scenario.sampleAll Scenario.addMaximum 0%nat
           None 12 Scenario.emptyState).
  - exact I.
  - reflexivity.
  - right. cbn. lia.
Defined.

(** X7. When no start block is given, [processTransactions] returns, and it
    calls [processBlock] on the genesis block and the blocks after it, in
    this order and once each; a run that completes has gone through all of
    them up to the tip and returns the tip. *)
Theorem processTransactions_without_start_begins_at_genesis :
  forall config peer getSample quantileAdd fuel tip s,
    getblockcount peer = Ok tip ->
    genesisBlockNumber config <= tip ->
    let heights :=
      heightsFrom (Z.to_nat (tip - genesisBlockNumber config + 1))
                  (genesisBlockNumber config) in
    let run :=
      processTransactions config peer getSample quantileAdd fuel None None s in
    fst run <> OutOfFuel
    /\ (exists started,
           (started <= List.length heights)%nat
           /\ console (snd run)
              = console s ++ map ProcessingBlock (firstn started heights))
    /\ (forall synced,
           fst run = Done (Ok synced) ->
           console (snd run) = console s ++ map ProcessingBlock heights
           /\ height synced = tip).
Proof.
  intros config peer getSample quantileAdd fuel tip s Htip Hle heights run.
  unfold run.
  rewrite (@processTransactions_after_start config peer getSample quantileAdd
             fuel None None s (genesisBlockNumber config) s tip);
    [ | reflexivity | exact Htip].
  apply syncBetween_console; lia.
Qed.

Lemma processTransactions_without_start_begins_at_genesis_witness :
  let heights := heightsFrom (Z.to_nat (103 - 100 + 1)) 100 in
  let run :=
    processTransactions Scenario.configA Scenario.peerA Scenario.sampleAll
      Scenario.addMaximum 0 None None Scenario.emptyState in
  fst run <> OutOfFuel
  /\ (exists started,
         (started <= List.length heights)%nat
         /\ console (snd run)
            = console Scenario.emptyState
              ++ map ProcessingBlock (firstn started heights))
  /\ (forall synced,
         fst run = Done (Ok synced) ->
         console (snd run)
         = console Scenario.emptyState ++ map ProcessingBlock heights
         /\ height synced = 103).
Proof.
  apply (@processTransactions_without_start_begins_at_genesis Scenario.configA
           Scenario.peerA Scenario.sampleAll Scenario.addMaximum 0%nat 103
           Scenario.emptyState).
  - reflexivity.
  - cbn. lia.
Defined.

(** X8. When the end height given to [processTransactions] is below the
    height of a start block that still has its hash (and not below genesis),
    the loop over the blocks is skipped and [processBlock] is called on the
    end height alone: a run that completes returns the end height, below the
    block it started from. *)
Theorem processTransactions_with_an_end_below_its_start :
  forall config peer getSample quantileAdd fuel from endBlockHeight s,
    getblockhash peer (height from) = Ok (hash from) ->
    genesisBlockNumber config <= endBlockHeight ->
    endBlockHeight < height from ->
    let run :=
      processTransactions config peer getSample quantileAdd fuel (Some from)
        (Some endBlockHeight) s in
    run = (hash <- processBlock config peer getSample quantileAdd
                     endBlockHeight ;;
           ret (mkBlockInfo endBlockHeight hash)) s
    /\ console (snd run) = console s ++ [ProcessingBlock endBlockHeight]
    /\ fst run <> OutOfFuel.
Proof.
  intros config peer getSample quantileAdd fuel from e s Hvalid Hgenesis Hlt
         run.
  assert (Hrun :
    run = (hash <- processBlock config peer getSample quantileAdd e ;;
           ret (mkBlockInfo e hash)) s).
  { unfold run.
    rewrite (@processTransactions_after_start config peer getSample
               quantileAdd fuel (Some from) (Some e) s (height from) s e);
      [ | | reflexivity].
    - unfold syncBetween.
      destruct (Z.ltb_spec (height from) (genesisBlockNumber config));
        [lia | ].
      destruct (Z.ltb_spec e (genesisBlockNumber config)); [lia | ].
      cbn [orb]. replace (Z.to_nat (e - height from)) with 0%nat by lia.
      reflexivity.
    - unfold verifyBlock, getBlockHash, await, bind, ret.
      rewrite Hvalid, String.eqb_refl. reflexivity. }
  split; [exact Hrun | ]. rewrite Hrun. unfold bind.
  destruct (processBlock_console config peer getSample quantileAdd e s)
    as [Hline Hreturns].
  destruct (processBlock config peer getSample quantileAdd e s)
    as [[[blockHash | error] | ] s1]; cbn [fst snd ret] in *;
    (split; [exact Hline | congruence]).
Qed.

Lemma processTransactions_with_an_end_below_its_start_witness :
  let run :=
    processTransactions Scenario.config4 Scenario.quietPeer Scenario.sampleAll
      Scenario.addMaximum 0 (Some (mkBlockInfo 12 "hash12")) (Some 10)
      Scenario.quietState in
  run = (hash <- processBlock Scenario.config4 Scenario.quietPeer
                   Scenario.sampleAll Scenario.addMaximum 10 ;;
         ret (mkBlockInfo 10 hash)) Scenario.quietState
  /\ console (snd run)
     = console Scenario.quietState ++ [ProcessingBlock 10]
  /\ fst run <> OutOfFuel.
Proof.
  apply (@processTransactions_with_an_end_below_its_start Scenario.config4
           Scenario.quietPeer Scenario.sampleAll Scenario.addMaximum 0%nat
           (mkBlockInfo 12 "hash12") 10 Scenario.quietState).
  - reflexivity.
  - cbn. lia.
  - cbn. lia.
Defined.

(** X9. When the start block has lost its hash on the peer and a probe of
    the log survives, [processTransactions] first rolls back and then
    resumes at the block the rollback returned, the first block of the batch
    of [survivor.height + 1]: provided that block is not before genesis nor
    above the tip, [processBlock] is called on it and on the blocks after
    it, in this order and once each, up to the tip for a run that
    completes. *)
Theorem processTransactions_resumes_at_the_reverted_block :
  forall config peer getSample quantileAdd fuel from other survivor tip s,
    getblockhash peer (height from) = Ok other ->
    other <> hash from ->
    fst (firstValidTransaction peer
           (TransactionStore.getExponentiallySpacedTransactions
              (transactionStore s)) s)
    = Done (Ok (Some survivor)) ->
    getblockcount peer = Ok tip ->
    let resume := roundToBatchBoundary config (transactionTime survivor + 1) in
    genesisBlockNumber config <= resume ->
    resume <= tip ->
    let heights := heightsFrom (Z.to_nat (tip - resume + 1)) resume in
    let run :=
      processTransactions config peer getSample quantileAdd (S fuel)
        (Some from) None s in
    fst run <> OutOfFuel
    /\ (exists started,
           (started <= List.length heights)%nat
           /\ console (snd run)
              = console s ++ map ProcessingBlock (firstn started heights))
    /\ (forall synced,
           fst run = Done (Ok synced) ->
           console (snd run) = console s ++ map ProcessingBlock heights
           /\ height synced = tip).
Proof.
  intros config peer getSample quantileAdd fuel from other survivor tip s
         Hother Hne Hsurvivor Htip resume Hgenesis Hle heights run.
  pose proof (revertBlockchainCache_survivor config peer fuel s Hsurvivor)
    as Hrevert.
  cbv zeta in Hrevert. fold resume in Hrevert.
  match type of Hrevert with _ = (_, ?reverted) => set (s1 := reverted) in * end.
  unfold run.
  rewrite (@processTransactions_after_start config peer getSample quantileAdd
             (S fuel) (Some from) None s resume s1 tip);
    [ | | exact Htip].
  - change (console s) with (console s1).
    apply syncBetween_console; assumption.
  - unfold verifyBlock, getBlockHash, await, bind at 1 2, ret.
    rewrite Hother.
    destruct (String.eqb_spec (hash from) other) as [Heq | _]; [congruence | ].
    cbn [negb]. exact Hrevert.
Qed.

Lemma processTransactions_resumes_at_the_reverted_block_witness :
  let resume :=
    roundToBatchBoundary Scenario.config4
      (transactionTime Scenario.anchor5 + 1) in
  let heights := heightsFrom (Z.to_nat (7 - resume + 1)) resume in
  let run :=
    processTransactions Scenario.config4 Scenario.forkedPeer
      Scenario.sampleAll Scenario.addMaximum 1
      (Some (mkBlockInfo 7 "hash7a")) None Scenario.forkedState in
  fst run <> OutOfFuel
  /\ (exists started,
         (started <= List.length heights)%nat
         /\ console (snd run)
            = console Scenario.forkedState
              ++ map ProcessingBlock (firstn started heights))
  /\ (forall synced,
         fst run = Done (Ok synced) ->
         console (snd run)
         = console Scenario.forkedState ++ map ProcessingBlock heights
         /\ height synced = 7).
Proof.
  apply (@processTransactions_resumes_at_the_reverted_block Scenario.config4
           Scenario.forkedPeer Scenario.sampleAll Scenario.addMaximum 0%nat
           (mkBlockInfo 7 "hash7a") "hash7b" Scenario.anchor5 7
           Scenario.forkedState).
  - reflexivity.
  - discriminate.
  - vm_compute. reflexivity.
  - reflexivity.
  - vm_compute. discriminate.
  - vm_compute. discriminate.
Defined.

(** ** What the sync and the rollback leave alone *)

Ltac frame_side :=
  solve [ intros; unfold unchanged, onlyDeleted in *; cbn;
          first [ reflexivity | congruence ] ].

Lemma processBlock_keeps_lastSeenBlock config peer getSample quantileAdd block :
  within (unchanged lastSeenBlock)
         (processBlock config peer getSample quantileAdd block).
Proof. apply within_processBlock; frame_side. Qed.

Lemma revertBlockchainCache_keeps_lastSeenBlock config peer fuel :
  within (unchanged lastSeenBlock) (revertBlockchainCache config peer fuel).
Proof. apply within_revertBlockchainCache; frame_side. Qed.

Lemma processTransactions_keeps_lastSeenBlock config peer getSample
      quantileAdd fuel startBlock endBlockHeight :
  within (unchanged lastSeenBlock)
         (processTransactions config peer getSample quantileAdd fuel
            startBlock endBlockHeight).
Proof.
  unfold processTransactions.
  apply within_bind; [frame_side | | intros startBlockHeight].
  - destruct startBlock as [startBlock' | ];
      [ | apply within_ret; frame_side].
    apply within_bind; [frame_side | | intros startValid].
    + apply within_verifyBlock; frame_side.
    + destruct (negb startValid);
        [apply revertBlockchainCache_keeps_lastSeenBlock
        | apply within_ret; frame_side].
  - apply within_bind; [frame_side | | intros tip].
    + destruct endBlockHeight;
        [apply within_ret | apply within_await]; frame_side.
    + destruct (_ || _); [apply within_throw; frame_side | ].
      apply within_bind; [frame_side | | intros _].
      * apply within_processBlockRange; frame_side.
      * apply within_bind; [frame_side | | intros blockHash].
        -- apply processBlock_keeps_lastSeenBlock.
        -- apply within_ret; frame_side.
Qed.

(** X10. A tick of [periodicPoll] never throws, and it moves
    [lastSeenBlock] only when [processTransactions] has completed: then
    [lastSeenBlock] is the block it returned; when [processTransactions]
    threw, the exception is swallowed and [lastSeenBlock] is what it was
    before the tick, the rest of the state being as the failed run left
    it. *)
Theorem periodicPoll_moves_lastSeenBlock_only_on_success :
  forall config peer getSample quantileAdd fuel s,
    let run :=
      processTransactions config peer getSample quantileAdd fuel
        (lastSeenBlock s) None s in
    let poll := periodicPoll config peer getSample quantileAdd fuel s in
    (forall e, fst poll <> Done (Throw e))
    /\ match fst run with
       | Done (Ok synced) =>
           poll = (Done (Ok tt), withLastSeenBlock (Some synced) (snd run))
       | Done (Throw e) =>
           poll = (Done (Ok tt), snd run)
           /\ lastSeenBlock (snd poll) = lastSeenBlock s
       | OutOfFuel =>
           poll = (OutOfFuel, snd run)
           /\ lastSeenBlock (snd poll) = lastSeenBlock s
       end.
Proof.
  intros config peer getSample quantileAdd fuel s run poll.
  pose proof (@processTransactions_keeps_lastSeenBlock config peer getSample
                quantileAdd fuel (lastSeenBlock s) None s) as Hkept.
  unfold unchanged in Hkept. fold run in Hkept.
  assert (Hpoll :
    poll = match run with
           | (Done (Ok synced), s1) =>
               (Done (Ok tt), withLastSeenBlock (Some synced) s1)
           | (Done (Throw e), s1) => (Done (Ok tt), s1)
           | (OutOfFuel, s1) => (OutOfFuel, s1)
           end).
  { unfold poll, periodicPoll, tryCatch, bind at 1, gets. unfold bind at 1.
    fold run. destruct run as [[[synced | e] | ] s1]; reflexivity. }
  rewrite Hpoll.
  destruct run as [[[synced | e] | ] s1]; cbn [fst snd] in *;
    (split; [intros e'; discriminate | ]); try reflexivity;
    (split; [reflexivity | exact Hkept]).
Qed.

(** X11. When the peer cannot give the hash of a height, or the block of that
    hash, [processBlock] throws what the peer threw and the log, the sampler,
    the snapshots and [lastSeenBlock] are as they were. *)
Theorem processBlock_changes_nothing_when_the_block_is_missing :
  forall config peer getSample quantileAdd block e s,
    getblockhash peer block = Throw e
    \/ (exists hash,
           getblockhash peer block = Ok hash /\ getblock peer hash = Throw e) ->
    processBlock config peer getSample quantileAdd block s
    = (Done (Throw e), withConsole (ProcessingBlock block) s).
Proof.
  intros config peer getSample quantileAdd block e s
         [Hhash | (hash & Hhash & Hblock)];
    unfold processBlock, getBlockHash, await, modify;
    unfold bind at 1 2; rewrite Hhash; [reflexivity | ].
  unfold bind at 1. now rewrite Hblock.
Qed.

Lemma processBlock_changes_nothing_when_the_block_is_missing_witness :
  processBlock Scenario.config4 Scenario.forkedPeer Scenario.sampleAll
    Scenario.addMaximum 4 Scenario.forkedState
  = (Done (Throw (Error "Block not found")),
     withConsole (ProcessingBlock 4) Scenario.forkedState).
Proof.
  apply (@processBlock_changes_nothing_when_the_block_is_missing
           Scenario.config4 Scenario.forkedPeer Scenario.sampleAll
           Scenario.addMaximum 4 (Error "Block not found")
           Scenario.forkedState).
  right. exists "hash". split; reflexivity.
Defined.

Lemma addTransaction_keeps record log :
  incl log (TransactionStore.addTransaction record log).
Proof.
  induction log as [ | r rest IH]; cbn [TransactionStore.addTransaction].
  - intros x [].
  - destruct (transactionNumber record <? transactionNumber r);
      [apply incl_tl, incl_refl | ].
    destruct (transactionNumber record =? transactionNumber r);
      [apply incl_refl | ].
    intros x [<- | Hin]; [now left | right; now apply IH].
Qed.

(** X12. [processBlock] deletes nothing from the log and does not touch
    [lastSeenBlock], whatever its outcome; on a block that is not a batch
    boundary it leaves the snapshots of the quantile calculator as they
    were. *)
Theorem processBlock_never_deletes :
  forall config peer getSample quantileAdd block s,
    let s' := snd (processBlock config peer getSample quantileAdd block s) in
    incl (transactionStore s) (transactionStore s')
    /\ lastSeenBlock s' = lastSeenBlock s
    /\ (isBatchBoundary config block = false ->
        quantileCalculator s' = quantileCalculator s).
Proof.
  intros config peer getSample quantileAdd block s s'. unfold s'.
  split; [ | split].
  - apply (@within_processBlock
             (fun s1 s2 => incl (transactionStore s1) (transactionStore s2)));
      try (intros; cbn; apply incl_refl).
    + intros s1 s2 s3. apply incl_tran.
    + intros record s1. apply addTransaction_keeps.
  - apply processBlock_keeps_lastSeenBlock.
  - intros Hinside.
    apply (@within_processBlock_inside (unchanged quantileCalculator));
      solve [frame_side | exact Hinside].
Qed.

(** ** The rollback, further *)

Lemma onlyDeleted_refl s : onlyDeleted s s.
Proof. repeat split; apply incl_refl. Qed.

Lemma onlyDeleted_trans s1 s2 s3 :
  onlyDeleted s1 s2 -> onlyDeleted s2 s3 -> onlyDeleted s1 s3.
Proof.
  intros (Hlog & Hsnapshots & Hseen & Hconsole)
         (Hlog' & Hsnapshots' & Hseen' & Hconsole').
  repeat split; try congruence; eapply incl_tran; eassumption.
Qed.

(** X13. The rollback only deletes: whatever the log, the peer and the
    outcome, every record and every snapshot of the state it reaches was
    there before, and [lastSeenBlock] and the console are as they were; on
    an empty log it returns the genesis block at once and changes
    nothing. *)
Theorem revertBlockchainCache_only_deletes :
  forall config peer fuel s,
    onlyDeleted s (snd (revertBlockchainCache config peer fuel s))
    /\ (transactionStore s = [] ->
        revertBlockchainCache config peer (S fuel) s
        = (Done (Ok (genesisBlockNumber config)), s)).
Proof.
  intros config peer fuel s. split.
  - apply (@within_revertBlockchainCache onlyDeleted);
      first [ exact onlyDeleted_refl
            | exact onlyDeleted_trans
            | intros; repeat split; cbn; try apply incl_refl;
              apply incl_filter ].
  - intros Hempty. cbn [revertBlockchainCache]. unfold bind, gets.
    rewrite Hempty. reflexivity.
Qed.

Lemma construct_below block other number :
  TransactionNumber.construct block 0 <= number ->
  number <= TransactionNumber.construct other 0 - 1 ->
  block < other.
Proof.
  unfold TransactionNumber.construct. change (2 ^ 24) with 16777216. lia.
Qed.

(** X14. After a rollback in which a probe survived, the log holds the
    records it held in the blocks below the block reverted to, and no other:
    a record that stays was there before and (its number being that of its
    block and an index from 0) is in a block below the reverted block; a
    record of a block below the reverted block (with an index below 2^24)
    stays.  The survivor itself stays only when [survivor.height + 1] is the
    first block of a batch. *)
Theorem rollback_keeps_the_records_below_the_reverted_block :
  forall config peer fuel s survivor,
    0 < batchSizeInBlocks config ->
    fst (firstValidTransaction peer
           (TransactionStore.getExponentiallySpacedTransactions
              (transactionStore s)) s)
    = Done (Ok (Some survivor)) ->
    let resume := roundToBatchBoundary config (transactionTime survivor + 1) in
    let s' := snd (revertBlockchainCache config peer (S fuel) s) in
    (forall r, In r (transactionStore s') ->
               In r (transactionStore s)
               /\ (numbered r -> transactionTime r < resume))
    /\ (forall r, In r (transactionStore s) ->
                  transactionNumber r
                  < TransactionNumber.construct (transactionTime r + 1) 0 ->
                  transactionTime r < resume ->
                  In r (transactionStore s'))
    /\ (numbered survivor -> In survivor (transactionStore s') ->
        resume = transactionTime survivor + 1).
Proof.
  intros config peer fuel s survivor Hsize Hsurvivor resume s'.
  pose proof (revertBlockchainCache_survivor config peer fuel s Hsurvivor)
    as Hrevert.
  cbv zeta in Hrevert. fold resume in Hrevert.
  assert (Hlog :
    transactionStore s'
    = TransactionStore.removeTransactionsLaterThan
        (TransactionNumber.construct resume 0 - 1) (transactionStore s)).
  { unfold s'. rewrite Hrevert. reflexivity. }
  rewrite Hlog. unfold TransactionStore.removeTransactionsLaterThan.
  assert (Hkept : forall r,
             In r (transactionStore s') ->
             In r (transactionStore s)
             /\ (numbered r -> transactionTime r < resume)).
  { intros r Hin. rewrite Hlog in Hin. apply filter_In in Hin.
    destruct Hin as [Hin Hle]. split; [exact Hin | ]. intros Hnumbered.
    apply Z.leb_le in Hle.
    exact (construct_below _ _ Hnumbered Hle). }
  rewrite Hlog in Hkept. unfold TransactionStore.removeTransactionsLaterThan in Hkept.
  split; [exact Hkept | ]. split.
  - intros r Hin Hindex Hbelow. apply filter_In. split; [exact Hin | ].
    apply Z.leb_le. revert Hindex. unfold TransactionNumber.construct.
    change (2 ^ 24) with 16777216. lia.
  - intros Hnumbered Hin. destruct (Hkept survivor Hin) as [_ Hbelow].
    specialize (Hbelow Hnumbered).
    destruct (roundToBatchBoundary_floor config (transactionTime survivor + 1)
                Hsize) as (Hle & _). fold resume in Hle. lia.
Qed.

Lemma rollback_keeps_the_records_below_the_reverted_block_witness :
  let resume :=
    roundToBatchBoundary Scenario.config4
      (transactionTime Scenario.anchor5 + 1) in
  let s' :=
    snd (revertBlockchainCache Scenario.config4 Scenario.forkedPeer 1
           Scenario.forkedState) in
  (forall r, In r (transactionStore s') ->
             In r (transactionStore Scenario.forkedState)
             /\ (numbered r -> transactionTime r < resume))
  /\ (forall r, In r (transactionStore Scenario.forkedState) ->
                transactionNumber r
                < TransactionNumber.construct (transactionTime r + 1) 0 ->
                transactionTime r < resume ->
                In r (transactionStore s'))
  /\ (numbered Scenario.anchor5 -> In Scenario.anchor5 (transactionStore s') ->
      resume = transactionTime Scenario.anchor5 + 1).
Proof.
  apply (@rollback_keeps_the_records_below_the_reverted_block
           Scenario.config4 Scenario.forkedPeer 0 Scenario.forkedState
           Scenario.anchor5).
  - reflexivity.
  - vm_compute. reflexivity.
Defined.

(** ** One transaction of a block *)

Section Steps.

Variable config : Config.
Variable peer : Peer.

Lemma scanVOuts_no_anchor outputs :
  forall transactionIndex block blockHash found s,
    filter (isAnchorOutput config) outputs = [] ->
    scanVOuts config outputs transactionIndex block blockHash found s
    = (Done (Ok found), s).
Proof.
  induction outputs as [ | output rest IH]; intros i b h found s Hnone.
  - reflexivity.
  - rewrite scanVOuts_cons. cbn [filter] in Hnone.
    unfold isAnchorOutput in Hnone at 1.
    destruct (anchorData config output) as [data | ]; [discriminate | ].
    now apply IH.
Qed.


Lemma getTransactionFeeInSatoshi_state txid s :
  snd (getTransactionFeeInSatoshi peer txid s) = s.
Proof.
  apply (@within_getTransactionFeeInSatoshi (unchanged (fun s => s)));
    unfold unchanged; congruence.
Qed.



Lemma processBlockTransaction_no_anchor transaction outputs :
  vout transaction = Some outputs ->
  filter (isAnchorOutput config) outputs = [] ->
  forall transactionIndex block blockHash s,
    processBlockTransaction config peer transaction transactionIndex block
      blockHash s
    = (Done (Ok tt),
       match vin transaction with
       | Some inputs =>
           if Z.of_nat (List.length inputs) <=? maxTransactionInputCount config
           then withSampler
                  (fun calls => calls ++ [AddElement (txid transaction)]) s
           else s
       | None => s
       end).
Proof.
  intros Hvout Hnone i b h s. unfold processBlockTransaction.
  rewrite Hvout.
  unfold addValidSidetreeTransactionsFromVOutsToTransactionStore, tryCatch.
  unfold bind at 1 2. rewrite scanVOuts_no_anchor by exact Hnone.
  cbn [ret]. unfold bind at 1.
  destruct (vin transaction) as [inputs | ]; [ | reflexivity].
  cbn [ret negb andb].
  destruct (Z.of_nat (List.length inputs) <=? maxTransactionInputCount config);
    reflexivity.
Qed.



Lemma addTransaction_In record log r :
  In r (TransactionStore.addTransaction record log) -> r = record \/ In r log.
Proof.
  induction log as [ | first rest IH]; cbn [TransactionStore.addTransaction].
  - intros [<- | []]. now left.
  - destruct (transactionNumber record <? transactionNumber first).
    + intros [<- | Hin]; [now left | now right].
    + destruct (transactionNumber record =? transactionNumber first);
        [now right | ].
      intros [<- | Hin]; [right; now left | ].
      destruct (IH Hin) as [-> | Hrest]; [now left | right; now right].
Qed.

(** What the scan hands over is what it was given or a record of this
    transaction. *)
Lemma scanVOuts_result outputs :
  forall transactionIndex block blockHash found s r,
    fst (scanVOuts config outputs transactionIndex block blockHash found s)
    = Done (Ok (Some r)) ->
    found = Some r
    \/ (transactionNumber r
        = TransactionNumber.construct block transactionIndex
        /\ transactionTime r = block /\ transactionTimeHash r = blockHash).
Proof.
  induction outputs as [ | output rest IH]; intros i b h found s r.
  - cbn. intros H. left. congruence.
  - rewrite scanVOuts_cons.
    destruct (anchorData config output) as [data | ]; [ | apply IH].
    destruct found as [found | ]; [discriminate | ].
    intros H. apply IH in H. destruct H as [H | H]; [ | now right].
    injection H as <-. right. repeat split.
Qed.

Lemma scanVOuts_state outputs transactionIndex block blockHash found s :
  snd (scanVOuts config outputs transactionIndex block blockHash found s) = s.
Proof.
  apply (@within_scanVOuts (unchanged (fun s => s)));
    unfold unchanged; congruence.
Qed.

Lemma processBlockTransaction_adds transaction transactionIndex block
      blockHash s r :
  In r (transactionStore
          (snd (processBlockTransaction config peer transaction
                  transactionIndex block blockHash s))) ->
  In r (transactionStore s)
  \/ (transactionNumber r
      = TransactionNumber.construct block transactionIndex
      /\ transactionTime r = block /\ transactionTimeHash r = blockHash).
Proof.
  unfold processBlockTransaction.
  destruct (vout transaction) as [outputs | ]; [ | now left].
  unfold addValidSidetreeTransactionsFromVOutsToTransactionStore, tryCatch.
  unfold bind at 1 2.
  pose proof (@scanVOuts_result outputs transactionIndex block blockHash
                None s) as Hresult.
  pose proof (scanVOuts_state outputs transactionIndex block blockHash
                None s) as Hstate.
  destruct (scanVOuts config outputs transactionIndex block blockHash None s)
    as [[[[found | ] | e] | ] s1]; cbn [fst snd] in *; subst s1;
    try (now left).
  - destruct (Hresult found eq_refl) as [Hfound | Hfound]; [discriminate | ].
    unfold bind at 1.
    pose proof (getTransactionFeeInSatoshi_state (txid transaction) s)
      as Hfee.
    destruct (getTransactionFeeInSatoshi peer (txid transaction) s)
      as [[[fee | e] | ] s1]; cbn [snd] in *; subst s1; try (now left).
    unfold modify, bind, ret.
    destruct (vin transaction) as [inputs | ]; cbn [negb andb snd];
      (intros Hin; apply addTransaction_In in Hin;
       destruct Hin as [-> | Hin]; [right; exact Hfound | now left]).
  - cbn [ret]. unfold bind at 1.
    destruct (vin transaction) as [inputs | ]; [ | now left].
    cbn [ret negb andb].
    destruct (_ <=? _); now left.
Qed.

Lemma processBlockTransactions_adds transactions :
  forall transactionIndex block blockHash s r,
    In r (transactionStore
            (snd (processBlockTransactions config peer transactions
                    transactionIndex block blockHash s))) ->
    In r (transactionStore s)
    \/ (exists index,
           transactionIndex <= index
           < transactionIndex + Z.of_nat (List.length transactions)
           /\ transactionNumber r = TransactionNumber.construct block index
           /\ transactionTime r = block /\ transactionTimeHash r = blockHash).
Proof.
  induction transactions as [ | transaction rest IH]; intros i b h s r.
  - now left.
  - cbn [processBlockTransactions]. unfold bind.
    pose proof (@processBlockTransaction_adds transaction i b h s r) as Hstep.
    pose proof (@quiet_processBlockTransaction config peer transaction i b h s)
      as [_ Hreturns].
    destruct (processBlockTransaction config peer transaction i b h s)
      as [[[[] | e] | ] s1]; cbn [fst snd] in *.
    + intros Hin. apply IH in Hin. destruct Hin as [Hin | (index & Hi & Hr)].
      * destruct (Hstep Hin) as [Hold | Hnew]; [now left | right].
        exists i. cbn [List.length]. split; [lia | exact Hnew].
      * right. exists index. cbn [List.length]. split; [lia | exact Hr].
    + intros Hin. destruct (Hstep Hin) as [Hold | Hnew]; [now left | right].
      exists i. cbn [List.length]. split; [lia | exact Hnew].
    + congruence.
Qed.

End Steps.

Lemma snd_bind {A B} (c : M A) (k : A -> M B) (s : State) :
  snd ((x <- c ;; k x) s)
  = match c s with
    | (Done (Ok a), s1) => snd (k a s1)
    | (_, s1) => s1
    end.
Proof. unfold bind. now destruct (c s) as [[[a | e] | ] s1]. Qed.

Ltac frame :=
  repeat first
    [ frame_side
    | apply within_ret | apply within_throw | apply within_await
    | apply within_gets
    | apply within_getTransactionFeeInSatoshi
    | apply within_mapM; [ | | intro ]
    | apply within_bind; [ | | intro ]
    | apply within_modify ].

(** X17. Whatever its outcome, [processBlock] adds to the log only records
    of the block it was given: a record of the log after the call that was
    not in the log before has [transactionTime] the height processed,
    [transactionTimeHash] the [hash] member of the block the peer returned
    for that height, and the number [construct(block, index)] for the
    position [index] of some transaction of that block. *)
Theorem processBlock_adds_the_anchors_of_the_block :
  forall config peer getSample quantileAdd block s r,
    In r (transactionStore
            (snd (processBlock config peer getSample quantileAdd block s))) ->
    In r (transactionStore s)
    \/ (exists hash responseData index,
           getblockhash peer block = Ok hash
           /\ getblock peer hash = Ok responseData
           /\ 0 <= index < Z.of_nat (List.length (tx responseData))
           /\ transactionNumber r = TransactionNumber.construct block index
           /\ transactionTime r = block
           /\ transactionTimeHash r = block_hash responseData).
Proof.
  intros config peer getSample quantileAdd block s r.
  unfold processBlock. rewrite snd_bind. cbn [modify].
  rewrite snd_bind. unfold getBlockHash. unfold await at 1.
  destruct (getblockhash peer block) as [hash | e] eqn:Hhash; [ | now left].
  rewrite snd_bind. unfold await at 1.
  destruct (getblock peer hash) as [responseData | e] eqn:Hblock;
    [ | now left].
  cbv zeta. rewrite snd_bind. cbn [modify]. rewrite snd_bind.
  match goal with
  | |- context [processBlockTransactions ?c ?p ?t ?i ?b ?h ?s0] =>
      pose proof (@processBlockTransactions_adds c p t i b h s0 r) as Hadds;
      destruct (processBlockTransactions c p t i b h s0)
        as [[[[] | e] | ] s1]
  end; cbn [snd transactionStore withSampler withConsole] in Hadds;
    (assert (Hadds' :
       In r (transactionStore s1) ->
       In r (transactionStore s)
       \/ (exists hash' data index,
              Ok hash = Ok hash'
              /\ getblock peer hash' = Ok data
              /\ 0 <= index < Z.of_nat (List.length (tx data))
              /\ transactionNumber r = TransactionNumber.construct block index
              /\ transactionTime r = block
              /\ transactionTimeHash r = block_hash data));
     [ intros Hin; destruct (Hadds Hin) as [Hold | (index & Hindex & Hr)];
       [ now left
       | right; exists hash, responseData, index;
         repeat split; solve [assumption | lia | apply Hr] ]
     | clear Hadds ]).
  - rewrite snd_bind.
    match goal with
    | |- context [match ?c s1 with _ => _ end] =>
        assert (Hkept : transactionStore (snd (c s1)) = transactionStore s1);
        [ | destruct (c s1) as [[[[] | e] | ] s2]; cbn [snd ret] in *;
            rewrite Hkept ]
    end.
    + match goal with
      | |- context [snd (?c s1)] =>
          assert (Hframe : within (unchanged transactionStore) c);
          [ | apply Hframe ]
      end.
      destruct (isBatchBoundary config block); frame.
    + exact Hadds'.
    + exact Hadds'.
    + exact Hadds'.
  - exact Hadds'.
  - exact Hadds'.
Qed.
Lemma processBlock_adds_the_anchors_of_the_block_witness :
  let r :=
    mkTransaction (TransactionNumber.construct 101 3) 101 "hash101" "ghi"
                  10000 in
  In r (transactionStore Scenario.emptyState)
  \/ (exists hash responseData index,
         getblockhash Scenario.anchorPeer 101 = Ok hash
         /\ getblock Scenario.anchorPeer hash = Ok responseData
         /\ 0 <= index < Z.of_nat (List.length (tx responseData))
         /\ transactionNumber r = TransactionNumber.construct 101 index
         /\ transactionTime r = 101
         /\ transactionTimeHash r = block_hash responseData).
Proof.
  apply (@processBlock_adds_the_anchors_of_the_block
           Scenario.config4 Scenario.anchorPeer Scenario.sampleAll
           Scenario.addMaximum 101 Scenario.emptyState).
  vm_compute. left. reflexivity.
Defined.

(** X15. A transaction with outputs none of which is an anchor output leaves
    the log alone and its step ends without an error; its id is offered to
    the fee sampler exactly when the transaction has a [vin] member with no
    more than [maxTransactionInputCount] inputs (a missing [vin] makes the
    step end in the [catch], nothing sampled). *)
Theorem transaction_without_an_anchor_is_only_sampled :
  forall config peer transaction outputs transactionIndex block blockHash s,
    vout transaction = Some outputs ->
    filter (isAnchorOutput config) outputs = [] ->
    processBlockTransaction config peer transaction transactionIndex block
      blockHash s
    = (Done (Ok tt),
       match vin transaction with
       | Some inputs =>
           if Z.of_nat (List.length inputs) <=? maxTransactionInputCount config
           then withSampler
                  (fun calls => calls ++ [AddElement (txid transaction)]) s
           else s
       | None => s
       end).
Proof.
  intros config peer transaction outputs i b h s Hvout Hnone.
  now apply processBlockTransaction_no_anchor with (outputs := outputs).
Qed.

Lemma transaction_without_an_anchor_is_only_sampled_witness :
  processBlockTransaction Scenario.config4 Scenario.anchorPeer
    Scenario.payment 0 101 "hash101" Scenario.emptyState
  = (Done (Ok tt),
     match vin Scenario.payment with
     | Some inputs =>
         if Z.of_nat (List.length inputs)
            <=? maxTransactionInputCount Scenario.config4
         then withSampler
                (fun calls => calls ++ [AddElement (txid Scenario.payment)])
                Scenario.emptyState
         else Scenario.emptyState
     | None => Scenario.emptyState
     end).
Proof.
  apply (@transaction_without_an_anchor_is_only_sampled
           Scenario.config4 Scenario.anchorPeer Scenario.payment
           [mkVOut (4 # 10) 0 Scenario.payToKey] 0 101 "hash101"
           Scenario.emptyState).
  - reflexivity.
  - vm_compute. reflexivity.
Defined.



(** ** The data output *)

Lemma list_ascii_of_string_app (a b : string) :
  list_ascii_of_string (a ++ b)%string
  = list_ascii_of_string a ++ list_ascii_of_string b.
Proof. induction a as [ | c a IH]; cbn; [ | rewrite IH]; reflexivity. Qed.

Lemma string_of_list_ascii_app (a b : list ascii) :
  string_of_list_ascii (a ++ b)
  = (string_of_list_ascii a ++ string_of_list_ascii b)%string.
Proof. induction a as [ | c a IH]; cbn; [ | rewrite IH]; reflexivity. Qed.

Lemma string_append_assoc (a b c : string) :
  ((a ++ b) ++ c)%string = (a ++ b ++ c)%string.
Proof. induction a as [ | d a IH]; cbn; [ | rewrite IH]; reflexivity. Qed.

Lemma span_app {A} (p : A -> bool) (yes no : list A) :
  forallb p yes = true ->
  match no with [] => True | a :: _ => p a = false end ->
  JS.span p (yes ++ no) = (yes, no).
Proof.
  intros Hyes Hno. induction yes as [ | a yes IH]; cbn [app JS.span].
  - destruct no as [ | a no]; [reflexivity | ]. cbn [JS.span]. now rewrite Hno.
  - cbn [forallb] in Hyes. apply andb_prop in Hyes as [Ha Hyes].
    rewrite Ha, (IH Hyes). reflexivity.
Qed.

Lemma span_spec {A} (p : A -> bool) (l : list A) :
  l = fst (JS.span p l) ++ snd (JS.span p l)
  /\ forallb p (fst (JS.span p l)) = true
  /\ match snd (JS.span p l) with [] => True | a :: _ => p a = false end.
Proof.
  induction l as [ | a l (IHl & IHyes & IHno)]; cbn [JS.span].
  - repeat split.
  - destruct (p a) eqn:Ha.
    + destruct (JS.span p l) as [yes no]. cbn [fst snd forallb app] in *.
      rewrite Ha, IHyes. repeat split; [now rewrite IHl at 1 | exact IHno].
    + cbn [fst snd forallb app]. repeat split. exact Ha.
Qed.

Lemma prefix_app (p rest : string) : String.prefix p (p ++ rest) = true.
Proof.
  induction p as [ | c p IH]; cbn; [now destruct rest | ].
  destruct (ascii_dec c c); [exact IH | congruence].
Qed.

Lemma prefix_split (p s : string) :
  String.prefix p s = true -> exists rest, s = (p ++ rest)%string.
Proof.
  revert s. induction p as [ | c p IH]; intros s.
  - intros _. now exists s.
  - destruct s as [ | d s]; cbn; [discriminate | ].
    destruct (ascii_dec c d) as [<- | ]; [ | discriminate].
    intros H. destruct (IH s H) as [rest ->]. now exists rest.
Qed.

Lemma matchOpReturn_matches (before : string) (hex : list ascii) :
  hex <> [] ->
  forallb JS.isHexDigit hex = true ->
  JS.matchOpReturn (before ++ "OP_RETURN " ++ string_of_list_ascii hex)
  = Some (string_of_list_ascii hex).
Proof.
  intros Hnonempty Hhex. unfold JS.matchOpReturn.
  rewrite !list_ascii_of_string_app, list_ascii_of_string_of_list_ascii.
  rewrite !rev_app_distr, <- app_assoc.
  rewrite span_app.
  - destruct (rev hex) as [ | c reversed] eqn:Hrev.
    + apply (f_equal (@rev ascii)) in Hrev. rewrite rev_involutive in Hrev.
      now destruct Hnonempty.
    + rewrite <- Hrev, rev_involutive.
      rewrite string_of_list_ascii_app.
      change (string_of_list_ascii (rev (list_ascii_of_string "OP_RETURN ")))
        with " NRUTER_PO".
      now rewrite prefix_app.
  - rewrite forallb_forall in *. intros c Hc. apply Hhex.
    now apply in_rev.
  - reflexivity.
Qed.

Lemma matchOpReturn_only_matches (asm hex : string) :
  JS.matchOpReturn asm = Some hex ->
  exists before,
    asm = (before ++ "OP_RETURN " ++ hex)%string
    /\ hex <> ""
    /\ forallb JS.isHexDigit (list_ascii_of_string hex) = true.
Proof.
  unfold JS.matchOpReturn.
  destruct (span_spec JS.isHexDigit (rev (list_ascii_of_string asm)))
    as (Hsplit & Hyes & _).
  destruct (JS.span JS.isHexDigit (rev (list_ascii_of_string asm)))
    as [hexReversed beforeReversed]. cbn [fst snd] in *.
  destruct hexReversed as [ | c hexReversed]; [discriminate | ].
  destruct (String.prefix _ _) eqn:Hprefix; [ | discriminate].
  intros H. injection H as <-.
  apply prefix_split in Hprefix as [rest Hrest].
  exists (string_of_list_ascii (rev (list_ascii_of_string rest))).
  split; [ | split].
  - apply (f_equal (@rev ascii)) in Hsplit.
    rewrite rev_involutive, rev_app_distr in Hsplit.
    apply (f_equal string_of_list_ascii) in Hsplit.
    rewrite string_of_list_ascii_of_string in Hsplit. rewrite Hsplit.
    rewrite string_of_list_ascii_app.
    apply (f_equal list_ascii_of_string) in Hrest.
    rewrite list_ascii_of_string_of_list_ascii in Hrest. rewrite Hrest.
    rewrite list_ascii_of_string_app, rev_app_distr.
    rewrite string_of_list_ascii_app.
    change (string_of_list_ascii (rev (list_ascii_of_string " NRUTER_PO")))
      with "OP_RETURN ".
    now rewrite string_append_assoc.
  - intros Hempty. apply (f_equal list_ascii_of_string) in Hempty.
    rewrite list_ascii_of_string_of_list_ascii in Hempty.
    apply (f_equal (@List.length ascii)) in Hempty.
    cbn [rev] in Hempty. rewrite length_app in Hempty.
    cbn in Hempty. lia.
  - rewrite list_ascii_of_string_of_list_ascii.
    rewrite forallb_forall in *. intros d Hd. apply Hyes.
    apply in_rev. exact Hd.
Qed.




(** X18. The pattern [/\s*OP_RETURN ([0-9a-fA-F]+)$/] as the code applies it
    to the script of an output: it matches, with group 1 equal to [hex],
    exactly the scripts that end with [OP_RETURN ], one space, and the
    non-empty run of hex digits [hex]; whatever comes before is ignored. *)
Theorem op_return_pattern_matches_a_hex_suffix :
  forall asm hex,
    JS.matchOpReturn asm = Some hex
    <-> (exists before,
           asm = (before ++ "OP_RETURN " ++ hex)%string
           /\ hex <> EmptyString
           /\ forallb JS.isHexDigit (list_ascii_of_string hex) = true).
Proof.
  intros asm hex. split; [apply matchOpReturn_only_matches | ].
  intros (before & -> & Hnonempty & Hdigits).
  rewrite <- (string_of_list_ascii_of_string hex) at 1 2.
  apply matchOpReturn_matches; [ | exact Hdigits].
  intros Hempty. apply Hnonempty.
  rewrite <- (string_of_list_ascii_of_string hex). now rewrite Hempty.
Qed.




(** ** Every fetch *)

Section EveryFetch.

Variable Response : Type.
Variable requestTimeout : Z.
Variable maxRetries : Z.
Variable nodeFetch : Z -> option Z -> Res Response.
Variable setTimeout : bool.

Let timedOut : Res Response := Throw (FetchError RequestTimeout).
Let attempt (k : Z) : Res Response :=
  nodeFetch k (Fetch.timeoutOfAttempt requestTimeout setTimeout k).
Let loop := Fetch.fetchLoop requestTimeout maxRetries nodeFetch.

Lemma attempt_timed_out_or_not k : attempt k = timedOut \/ attempt k <> timedOut.
Proof.
  unfold timedOut.
  destruct (attempt k) as [response | [status code | message | [] | ]];
    solve [now left | right; discriminate].
Qed.

Lemma fetchLoop_shape fuel :
  forall k,
    k <= maxRetries ->
    maxRetries - k < Z.of_nat fuel ->
    exists count,
      k + Z.of_nat count <= maxRetries
      /\ (forall j, k <= j < k + Z.of_nat count -> attempt j = timedOut)
      /\ (k + Z.of_nat count = maxRetries
          \/ attempt (k + Z.of_nat count) <> timedOut)
      /\ loop fuel setTimeout k
         = (Done (attempt (k + Z.of_nat count)),
            Fetch.timedOutAttempts requestTimeout setTimeout count k
            ++ [Fetch.Attempt
                  (Fetch.timeoutOfAttempt requestTimeout setTimeout
                     (k + Z.of_nat count))]).
Proof.
  induction fuel as [ | fuel IH]; intros k Hk Hfuel; [lia | ].
  destruct (Z.eq_dec k maxRetries) as [Hlast | Hmore];
    [ | destruct (attempt_timed_out_or_not k) as [Htimeout | Hother]].
  - exists 0%nat. cbn [Z.of_nat]. rewrite Z.add_0_r.
    repeat split; [lia | intros j Hj; lia | now left | ].
    apply fetchLoop_stops. left. lia.
  - destruct (IH (k + 1)) as (count & Hle & Hbefore & Hend & Hloop);
      [lia | lia | ].
    exists (S count).
    replace (k + Z.of_nat (S count)) with (k + 1 + Z.of_nat count) by lia.
    repeat split; [lia | | exact Hend | ].
    + intros j Hj. destruct (Z.eq_dec j k) as [-> | Hj'];
        [exact Htimeout | apply Hbefore; lia].
    + unfold loop. rewrite fetchLoop_retries; [ | lia | exact Htimeout].
      fold loop. rewrite Hloop. reflexivity.
  - exists 0%nat. cbn [Z.of_nat]. rewrite Z.add_0_r.
    repeat split; [lia | intros j Hj; lia | now right | ].
    apply fetchLoop_stops. now right.
Qed.

Lemma attemptsOf_timedOutAttempts count :
  forall k rest,
    attemptsOf (Fetch.timedOutAttempts requestTimeout setTimeout count k
                ++ rest)
    = (count + attemptsOf rest)%nat.
Proof.
  induction count as [ | count IH]; intros k rest; [reflexivity | ].
  cbn [Fetch.timedOutAttempts app]. unfold attemptsOf in *. cbn [filter List.length].
  now rewrite IH.
Qed.

Lemma totalWait_timedOutAttempts count :
  forall k rest,
    0 <= k ->
    totalWait (Fetch.timedOutAttempts requestTimeout setTimeout count k
               ++ rest)
    = requestTimeout * 2 ^ k * (2 ^ Z.of_nat count - 1) + totalWait rest.
Proof.
  induction count as [ | count IH]; intros k rest Hk.
  - cbn. lia.
  - cbn [Fetch.timedOutAttempts app totalWait]. rewrite IH by lia.
    rewrite Nat2Z.inj_succ, Z.pow_succ_r by lia.
    rewrite Z.pow_add_r by lia. change (2 ^ 1) with 2. ring.
Qed.

End EveryFetch.

(** X20. Whatever the peer does, with [maxRetries] not negative
    [fetchWithRetry] ends within [maxRetries + 1] passes of its loop: there
    is an [n <= maxRetries] such that the attempts at retry counts
    [0 .. n - 1] timed out, attempt [n] did not or was the last one allowed,
    and the fetch ends with what attempt [n] gave.  It makes [n + 1] calls
    of [nodeFetch] and waits [requestTimeout * (2^n - 1)] milliseconds in
    all, so at most [requestTimeout * (2^maxRetries - 1)] when
    [requestTimeout] is not negative. *)
Theorem fetchWithRetry_ends_within_maxRetries_retries :
  forall (Response : Type) requestTimeout maxRetries
         (nodeFetch : Z -> option Z -> Res Response) (setTimeout : bool)
         (fuel : nat),
    0 <= maxRetries ->
    maxRetries < Z.of_nat fuel ->
    let run :=
      Fetch.fetchWithRetry requestTimeout maxRetries nodeFetch fuel
        setTimeout in
    let attempt (k : Z) :=
      nodeFetch k (Fetch.timeoutOfAttempt requestTimeout setTimeout k) in
    exists n : nat,
      Z.of_nat n <= maxRetries
      /\ fst run = Done (attempt (Z.of_nat n))
      /\ (forall k, 0 <= k < Z.of_nat n ->
                    attempt k = Throw (FetchError RequestTimeout))
      /\ (Z.of_nat n = maxRetries
          \/ attempt (Z.of_nat n) <> Throw (FetchError RequestTimeout))
      /\ attemptsOf (snd run) = S n
      /\ totalWait (snd run) = requestTimeout * (2 ^ Z.of_nat n - 1)
      /\ (0 <= requestTimeout ->
          totalWait (snd run) <= requestTimeout * (2 ^ maxRetries - 1)).
Proof.
  intros Response requestTimeout maxRetries nodeFetch setTimeout fuel
         Hmax Hfuel run attempt.
  destruct (@fetchLoop_shape Response requestTimeout maxRetries nodeFetch
              setTimeout fuel 0) as (n & Hle & Hbefore & Hend & Hloop);
    [lia | lia | ].
  rewrite Z.add_0_l in *.
  exists n. unfold run, Fetch.fetchWithRetry. rewrite Hloop. cbn [fst snd].
  assert (Hwait :
    totalWait
      (Fetch.timedOutAttempts requestTimeout setTimeout n 0
       ++ [Fetch.Attempt
             (Fetch.timeoutOfAttempt requestTimeout setTimeout (Z.of_nat n))])
    = requestTimeout * (2 ^ Z.of_nat n - 1)).
  { rewrite totalWait_timedOutAttempts by lia. cbn [totalWait].
    change (2 ^ 0) with 1. ring. }
  repeat apply conj; try assumption; try reflexivity.
  - rewrite attemptsOf_timedOutAttempts. cbn. lia.
  - intros Hpositive. rewrite Hwait.
    apply Z.mul_le_mono_nonneg_l; [exact Hpositive | ].
    assert (2 ^ Z.of_nat n <= 2 ^ maxRetries)
      by (apply Z.pow_le_mono_r; lia).
    lia.
Qed.

Lemma fetchWithRetry_ends_within_maxRetries_retries_witness :
  let run := Fetch.fetchWithRetry 300 3 Scenario.slowFetch 4 true in
  let attempt (k : Z) :=
    Scenario.slowFetch k (Fetch.timeoutOfAttempt 300 true k) in
  exists n : nat,
    Z.of_nat n <= 3
    /\ fst run = Done (attempt (Z.of_nat n))
    /\ (forall k, 0 <= k < Z.of_nat n ->
                  attempt k = Throw (FetchError RequestTimeout))
    /\ (Z.of_nat n = 3
        \/ attempt (Z.of_nat n) <> Throw (FetchError RequestTimeout))
    /\ attemptsOf (snd run) = S n
    /\ totalWait (snd run) = 300 * (2 ^ Z.of_nat n - 1)
    /\ (0 <= 300 -> totalWait (snd run) <= 300 * (2 ^ 3 - 1)).
Proof.
  apply (@fetchWithRetry_ends_within_maxRetries_retries string 300 3
           Scenario.slowFetch true 4); lia.
Defined.

(** ** The rollback on a chain that shares nothing with the log *)

Lemma firstValidTransaction_none peer transactions :
  Forall (disagrees peer) transactions ->
  forall s,
    firstValidTransaction peer transactions s = (Done (Ok None), s).
Proof.
  induction 1 as [ | transaction rest (answer & Hanswer & Hother) _ IH];
    intros s; [reflexivity | ].
  cbn [firstValidTransaction]. unfold verifyBlock, getBlockHash, await.
  unfold bind at 1 2. rewrite Hanswer. cbn [ret].
  destruct (String.eqb_spec (transactionTimeHash transaction) answer)
    as [Hsame | _]; [now destruct Hother | apply IH].
Qed.

Lemma probes_are_records log r :
  In r (TransactionStore.getExponentiallySpacedTransactions log) -> In r log.
Proof.
  unfold TransactionStore.getExponentiallySpacedTransactions. cbv zeta.
  intros Hin. apply in_flat_map in Hin. destruct Hin as (offset & _ & Hr).
  destruct (nth_error (rev log) offset) as [found | ] eqn:Hnth;
    [ | destruct Hr].
  destruct Hr as [<- | []]. apply nth_error_In in Hnth. now apply in_rev.
Qed.

Lemma withStore_withStore f g s :
  withStore g (withStore f s) = withStore (fun log => g (f log)) s.
Proof. reflexivity. Qed.

Lemma withStore_same s : withStore (fun _ => transactionStore s) s = s.
Proof. now destruct s. Qed.

Lemma filter_ascending p log : ascending log -> ascending (filter p log).
Proof.
  unfold ascending. induction 1 as [ | r rest Hrest IH Hr]; cbn [filter];
    [constructor | ].
  destruct (p r); [ | exact IH]. constructor; [exact IH | ].
  rewrite Forall_forall in *. intros x Hx. apply Hr.
  now apply filter_In in Hx.
Qed.

Lemma filter_Forall {A} (P : A -> Prop) p (l : list A) :
  Forall P l -> Forall P (filter p l).
Proof.
  rewrite !Forall_forall. intros H x Hx. apply H. now apply filter_In in Hx.
Qed.

Section Rewritten.

Variable config : Config.
Variable peer : Peer.

(** A pass on a log none of whose records the peer confirms. *)
Lemma revertIteration_no_survivor s :
  Forall (disagrees peer) (transactionStore s) ->
  transactionStore s <> [] ->
  exists lowest,
    In lowest (transactionStore s)
    /\ last (map Some (TransactionStore.getExponentiallySpacedTransactions
                         (transactionStore s))) None = Some lowest
    /\ revertIteration config peer s
       = (Done (Ok (inr tt)),
          withStore
            (TransactionStore.removeTransactionsLaterThan
               (TransactionNumber.construct (transactionTime lowest) 0)) s).
Proof.
  intros Hrewritten Hnonempty.
  assert (Hnone :
    firstValidTransaction peer
      (TransactionStore.getExponentiallySpacedTransactions
         (transactionStore s)) s = (Done (Ok None), s)).
  { apply firstValidTransaction_none. rewrite Forall_forall in *.
    intros r Hr. apply Hrewritten. now apply probes_are_records. }
  destruct (last (map Some (TransactionStore.getExponentiallySpacedTransactions
                              (transactionStore s))) None)
    as [lowest | ] eqn:Hlast.
  - exists lowest. split; [ | split; [reflexivity | ]].
    + apply probes_are_records. now apply last_Some_In.
    + unfold revertIteration, bind at 1, gets. unfold bind at 1.
      rewrite Hnone, Hlast. reflexivity.
  - exfalso.
    unfold TransactionStore.getExponentiallySpacedTransactions in Hlast.
    destruct (rev (transactionStore s)) as [ | newest others] eqn:Hrev.
    + apply (f_equal (@rev _)) in Hrev. rewrite rev_involutive in Hrev.
      now apply Hnonempty.
    + cbn [flat_map nth_error app] in Hlast.
      now apply last_Some_cons in Hlast.
Qed.

Lemma revertBlockchainCache_rewritten fuel :
  forall s,
    ascending (transactionStore s) ->
    Forall numbered (transactionStore s) ->
    Forall (disagrees peer) (transactionStore s) ->
    (List.length (transactionStore s) < fuel)%nat ->
    revertBlockchainCache config peer fuel s
    = (Done (Ok (genesisBlockNumber config)), withStore (fun _ => []) s)
    \/ (exists r,
          In r (transactionStore s)
          /\ transactionNumber r
             = TransactionNumber.construct (transactionTime r) 0
          /\ (forall more,
                revertBlockchainCache config peer more
                  (withStore (fun _ => [r]) s)
                = (OutOfFuel, withStore (fun _ => [r]) s))
          /\ revertBlockchainCache config peer fuel s
             = (OutOfFuel, withStore (fun _ => [r]) s)).
Proof.
  induction fuel as [ | fuel IH]; intros s Hsorted Hnumbered Hrewritten Hfuel;
    [lia | ].
  assert (Hcases :
    transactionStore s = []
    \/ exists first rest, transactionStore s = first :: rest)
    by (destruct (transactionStore s) as [ | first rest];
        [now left | right; now exists first, rest]).
  destruct Hcases as [Hlog | (first & rest & Hlog)].
  - left. cbn [revertBlockchainCache]. unfold bind, gets. rewrite Hlog.
    cbn. rewrite <- Hlog, withStore_same. reflexivity.
  - destruct (@revertIteration_no_survivor s Hrewritten)
      as (lowest & Hin & Hlast & Hpass); [rewrite Hlog; discriminate | ].
    set (s1 := withStore
                 (TransactionStore.removeTransactionsLaterThan
                    (TransactionNumber.construct (transactionTime lowest) 0))
                 s) in *.
    assert (Hstep :
      revertBlockchainCache config peer (S fuel) s
      = revertBlockchainCache config peer fuel s1).
    { cbn [revertBlockchainCache]. unfold bind at 1, gets.
      unfold TransactionStore.getTransactionsCount. rewrite Hlog.
      cbn [List.length]. destruct (Z.ltb_spec 0 (Z.of_nat (S (List.length rest))));
        [ | lia].
      unfold bind. rewrite Hpass. reflexivity. }
    assert (Hsub : forall r, In r (transactionStore s1) ->
                             In r (transactionStore s)).
    { intros r Hr. cbn in Hr. now apply filter_In in Hr. }
    destruct rest as [ | second rest].
    + (* a lone record *)
      assert (Hlowest : lowest = first).
      { rewrite Hlog in Hin. destruct Hin as [<- | []]. reflexivity. }
      subst lowest.
      assert (Hfirst : numbered first).
      { rewrite Forall_forall in Hnumbered. apply Hnumbered.
        rewrite Hlog. now left. }
      unfold numbered in Hfirst.
      destruct (Z.eq_dec (transactionNumber first)
                  (TransactionNumber.construct (transactionTime first) 0))
        as [Hzero | Hpositive].
      * right. exists first.
        assert (Hsame : withStore (fun _ => [first]) s = s)
          by (rewrite <- Hlog; apply withStore_same).
        rewrite Hsame.
        assert (Hloops : forall more,
                   revertBlockchainCache config peer more s = (OutOfFuel, s)).
        { apply revert_loops_on_any_lone_first_anchor with (r := first);
            [exact Hlog | exact Hzero | ].
          rewrite firstValidTransaction_none; [reflexivity | ].
          now rewrite <- Hlog. }
        repeat apply conj; try apply Hloops.
        -- rewrite Hlog. now left.
        -- exact Hzero.
      * left. rewrite Hstep.
        assert (Hempty : transactionStore s1 = []).
        { cbn. rewrite Hlog. cbn [TransactionStore.removeTransactionsLaterThan
                                    filter].
          destruct (Z.leb_spec (transactionNumber first)
                      (TransactionNumber.construct (transactionTime first) 0));
            [lia | reflexivity]. }
        destruct fuel as [ | fuel]; [rewrite Hlog in Hfuel; cbn in Hfuel; lia | ].
        cbn [revertBlockchainCache]. unfold bind, gets. rewrite Hempty. cbn.
        f_equal. unfold s1, withStore in *. cbn [transactionStore] in Hempty.
        now rewrite Hempty.
    + (* two records or more *)
      assert (Hshrinks :
        (List.length (transactionStore s1) < List.length (transactionStore s))%nat).
      { destruct (@revert_pass_shrinks_longer_logs config peer s)
          as (s' & Hpass' & Hless); try assumption.
        - rewrite Hlog. cbn. lia.
        - rewrite firstValidTransaction_none; [reflexivity | ].
          rewrite Forall_forall in *. intros r Hr. apply Hrewritten.
          now apply probes_are_records.
        - rewrite Hpass in Hpass'. injection Hpass' as <-. exact Hless. }
      rewrite Hstep.
      destruct (IH s1) as [Hends | (r & Hr & Hzero & Hloops & Hends)].
      * now apply filter_ascending.
      * now apply filter_Forall.
      * now apply filter_Forall.
      * lia.
      * left. rewrite Hends. reflexivity.
      * right. exists r. split; [now apply Hsub | ]. split; [exact Hzero | ].
        split; [exact Hloops | exact Hends].
Qed.

End Rewritten.

(** X21. The rollback on a chain that has another hash at the height of
    every record of the log, the log being ascending and its records
    numbered from the first number of their block.  Given more passes than
    the log has records, either it empties the log and returns the genesis
    block, the rest of the processor being as it was, or it never returns:
    it is then stuck, for any number of passes, on a log reduced to one
    record of the original log, a record that is the first transaction of
    its block. *)
Theorem rollback_on_a_rewritten_chain_empties_the_log_or_loops :
  forall config peer fuel s,
    ascending (transactionStore s) ->
    Forall numbered (transactionStore s) ->
    Forall (disagrees peer) (transactionStore s) ->
    (List.length (transactionStore s) < fuel)%nat ->
    revertBlockchainCache config peer fuel s
    = (Done (Ok (genesisBlockNumber config)), withStore (fun _ => []) s)
    \/ (exists r,
          In r (transactionStore s)
          /\ transactionNumber r
             = TransactionNumber.construct (transactionTime r) 0
          /\ (forall more,
                revertBlockchainCache config peer more
                  (withStore (fun _ => [r]) s)
                = (OutOfFuel, withStore (fun _ => [r]) s))
          /\ revertBlockchainCache config peer fuel s
             = (OutOfFuel, withStore (fun _ => [r]) s)).
Proof.
  intros config peer fuel s. apply revertBlockchainCache_rewritten.
Qed.

Lemma rollback_on_a_rewritten_chain_empties_the_log_or_loops_witness :
  revertBlockchainCache Scenario.config4 Scenario.forkedPeer 3
    (mkState [Scenario.anchor6; Scenario.anchor7] [] [] None [])
  = (Done (Ok (genesisBlockNumber Scenario.config4)),
     withStore (fun _ => [])
       (mkState [Scenario.anchor6; Scenario.anchor7] [] [] None []))
  \/ (exists r,
        In r (transactionStore
                (mkState [Scenario.anchor6; Scenario.anchor7] [] [] None []))
        /\ transactionNumber r
           = TransactionNumber.construct (transactionTime r) 0
        /\ (forall more,
              revertBlockchainCache Scenario.config4 Scenario.forkedPeer more
                (withStore (fun _ => [r])
                   (mkState [Scenario.anchor6; Scenario.anchor7] [] [] None
                            []))
              = (OutOfFuel,
                 withStore (fun _ => [r])
                   (mkState [Scenario.anchor6; Scenario.anchor7] [] [] None
                            [])))
        /\ revertBlockchainCache Scenario.config4 Scenario.forkedPeer 3
             (mkState [Scenario.anchor6; Scenario.anchor7] [] [] None [])
           = (OutOfFuel,
              withStore (fun _ => [r])
                (mkState [Scenario.anchor6; Scenario.anchor7] [] [] None
                         []))).
Proof.
  apply (@rollback_on_a_rewritten_chain_empties_the_log_or_loops
           Scenario.config4 Scenario.forkedPeer 3
           (mkState [Scenario.anchor6; Scenario.anchor7] [] [] None [])).
  - repeat constructor.
  - repeat constructor; vm_compute; discriminate.
  - repeat constructor.
    + exists "hash6b". split; [reflexivity | discriminate].
    + exists "hash7b". split; [reflexivity | discriminate].
  - cbn. lia.
Defined.

(** ** Start-up *)

(** X22. The sync of [initialize] starts from the block of the last record
    of the log, which it first stores in [lastSeenBlock], or from no block
    when the log is empty.  When [processTransactions] completes,
    [lastSeenBlock] becomes the block it returned; when it throws, the
    exception leaves [initialize] and [lastSeenBlock] stays at the block of
    the last record (at what it was, with an empty log). *)
Theorem initialize_syncs_from_the_last_record :
  forall config peer getSample quantileAdd fuel s,
    let start :=
      option_map (fun r => mkBlockInfo (transactionTime r)
                                       (transactionTimeHash r))
        (TransactionStore.getLastTransaction (transactionStore s)) in
    let s0 :=
      match start with
      | Some _ => withLastSeenBlock start s
      | None => s
      end in
    let run :=
      processTransactions config peer getSample quantileAdd fuel start None
        s0 in
    let result := initializeSync config peer getSample quantileAdd fuel s in
    match fst run with
    | Done (Ok syncedTo) =>
        result = (Done (Ok tt), withLastSeenBlock (Some syncedTo) (snd run))
    | Done (Throw e) =>
        result = (Done (Throw e), snd run)
        /\ lastSeenBlock (snd result)
           = match start with
             | Some _ => start
             | None => lastSeenBlock s
             end
    | OutOfFuel => result = (OutOfFuel, snd run)
    end.
Proof.
  intros config peer getSample quantileAdd fuel s start s0 run result.
  pose proof (@processTransactions_keeps_lastSeenBlock config peer getSample
                quantileAdd fuel start None s0) as Hkept.
  unfold unchanged in Hkept. fold run in Hkept.
  assert (Hresult :
    result = match run with
             | (Done (Ok syncedTo), s1) =>
                 (Done (Ok tt), withLastSeenBlock (Some syncedTo) s1)
             | (Done (Throw e), s1) => (Done (Throw e), s1)
             | (OutOfFuel, s1) => (OutOfFuel, s1)
             end).
  { unfold result, initializeSync, bind at 1, gets. unfold run, s0, start.
    destruct (TransactionStore.getLastTransaction (transactionStore s))
      as [r | ]; cbn [option_map].
    - unfold bind at 1, modify. unfold bind at 1. unfold bind at 1.
      cbn [lastSeenBlock withLastSeenBlock].
      match goal with
      | |- context [processTransactions ?c ?p ?g ?q ?f ?b ?e ?st] =>
          destruct (processTransactions c p g q f b e st)
            as [[[syncedTo | e'] | ] s1]
      end; reflexivity.
    - unfold bind at 1, modify.
      destruct (processTransactions config peer getSample quantileAdd fuel
                  None None s) as [[[syncedTo | e'] | ] s1]; reflexivity. }
  rewrite Hresult.
  destruct run as [[[syncedTo | e] | ] s1]; cbn [fst snd] in *;
    try reflexivity.
  split; [reflexivity | ]. rewrite Hkept. unfold s0.
  destruct start; reflexivity.
Qed.

(** ** Writing an anchor *)

(** X23. With the coins of the wallet at hand, [writeTransaction] hands to
    [broadcastTransaction] one transaction only, and only when the wallet
    holds at least [bitcoinFee]: the transaction spends the coins, carries
    [sidetreePrefix ++ anchorString] in its data output of 0 satoshis and
    pays [bitcoinFee].  It completes exactly when the balance covers the fee
    and the broadcast returned true, and with a balance below the fee it
    throws the not-enough-satoshis error.  A low-balance notice reports the
    amount missing to [lowBalanceNoticeDays * 144 * bitcoinFee], which is
    positive, and with a positive fee fewer days than
    [lowBalanceNoticeDays]; with a positive fee and a notice period of a
    day or more, a wallet that cannot pay the fee always gets the notice. *)
Theorem writeTransaction_broadcasts_only_what_it_can_pay :
  forall sidetreePrefix bitcoinFee lowBalanceNoticeDays coins
         broadcastTransaction anchorString,
    let run :=
      Wallet.writeTransaction sidetreePrefix bitcoinFee lowBalanceNoticeDays
        (Ok coins) broadcastTransaction anchorString in
    let transaction :=
      Wallet.mkAnchorTransaction coins (sidetreePrefix ++ anchorString) 0
                                 bitcoinFee in
    (forall sent, In (Wallet.Broadcast sent) (snd run) ->
                  sent = transaction /\ bitcoinFee <= totalSatoshis coins)
    /\ (fst run = Ok tt <->
        bitcoinFee <= totalSatoshis coins
        /\ broadcastTransaction transaction = Ok true)
    /\ (totalSatoshis coins < bitcoinFee ->
        fst run
        = Throw (Error ("Not enough satoshis to broadcast. Failed to broadcast anchor string "
                        ++ anchorString)))
    /\ (0 < bitcoinFee -> 1 <= lowBalanceNoticeDays ->
        totalSatoshis coins < bitcoinFee ->
        exists daysLeft amount,
          In (Wallet.LowBalance daysLeft amount) (snd run))
    /\ (forall daysLeft amount,
          In (Wallet.LowBalance daysLeft amount) (snd run) ->
          amount = lowBalanceNoticeDays * (6 * 24) * bitcoinFee
                   - totalSatoshis coins
          /\ 0 < amount
          /\ (0 < bitcoinFee -> daysLeft < lowBalanceNoticeDays)).
Proof.
  intros sidetreePrefix bitcoinFee lowBalanceNoticeDays coins
         broadcastTransaction anchorString run transaction.
  unfold run, Wallet.writeTransaction. cbv zeta.
  fold (totalSatoshis coins). fold transaction.
  set (warned :=
    if totalSatoshis coins <? lowBalanceNoticeDays * (6 * 24) * bitcoinFee
    then _ else _).
  assert (Hwarned : forall sent, ~ In (Wallet.Broadcast sent) warned).
  { intros sent. unfold warned. destruct (_ <? _); cbn; intuition discriminate. }
  assert (Hnotice : forall daysLeft amount event,
             In (Wallet.LowBalance daysLeft amount) (warned ++ event) ->
             (forall d a, ~ In (Wallet.LowBalance d a) event) ->
             amount = lowBalanceNoticeDays * (6 * 24) * bitcoinFee
                      - totalSatoshis coins
             /\ 0 < amount
             /\ (0 < bitcoinFee -> daysLeft < lowBalanceNoticeDays)).
  { intros daysLeft amount event Hin Hevent. apply in_app_or in Hin.
    destruct Hin as [Hin | Hin]; [ | now apply Hevent in Hin].
    unfold warned in Hin.
    destruct (Z.ltb_spec (totalSatoshis coins)
                (lowBalanceNoticeDays * (6 * 24) * bitcoinFee)) as [Hlow | _];
      [ | destruct Hin].
    destruct Hin as [Hin | []].
    assert (Hdays : daysLeft = totalSatoshis coins / (6 * 24 * bitcoinFee))
      by congruence.
    assert (Hamount :
      amount = lowBalanceNoticeDays * (6 * 24) * bitcoinFee
               - totalSatoshis coins) by congruence.
    clear Hin. subst daysLeft amount.
    split; [reflexivity | ]. split; [lia | ]. intros Hfee.
    apply Z.div_lt_upper_bound; [lia | ].
    replace (6 * 24 * bitcoinFee * lowBalanceNoticeDays)
      with (lowBalanceNoticeDays * (6 * 24) * bitcoinFee) by ring.
    exact Hlow. }
  destruct (Z.ltb_spec (totalSatoshis coins) bitcoinFee) as [Hpoor | Hfunded].
  - cbn [fst snd]. repeat apply conj.
    + intros sent Hin. apply in_app_or in Hin.
      destruct Hin as [Hin | [Hin | []]];
        [now apply Hwarned in Hin | discriminate].
    + intros H. discriminate.
    + intros [H _]. lia.
    + reflexivity.
    + intros Hfee Hdays _. unfold warned.
      destruct (Z.ltb_spec (totalSatoshis coins)
                  (lowBalanceNoticeDays * (6 * 24) * bitcoinFee))
        as [_ | Hhigh]; [ | nia].
      eexists. eexists. now left.
    + intros daysLeft amount Hin. apply (Hnotice _ _ _ Hin).
      intros d a [H | []]. discriminate.
  - destruct (broadcastTransaction transaction) as [[ | ] | e] eqn:Hsent;
      cbn [fst snd]; (split; [ | split; [ | split; [ | split]]]);
      try (intros; lia).
    all: try (intros sent Hin; apply in_app_or in Hin;
              destruct Hin as [Hin | Hin]; [now apply Hwarned in Hin | ];
              cbn in Hin; destruct Hin as [Hin | Hin];
              [ injection Hin as <-; split; [reflexivity | lia]
              | solve [ destruct Hin | destruct Hin as [Hin | []];
                                       discriminate ] ]).
    all: try (intros daysLeft amount Hin; apply (Hnotice _ _ _ Hin);
              intros d a Hevent; cbn in Hevent; intuition discriminate).
    all: split;
      [ intros H; first [discriminate | split; [lia | reflexivity]]
      | intros [_ H]; first [discriminate | reflexivity] ].
Qed.

(** ** The batch file, the mock store and the collection set-up *)

Lemma allowed_properties_are_operationsData members :
  forallb BatchFile.allowed
          (BatchFile.propertiesOf (BatchFile.JObject members)) = true ->
  forall member, In member members -> fst member = "operationsData".
Proof.
  cbn [BatchFile.propertiesOf]. rewrite forallb_forall.
  intros Hallowed member Hin.
  specialize (Hallowed (BatchFile.Key (fst member))).
  cbn [BatchFile.allowed] in Hallowed. apply String.eqb_eq, Hallowed.
  apply in_map_iff. now exists member.
Qed.

Lemma find_other_key members name :
  (forall member : string * BatchFile.JSON,
      In member members -> fst member = "operationsData") ->
  name <> "operationsData" ->
  find (fun member : string * BatchFile.JSON => String.eqb (fst member) name)
       members = None.
Proof.
  intros Hkeys Hname. induction members as [ | member rest IH];
    [reflexivity | ].
  cbn [find]. rewrite (Hkeys member) by now left.
  destruct (String.eqb_spec "operationsData" name) as [Hsame | _];
    [now destruct Hname | ].
  apply IH. intros other Hin. apply Hkeys. now right.
Qed.

Lemma validate_outcome maxOperationDataByteSize batchFileObject :
  BatchFile.validate maxOperationDataByteSize batchFileObject
  = if negb (forallb BatchFile.allowed
               (BatchFile.propertiesOf batchFileObject))
    then BatchFile.SidetreeError BatchFile.BatchFileUnexpectedProperty
    else match batchFileObject with
         | BatchFile.JNull => BatchFile.RuntimeTypeError
         | _ => BatchFile.SidetreeError
                  BatchFile.BatchFileOperationDataPropertyNotArray
         end.
Proof.
  unfold BatchFile.validate.
  destruct (forallb BatchFile.allowed (BatchFile.propertiesOf batchFileObject))
    eqn:Hallowed; cbn [negb]; [ | reflexivity].
  destruct batchFileObject as [ | b | v | text | items | members];
    try reflexivity.
  cbn [BatchFile.getProperty].
  rewrite find_other_key; [reflexivity | | discriminate].
  now apply allowed_properties_are_operationsData.
Qed.

(** X24. [BatchFile.parse] returns no model, whatever the buffer: once the
    buffer is decompressed and parsed, an object with a member other than
    [operationsData] (or a non-empty array or string) is refused as
    [BatchFileUnexpectedProperty]; [null] makes the read of
    [operationData] raise a [TypeError]; and every other value, having no
    [operationData] member, is refused as
    [BatchFileOperationDataPropertyNotArray]. *)
Theorem parse_never_returns_a_model :
  forall (Buffer : Type) (decompress : Buffer -> Res Buffer)
         (jsonParse : Buffer -> Res BatchFile.JSON)
         (maxOperationDataByteSize : nat) (batchFileBuffer : Buffer),
    (forall model,
        BatchFile.parse decompress jsonParse maxOperationDataByteSize
          batchFileBuffer <> BatchFile.Parsed model)
    /\ (forall decompressed batchFileObject,
          decompress batchFileBuffer = Ok decompressed ->
          jsonParse decompressed = Ok batchFileObject ->
          BatchFile.parse decompress jsonParse maxOperationDataByteSize
            batchFileBuffer
          = if negb (forallb BatchFile.allowed
                       (BatchFile.propertiesOf batchFileObject))
            then BatchFile.SidetreeError BatchFile.BatchFileUnexpectedProperty
            else match batchFileObject with
                 | BatchFile.JNull => BatchFile.RuntimeTypeError
                 | _ => BatchFile.SidetreeError
                          BatchFile.BatchFileOperationDataPropertyNotArray
                 end).
Proof.
  intros Buffer decompress jsonParse maxOperationDataByteSize batchFileBuffer.
  split.
  - intros model. unfold BatchFile.parse.
    destruct (decompress batchFileBuffer) as [decompressed | e];
      [ | discriminate].
    destruct (jsonParse decompressed) as [batchFileObject | e];
      [ | discriminate].
    rewrite validate_outcome.
    destruct (negb _); [discriminate | ].
    destruct batchFileObject; discriminate.
  - intros decompressed batchFileObject Hdecompressed Hparsed.
    unfold BatchFile.parse. rewrite Hdecompressed, Hparsed.
    apply validate_outcome.
Qed.

(** X25. [BatchFile.parse] refuses every buffer written by
    [BatchFile.fromOperationBuffers]: with a decompressor that undoes the
    compressor and a JSON parser that undoes [JSON.stringify], the object
    read back has the member [operations], which is not an allowed
    property, and [parse] throws [BatchFileUnexpectedProperty]. *)
Theorem parse_refuses_what_fromOperationBuffers_writes :
  forall (Buffer : Type) (decompress compress : Buffer -> Res Buffer)
         (jsonParse : Buffer -> Res BatchFile.JSON)
         (stringify : BatchFile.JSON -> Buffer) (encode : Buffer -> string)
         (maxOperationDataByteSize : nat) (operationBuffers : list Buffer)
         (batchFileBuffer : Buffer),
    (forall raw compressed,
        compress raw = Ok compressed -> decompress compressed = Ok raw) ->
    (forall value, jsonParse (stringify value) = Ok value) ->
    BatchFile.fromOperationBuffers encode stringify compress operationBuffers
    = Ok batchFileBuffer ->
    BatchFile.parse decompress jsonParse maxOperationDataByteSize
      batchFileBuffer
    = BatchFile.SidetreeError BatchFile.BatchFileUnexpectedProperty.
Proof.
  intros Buffer decompress compress jsonParse stringify encode
         maxOperationDataByteSize operationBuffers batchFileBuffer
         Hcompress Hjson Hwritten.
  unfold BatchFile.fromOperationBuffers in Hwritten. cbv zeta in Hwritten.
  unfold BatchFile.parse.
  rewrite (Hcompress _ _ Hwritten), Hjson, validate_outcome.
  reflexivity.
Qed.

Lemma parse_refuses_what_fromOperationBuffers_writes_witness :
  BatchFile.parse (fun buffer : BatchFile.JSON => Ok buffer)
    (fun buffer => Ok buffer) 1000
    (BatchFile.JObject
       [("operations",
         BatchFile.JArray [BatchFile.JString "op"; BatchFile.JString "op"])])
  = BatchFile.SidetreeError BatchFile.BatchFileUnexpectedProperty.
Proof.
  apply (@parse_refuses_what_fromOperationBuffers_writes
           BatchFile.JSON (fun buffer => Ok buffer) (fun buffer => Ok buffer)
           (fun buffer => Ok buffer) (fun value => value) (fun _ => "op")
           1000 [BatchFile.JNull; BatchFile.JNull]).
  - intros raw compressed H. injection H as <-. reflexivity.
  - reflexivity.
  - reflexivity.
Defined.

(** X26. [MockCas]: [write] returns the encoded SHA-256 multihash of the
    content (hash code 18); a [read] of that address after the [write]
    gives the content back, a [read] of another address gives what it gave
    before, writing the same content again changes no [read], and a [read]
    from a store in which nothing was written gives the empty buffer. *)
Theorem MockCas_reads_back_what_was_written :
  forall (Buffer : Type) (emptyBuffer : Buffer)
         (multihash : Buffer -> Z -> Buffer) (encode : Buffer -> string)
         (content : Buffer) (storage : MockCas.Storage Buffer),
    let address := fst (MockCas.write multihash encode content storage) in
    let storage' := snd (MockCas.write multihash encode content storage) in
    address = encode (multihash content 18)
    /\ MockCas.read emptyBuffer address storage' = content
    /\ (forall other,
          other <> address ->
          MockCas.read emptyBuffer other storage'
          = MockCas.read emptyBuffer other storage)
    /\ (forall other,
          MockCas.read emptyBuffer other
            (snd (MockCas.write multihash encode content storage'))
          = MockCas.read emptyBuffer other storage')
    /\ (forall other, MockCas.read emptyBuffer other (MockCas.empty Buffer)
                      = emptyBuffer).
Proof.
  intros Buffer emptyBuffer multihash encode content storage address storage'.
  unfold storage', address, MockCas.write, MockCas.read, MockCas.set.
  cbn [fst snd]. repeat apply conj.
  - reflexivity.
  - now rewrite String.eqb_refl.
  - intros other Hother.
    destruct (String.eqb_spec other (encode (multihash content 18)));
      [contradiction | reflexivity].
  - intros other.
    destruct (String.eqb other (encode (multihash content 18))); reflexivity.
  - reflexivity.
Qed.

Lemma collectionsOf_createCollection database name server :
  MongoDbStore.collectionsOf
    (MongoDbStore.createCollection database name server) database
  = MongoDbStore.collectionsOf server database ++ [name].
Proof.
  unfold MongoDbStore.collectionsOf.
  induction server as [ | entry rest IH];
    cbn [MongoDbStore.createCollection find fst snd].
  - now rewrite String.eqb_refl.
  - destruct (String.eqb (fst entry) database) eqn:Hentry;
      cbn [find fst snd]; rewrite Hentry; [reflexivity | exact IH].
Qed.

Lemma collectionsOf_createCollection_other database name server other :
  other <> database ->
  MongoDbStore.collectionsOf
    (MongoDbStore.createCollection database name server) other
  = MongoDbStore.collectionsOf server other.
Proof.
  intros Hother. unfold MongoDbStore.collectionsOf.
  induction server as [ | entry rest IH];
    cbn [MongoDbStore.createCollection find fst snd].
  - destruct (String.eqb_spec database other) as [Hsame | _];
      [now destruct Hother | reflexivity].
  - destruct (String.eqb_spec (fst entry) database) as [Hentry | Hentry];
      cbn [find fst snd].
    + rewrite Hentry.
      destruct (String.eqb_spec database other) as [Hsame | _];
        [now destruct Hother | reflexivity].
    + destruct (String.eqb (fst entry) other); [reflexivity | exact IH].
Qed.

Lemma includes_app names name more :
  MongoDbStore.includes (names ++ more) name
  = MongoDbStore.includes names name || MongoDbStore.includes more name.
Proof. unfold MongoDbStore.includes. apply existsb_app. Qed.

(** X27. [MongoDbStore.initialize] leaves the store holding its collection
    and the database listing it; it creates the collection, with its index,
    exactly when the database did not list it, touches no other database,
    and creates nothing when it is run again. *)
Theorem initialize_creates_the_collection_once :
  forall store server,
    let '(store1, server1, events1) := MongoDbStore.initialize store server in
    MongoDbStore.collection store1 = Some (MongoDbStore.collectionName store)
    /\ MongoDbStore.includes
         (MongoDbStore.collectionsOf server1 (MongoDbStore.databaseName store))
         (MongoDbStore.collectionName store) = true
    /\ (events1 = []
        <-> MongoDbStore.includes
              (MongoDbStore.collectionsOf server
                 (MongoDbStore.databaseName store))
              (MongoDbStore.collectionName store) = true)
    /\ (forall other,
          other <> MongoDbStore.databaseName store ->
          MongoDbStore.collectionsOf server1 other
          = MongoDbStore.collectionsOf server other)
    /\ MongoDbStore.initialize store1 server1 = (store1, server1, [])
    /\ MongoDbStore.initialize store server1 = (store1, server1, []).
Proof.
  intros store server. unfold MongoDbStore.initialize. cbv zeta.
  destruct (MongoDbStore.includes
              (MongoDbStore.collectionsOf server
                 (MongoDbStore.databaseName store))
              (MongoDbStore.collectionName store)) eqn:Hfound;
    cbn [MongoDbStore.collection MongoDbStore.collectionName
         MongoDbStore.databaseName].
  - rewrite Hfound. repeat apply conj; reflexivity.
  - rewrite collectionsOf_createCollection, includes_app.
    assert (Hnew :
      MongoDbStore.includes [MongoDbStore.collectionName store]
        (MongoDbStore.collectionName store) = true).
    { unfold MongoDbStore.includes. cbn [existsb].
      now rewrite String.eqb_refl. }
    rewrite Hnew, orb_true_r.
    repeat apply conj; try reflexivity; try discriminate.
    intros other Hother. now apply collectionsOf_createCollection_other.
Qed.


(** ** Queries with a number and a hash *)

(** X29. A [transactions] query with a number other than 0 and a hash that
    is not empty is answered only when the peer has that hash at the block
    of the number ([since >> 24]): it then returns the page after [since];
    when the peer has another hash there it throws bad request with
    [InvalidTransactionNumberOrTimeHash], and when the peer fails it throws
    what the peer threw.  The processor is left as it was. *)
Theorem transactions_checks_the_hash_of_the_block_of_since :
  forall config peer since hash s,
    since <> 0 ->
    hash <> EmptyString ->
    let block := TransactionNumber.getBlockNumber since in
    match fst (transactions config peer (Some since) (Some hash) s) with
    | Done (Ok page) =>
        getblockhash peer block = Ok hash
        /\ page = pageAfter config (Some since) s
    | Done (Throw e) =>
        getblockhash peer block = Throw e
        \/ (exists other,
               getblockhash peer block = Ok other
               /\ other <> hash
               /\ e = RequestError BadRequest
                        (Some InvalidTransactionNumberOrTimeHash))
    | OutOfFuel => False
    end
    /\ snd (transactions config peer (Some since) (Some hash) s) = s.
Proof.
  intros config peer since hash s Hsince Hhash block.
  rewrite transactions_outcome. cbn [fst snd JS.truthyNumber JS.truthyString].
  destruct (Z.eqb_spec since 0) as [Hzero | _]; [contradiction | ].
  destruct (String.eqb_spec hash "") as [Hempty | _]; [contradiction | ].
  cbn [negb xorb andb]. split; [ | reflexivity]. fold block.
  destruct (getblockhash peer block) as [other | e]; [ | now left].
  destruct (String.eqb_spec hash other) as [<- | Hother].
  - now split.
  - right. exists other. repeat split. congruence.
Qed.

Lemma transactions_checks_the_hash_of_the_block_of_since_witness :
  let block :=
    TransactionNumber.getBlockNumber (TransactionNumber.construct 2 3) in
  match fst (transactions Scenario.config4 Scenario.steadyPeer
               (Some (TransactionNumber.construct 2 3)) (Some "hash")
               Scenario.fiveRecords) with
  | Done (Ok page) =>
      getblockhash Scenario.steadyPeer block = Ok "hash"
      /\ page = pageAfter Scenario.config4
                  (Some (TransactionNumber.construct 2 3))
                  Scenario.fiveRecords
  | Done (Throw e) =>
      getblockhash Scenario.steadyPeer block = Throw e
      \/ (exists other,
             getblockhash Scenario.steadyPeer block = Ok other
             /\ other <> "hash"
             /\ e = RequestError BadRequest
                      (Some InvalidTransactionNumberOrTimeHash))
  | OutOfFuel => False
  end
  /\ snd (transactions Scenario.config4 Scenario.steadyPeer
            (Some (TransactionNumber.construct 2 3)) (Some "hash")
            Scenario.fiveRecords)
     = Scenario.fiveRecords.
Proof.
  apply (@transactions_checks_the_hash_of_the_block_of_since
           Scenario.config4 Scenario.steadyPeer
           (TransactionNumber.construct 2 3) "hash" Scenario.fiveRecords).
  - vm_compute. discriminate.
  - discriminate.
Defined.

(** ** The batch boundary *)

Lemma stateless_ret {A} (a : A) : stateless (ret a).
Proof. now exists (Ok a). Qed.

Lemma stateless_throw {A} (e : Exn) : stateless (@throw A e).
Proof. now exists (Throw e). Qed.

Lemma stateless_await {A} (answer : Res A) : stateless (await answer).
Proof. now exists answer. Qed.

Lemma stateless_bind {A B} (c : M A) (k : A -> M B) :
  stateless c -> (forall a, stateless (k a)) -> stateless (x <- c ;; k x).
Proof.
  intros [[a | e] Hc] Hk.
  - destruct (Hk a) as [result Hresult]. exists result. intros s.
    unfold bind. now rewrite Hc, Hresult.
  - exists (Throw e). intros s. unfold bind. now rewrite Hc.
Qed.

Lemma stateless_mapM {A B} (f : A -> M B) (l : list A) :
  (forall a, stateless (f a)) -> stateless (mapM f l).
Proof.
  intros Hf. induction l as [ | a rest IH]; cbn [mapM].
  - apply stateless_ret.
  - apply stateless_bind; [apply Hf | intros b].
    apply stateless_bind; [apply IH | intros bs; apply stateless_ret].
Qed.

Lemma stateless_getTransactionOutValueInSatoshi peer txid outIdx :
  stateless (getTransactionOutValueInSatoshi peer txid outIdx).
Proof.
  unfold getTransactionOutValueInSatoshi.
  apply stateless_bind; [apply stateless_await | intros xact].
  destruct (find _ _); [apply stateless_ret | apply stateless_throw].
Qed.

Lemma stateless_sumInputs peer inputs :
  forall sum, stateless (sumInputs peer inputs sum).
Proof.
  induction inputs as [ | input rest IH]; intros sum; cbn [sumInputs].
  - apply stateless_ret.
  - apply stateless_bind;
      [apply stateless_getTransactionOutValueInSatoshi | intros value].
    apply IH.
Qed.

Lemma stateless_getTransactionFeeInSatoshi peer txid :
  stateless (getTransactionFeeInSatoshi peer txid).
Proof.
  unfold getTransactionFeeInSatoshi.
  apply stateless_bind; [apply stateless_await | intros xact].
  apply stateless_bind; [apply stateless_sumInputs | intros sum].
  apply stateless_ret.
Qed.

Lemma bind_run {A B} (c : M A) (k : A -> M B) (s : State) :
  (x <- c ;; k x) s
  = match c s with
    | (Done (Ok a), s1) => k a s1
    | (Done (Throw e), s1) => (Done (Throw e), s1)
    | (OutOfFuel, s1) => (OutOfFuel, s1)
    end.
Proof. reflexivity. Qed.

Lemma modify_run (f : State -> State) (s : State) :
  modify f s = (Done (Ok tt), f s).
Proof. reflexivity. Qed.

Lemma await_run {A} (answer : Res A) (s : State) :
  await answer s = (Done answer, s).
Proof. reflexivity. Qed.

Lemma gets_run {A} (f : State -> A) (s : State) :
  gets f s = (Done (Ok (f s)), s).
Proof. reflexivity. Qed.

(** X30. On a batch boundary, a [processBlock] that completes has added
    one snapshot computation and cleared the sampler: the snapshots it
    leaves are what [quantileCalculator.add] returned for the batch id of
    the block, the fees of the transactions the sampler gave as its sample
    and the snapshots from before the call, and the last call the sampler
    received is [clear].  A [processBlock] that throws there (the peer, a fee
    that cannot be computed, or the calculator) leaves the snapshots as they
    were. *)
Theorem processBlock_closes_the_batch_at_its_boundary :
  forall config peer getSample quantileAdd block s,
    isBatchBoundary config block = true ->
    let run := processBlock config peer getSample quantileAdd block s in
    match fst run with
    | Done (Ok hash) =>
        exists calls fees,
          transactionSampler (snd run) = calls ++ [Clear]
          /\ (forall s',
                mapM (getTransactionFeeInSatoshi peer) (getSample calls) s'
                = (Done (Ok fees), s'))
          /\ quantileAdd (getBatchId config block) fees (quantileCalculator s)
             = Ok (quantileCalculator (snd run))
    | Done (Throw e) => quantileCalculator (snd run) = quantileCalculator s
    | OutOfFuel => False
    end.
Proof.
  intros config peer getSample quantileAdd block s Hboundary run.
  unfold run, processBlock. rewrite Hboundary.
  rewrite bind_run, modify_run. cbv beta iota.
  rewrite bind_run. unfold getBlockHash. rewrite await_run. cbv beta iota.
  destruct (getblockhash peer block) as [hash | e]; [ | reflexivity].
  rewrite bind_run, await_run. cbv beta iota.
  destruct (getblock peer hash) as [responseData | e]; [ | reflexivity].
  cbv zeta. rewrite bind_run, modify_run. cbv beta iota.
  rewrite bind_run.
  match goal with
  | |- context [processBlockTransactions ?c ?p ?t ?i ?b ?h ?s0] =>
      pose proof (@within_processBlockTransactions
                    (unchanged quantileCalculator)
                    ltac:(frame_side) ltac:(frame_side) c p
                    ltac:(frame_side) ltac:(frame_side) t i b h s0) as Hkept;
      pose proof (@quiet_processBlockTransactions c p t i b h s0)
        as [_ Hreturns];
      destruct (processBlockTransactions c p t i b h s0)
        as [[[[] | e] | ] s1]
  end; cbn [fst snd] in *; unfold unchanged in Hkept;
    cbn [quantileCalculator withSampler withConsole] in Hkept;
    [ | exact Hkept | congruence].
  rewrite bind_run. rewrite bind_run, gets_run. cbv beta iota.
  rewrite bind_run.
  destruct (@stateless_mapM _ _ (getTransactionFeeInSatoshi peer)
              (getSample (transactionSampler s1))
              (stateless_getTransactionFeeInSatoshi peer))
    as [[fees | e] Hfees]; rewrite Hfees; [ | exact Hkept].
  rewrite bind_run, gets_run. cbv beta iota.
  rewrite bind_run, await_run. cbv beta iota.
  destruct (quantileAdd (getBatchId config block) fees (quantileCalculator s1))
    as [snapshots' | e] eqn:Hadd; [ | exact Hkept].
  rewrite bind_run, modify_run. cbv beta iota. rewrite modify_run.
  cbn [fst snd ret].
  exists (transactionSampler s1), fees.
  cbn [transactionSampler quantileCalculator withSampler withQuantile].
  rewrite <- Hkept. repeat split; [exact Hfees | exact Hadd].
Qed.

Lemma processBlock_closes_the_batch_at_its_boundary_witness :
  let run :=
    processBlock Scenario.config4 Scenario.quietPeer Scenario.sampleAll
      Scenario.addMaximum 3 Scenario.emptyState in
  match fst run with
  | Done (Ok hash) =>
      exists calls fees,
        transactionSampler (snd run) = calls ++ [Clear]
        /\ (forall s',
              mapM (getTransactionFeeInSatoshi Scenario.quietPeer)
                   (Scenario.sampleAll calls) s'
              = (Done (Ok fees), s'))
        /\ Scenario.addMaximum (getBatchId Scenario.config4 3) fees
             (quantileCalculator Scenario.emptyState)
           = Ok (quantileCalculator (snd run))
  | Done (Throw e) =>
      quantileCalculator (snd run) = quantileCalculator Scenario.emptyState
  | OutOfFuel => False
  end.
Proof.
  apply (@processBlock_closes_the_batch_at_its_boundary
           Scenario.config4 Scenario.quietPeer Scenario.sampleAll
           Scenario.addMaximum 3 Scenario.emptyState).
  reflexivity.
Defined.
